(** * unpyc3: a decompiler for Python 3.2 bytecode

    Shallow embedding of [unpyc3.py]: the evaluation [Stack], the
    instruction decoder [code_walker], [Code] and [Address], the
    [find_else] pre-pass, the expression nodes used by the handlers below,
    and the [SuiteDecompiler] handlers for unpacking, comparison chains,
    short-circuit jumps and [raise].

    Python integers are [Z]; Python lists are [list] in Python order (the
    top of a stack is the LAST element); dictionaries are [gmap]; object
    identity ([id(obj)], default [==]) is an explicit [positive] carried by
    every object; exceptions are the [Raise] results of a small state and
    error monad. *)

From Stdlib Require Import ZArith String Ascii.
From stdpp Require Import base option list gmap strings pretty.

Local Open Scope Z_scope.
Set Warnings "-register-all".

(** ** Exceptions and the state-and-error monad *)

Inductive exn :=
| IndexError | KeyError | TypeError | ValueError | AttributeError
| NameError | AssertionError
| OutOfFuel | Unmodelled.

Inductive result (A : Type) :=
| Ok (a : A)
| Raise (e : exn).
Arguments Ok {A} a.
Arguments Raise {A} e.

(** The last two are no exceptions of Python. [OutOfFuel] ends a loop or
    a chain of calls that was given too small a bound on its steps, and
    [Unmodelled] stands for a call into a part of the module that is not
    embedded here; no statement below depends on what such a call does. *)

(** A method body: it reads and mutates a state [S] and either returns or
    raises; the mutations done before a [raise] stay. *)
Definition M (S A : Type) : Type := S → result A * S.

Definition raise {S A} (e : exn) : M S A := λ s, (Raise e, s).
Definition get {S} : M S S := λ s, (Ok s, s).
Definition put {S} (s : S) : M S unit := λ _, (Ok tt, s).
Definition modify {S} (f : S → S) : M S unit := λ s, (Ok tt, f s).

#[export] Instance M_ret {S} : MRet (M S) := λ A a s, (Ok a, s).
#[export] Instance M_bind {S} : MBind (M S) := λ A B k m s,
  match m s with
  | (Ok a, s') => k a s'
  | (Raise e, s') => (Raise e, s')
  end.

(** [for x in xs: body x] *)
Fixpoint for_each {S A} (xs : list A) (body : A → M S unit) : M S unit :=
  match xs with
  | [] => mret tt
  | x :: xs' => body x;; for_each xs' body
  end.

(** [[body for i in range(n)]] *)
Fixpoint list_comp {S A} (n : nat) (body : M S A) : M S (list A) :=
  match n with
  | O => mret []
  | S n' => v ← body; vs ← list_comp n' body; mret (v :: vs)
  end.

(** ** Python list primitives *)

(** [l.pop()] on a non-empty list: the list without its last element, and
    that element. *)
Fixpoint unsnoc {A} (l : list A) : option (list A * A) :=
  match l with
  | [] => None
  | x :: l' =>
      match unsnoc l' with
      | None => Some ([], x)
      | Some (init, lst) => Some (x :: init, lst)
      end
  end.

(** [l[i]] with Python's negative indices. *)
Definition py_index {A} (l : list A) (i : Z) : option A :=
  let n := Z.of_nat (length l) in
  if decide (0 ≤ i < n) then l !! Z.to_nat i
  else if decide (- n ≤ i < 0) then l !! Z.to_nat (n + i)
  else None.

(** [l[start:]] *)
Definition py_slice_from {A} (l : list A) (start : Z) : list A :=
  let n := Z.of_nat (length l) in
  let lo := if decide (start < 0) then Z.max (n + start) 0 else Z.min start n in
  drop (Z.to_nat lo) l.

(** [range(count)] runs [count] times, and not at all for [count <= 0]. *)
Definition range_len (count : Z) : nat := Z.to_nat count.

(** ** class Stack *)

Section Stack.
(** The objects kept on the stack and their identity [id(obj)]. *)
Context {A : Type} (id : A → positive).

Record Stack := mkStack {
  _stack : list A;
  _counts : gmap positive Z;
}.

(** [Stack.__init__] *)
Definition Stack_init : Stack := {| _stack := []; _counts := ∅ |}.

Definition Stack_bool (s : Stack) : bool :=
  match _stack s with [] => false | _ => true end.

Definition Stack_len (s : Stack) : Z := Z.of_nat (length (_stack s)).

Definition get_count (obj : A) (s : Stack) : Z :=
  default 0 (_counts s !! id obj).

Definition contains (val : A) (s : Stack) : bool :=
  bool_decide (get_count val s > 0).

Definition set_count (obj : A) (val : Z) : M Stack unit :=
  λ s,
    if decide (val ≠ 0) then
      (Ok tt, {| _stack := _stack s; _counts := <[id obj := val]> (_counts s) |})
    else
      match _counts s !! id obj with
      | Some _ =>
          (Ok tt, {| _stack := _stack s; _counts := delete (id obj) (_counts s) |})
      | None => (Raise KeyError, s)
      end.

Definition pop1 : M Stack A :=
  s ← get;
  match unsnoc (_stack s) with
  | None => raise IndexError
  | Some (rest, val) =>
      put {| _stack := rest; _counts := _counts s |};;
      s' ← get;
      set_count val (get_count val s' - 1);;
      mret val
  end.

(** [pop()] *)
Definition pop : M Stack A := pop1.

(** [pop(count)] *)
Definition pop_n (count : Z) : M Stack (list A) :=
  vals ← list_comp (range_len count) pop1;
  mret (reverse vals).

(** [push], called with any number of arguments *)
Definition push (args : list A) : M Stack unit :=
  for_each args (λ val,
    s ← get;
    set_count val (get_count val s + 1);;
    modify (λ s, {| _stack := _stack s ++ [val]; _counts := _counts s |})).

(** [peek()] *)
Definition peek : M Stack A :=
  s ← get;
  match py_index (_stack s) (-1) with
  | Some v => mret v
  | None => raise IndexError
  end.

(** [peek(count)] *)
Definition peek_n (count : Z) : M Stack (list A) :=
  s ← get; mret (py_slice_from (_stack s) (- count)).

(** How often the object with identity [k] occurs in a list. *)
Fixpoint occurrences (k : positive) (l : list A) : nat :=
  match l with
  | [] => O
  | x :: l' => (if decide (id x = k) then 1 else 0)%nat + occurrences k l'
  end.

(** A use of the stack, and the state it leaves (also when it raised). *)
Inductive stack_op :=
| OpPush (args : list A)
| OpPop
| OpPopN (count : Z)
| OpPeek
| OpPeekN (count : Z).

Definition exec_op (s : Stack) (o : stack_op) : Stack :=
  match o with
  | OpPush args => snd (push args s)
  | OpPop => snd (pop s)
  | OpPopN count => snd (pop_n count s)
  | OpPeek => snd (peek s)
  | OpPeekN count => snd (peek_n count s)
  end.

Definition exec_ops (ops : list stack_op) : Stack :=
  foldl exec_op Stack_init ops.

(** Did the operation raise, and what. *)
Definition op_raises (s : Stack) (o : stack_op) : option exn :=
  let err {B} (r : result B) := match r with Ok _ => None | Raise e => Some e end in
  match o with
  | OpPush args => err (fst (push args s))
  | OpPop => err (fst (pop s))
  | OpPopN count => err (fst (pop_n count s))
  | OpPeek => err (fst (peek s))
  | OpPeekN count => err (fst (peek_n count s))
  end.

(** The counts dictionary holds exactly the number of occurrences of every
    object of the list, and no entry for an absent one. *)
Definition counts_ok (s : Stack) : Prop :=
  ∀ k, _counts s !! k =
       match occurrences k (_stack s) with
       | O => None
       | n => Some (Z.of_nat n)
       end.

End Stack.

Arguments Stack A : clear implicits.
Arguments stack_op A : clear implicits.

(** ** The opcodes of CPython 3.2

    [unpyc3] takes them from the standard module [opcode]
    ([opname], [opmap], [HAVE_ARGUMENT], [cmp_op];
    the names of [opmap] are put in the global namespace) and from [dis]
    ([hasjrel], [hasjabs]); these are the tables of CPython 3.2, the
    version the module decompiles. *)

Definition opcode_table : list (string * Z) :=
  [("STOP_CODE", 0);
   ("POP_TOP", 1); ("ROT_TWO", 2); ("ROT_THREE", 3); ("DUP_TOP", 4);
   ("DUP_TOP_TWO", 5); ("NOP", 9);
   ("UNARY_POSITIVE", 10); ("UNARY_NEGATIVE", 11); ("UNARY_NOT", 12);
   ("UNARY_INVERT", 15);
   ("BINARY_POWER", 19); ("BINARY_MULTIPLY", 20); ("BINARY_MODULO", 22);
   ("BINARY_ADD", 23); ("BINARY_SUBTRACT", 24); ("BINARY_SUBSCR", 25);
   ("BINARY_FLOOR_DIVIDE", 26); ("BINARY_TRUE_DIVIDE", 27);
   ("INPLACE_FLOOR_DIVIDE", 28); ("INPLACE_TRUE_DIVIDE", 29);
   ("STORE_MAP", 54); ("INPLACE_ADD", 55); ("INPLACE_SUBTRACT", 56);
   ("INPLACE_MULTIPLY", 57); ("INPLACE_MODULO", 59);
   ("STORE_SUBSCR", 60); ("DELETE_SUBSCR", 61);
   ("BINARY_LSHIFT", 62); ("BINARY_RSHIFT", 63); ("BINARY_AND", 64);
   ("BINARY_XOR", 65); ("BINARY_OR", 66); ("INPLACE_POWER", 67);
   ("GET_ITER", 68); ("STORE_LOCALS", 69); ("PRINT_EXPR", 70);
   ("LOAD_BUILD_CLASS", 71);
   ("INPLACE_LSHIFT", 75); ("INPLACE_RSHIFT", 76); ("INPLACE_AND", 77);
   ("INPLACE_XOR", 78); ("INPLACE_OR", 79);
   ("BREAK_LOOP", 80); ("WITH_CLEANUP", 81); ("RETURN_VALUE", 83);
   ("IMPORT_STAR", 84); ("YIELD_VALUE", 86); ("POP_BLOCK", 87);
   ("END_FINALLY", 88); ("POP_EXCEPT", 89);
   ("STORE_NAME", 90); ("DELETE_NAME", 91); ("UNPACK_SEQUENCE", 92);
   ("FOR_ITER", 93); ("UNPACK_EX", 94); ("STORE_ATTR", 95);
   ("DELETE_ATTR", 96); ("STORE_GLOBAL", 97); ("DELETE_GLOBAL", 98);
   ("LOAD_CONST", 100); ("LOAD_NAME", 101); ("BUILD_TUPLE", 102);
   ("BUILD_LIST", 103); ("BUILD_SET", 104); ("BUILD_MAP", 105);
   ("LOAD_ATTR", 106); ("COMPARE_OP", 107); ("IMPORT_NAME", 108);
   ("IMPORT_FROM", 109); ("JUMP_FORWARD", 110);
   ("JUMP_IF_FALSE_OR_POP", 111); ("JUMP_IF_TRUE_OR_POP", 112);
   ("JUMP_ABSOLUTE", 113); ("POP_JUMP_IF_FALSE", 114);
   ("POP_JUMP_IF_TRUE", 115); ("LOAD_GLOBAL", 116);
   ("CONTINUE_LOOP", 119); ("SETUP_LOOP", 120); ("SETUP_EXCEPT", 121);
   ("SETUP_FINALLY", 122); ("LOAD_FAST", 124); ("STORE_FAST", 125);
   ("DELETE_FAST", 126); ("RAISE_VARARGS", 130); ("CALL_FUNCTION", 131);
   ("MAKE_FUNCTION", 132); ("BUILD_SLICE", 133); ("MAKE_CLOSURE", 134);
   ("LOAD_CLOSURE", 135); ("LOAD_DEREF", 136); ("STORE_DEREF", 137);
   ("DELETE_DEREF", 138); ("CALL_FUNCTION_VAR", 140);
   ("CALL_FUNCTION_KW", 141); ("CALL_FUNCTION_VAR_KW", 142);
   ("SETUP_WITH", 143); ("EXTENDED_ARG", 144); ("LIST_APPEND", 145);
   ("SET_ADD", 146); ("MAP_ADD", 147)]%string.

(** [opname[op]], for [op] a byte. *)
Definition opname (op : Z) : string :=
  match list_find (λ p, snd p = op) opcode_table with
  | Some (_, (name, _)) => name
  | None => ("<" +:+ pretty op +:+ ">")%string
  end.

Module opmap.
Definition POP_TOP : Z := 1.
Definition ROT_TWO : Z := 2.
Definition ROT_THREE : Z := 3.
Definition DUP_TOP : Z := 4.
Definition DUP_TOP_TWO : Z := 5.
Definition NOP : Z := 9.
Definition GET_ITER : Z := 68.
Definition BREAK_LOOP : Z := 80.
Definition WITH_CLEANUP : Z := 81.
Definition RETURN_VALUE : Z := 83.
Definition YIELD_VALUE : Z := 86.
Definition POP_BLOCK : Z := 87.
Definition END_FINALLY : Z := 88.
Definition POP_EXCEPT : Z := 89.
Definition HAVE_ARGUMENT : Z := 90.
Definition STORE_NAME : Z := 90.
Definition DELETE_NAME : Z := 91.
Definition UNPACK_SEQUENCE : Z := 92.
Definition FOR_ITER : Z := 93.
Definition UNPACK_EX : Z := 94.
Definition STORE_ATTR : Z := 95.
Definition DELETE_ATTR : Z := 96.
Definition STORE_GLOBAL : Z := 97.
Definition DELETE_GLOBAL : Z := 98.
Definition LOAD_CONST : Z := 100.
Definition LOAD_NAME : Z := 101.
Definition BUILD_TUPLE : Z := 102.
Definition LOAD_ATTR : Z := 106.
Definition COMPARE_OP : Z := 107.
Definition IMPORT_NAME : Z := 108.
Definition IMPORT_FROM : Z := 109.
Definition JUMP_FORWARD : Z := 110.
Definition JUMP_IF_FALSE_OR_POP : Z := 111.
Definition JUMP_IF_TRUE_OR_POP : Z := 112.
Definition JUMP_ABSOLUTE : Z := 113.
Definition POP_JUMP_IF_FALSE : Z := 114.
Definition POP_JUMP_IF_TRUE : Z := 115.
Definition LOAD_GLOBAL : Z := 116.
Definition CONTINUE_LOOP : Z := 119.
Definition SETUP_LOOP : Z := 120.
Definition SETUP_EXCEPT : Z := 121.
Definition SETUP_FINALLY : Z := 122.
Definition LOAD_FAST : Z := 124.
Definition STORE_FAST : Z := 125.
Definition DELETE_FAST : Z := 126.
Definition RAISE_VARARGS : Z := 130.
Definition STORE_DEREF : Z := 137.
Definition DELETE_DEREF : Z := 138.
Definition SETUP_WITH : Z := 143.
End opmap.
Export opmap.

(** [dis.hasjrel] and [dis.hasjabs] *)
Definition hasjrel : list Z :=
  [FOR_ITER; JUMP_FORWARD; SETUP_LOOP; SETUP_EXCEPT; SETUP_FINALLY; SETUP_WITH].
Definition hasjabs : list Z :=
  [JUMP_IF_FALSE_OR_POP; JUMP_IF_TRUE_OR_POP; JUMP_ABSOLUTE;
   POP_JUMP_IF_FALSE; POP_JUMP_IF_TRUE; CONTINUE_LOOP].

(** [opcode.cmp_op] *)
Definition cmp_op : list string :=
  ["<"; "<="; "=="; "!="; ">"; ">="; "in"; "not in"; "is"; "is not";
   "exception match"; "BAD"]%string.

(** The tables of the module itself. *)
Definition stmt_opcodes : list Z :=
  [SETUP_LOOP; BREAK_LOOP; CONTINUE_LOOP;
   SETUP_FINALLY; END_FINALLY;
   SETUP_EXCEPT; POP_EXCEPT;
   SETUP_WITH;
   POP_BLOCK;
   STORE_FAST; DELETE_FAST;
   STORE_DEREF; DELETE_DEREF;
   STORE_GLOBAL; DELETE_GLOBAL;
   STORE_NAME; DELETE_NAME;
   STORE_ATTR; DELETE_ATTR;
   IMPORT_NAME; IMPORT_FROM;
   RETURN_VALUE; YIELD_VALUE;
   RAISE_VARARGS;
   POP_TOP].

Definition pop_jump_if_opcodes : list Z := [POP_JUMP_IF_TRUE; POP_JUMP_IF_FALSE].

Definition else_jump_opcodes : list Z :=
  [JUMP_FORWARD; RETURN_VALUE; JUMP_ABSOLUTE; SETUP_LOOP; RAISE_VARARGS].

(** [x in table] *)
Definition op_in (x : Z) (table : list Z) : bool := bool_decide (x ∈ table).

(** ** str.format *)

(** [template.format(args...)] for templates whose only fields are [{}].
    Python raises [IndexError] when the fields outnumber the arguments. *)
Fixpoint format (template : string) (args : list string) : result string :=
  match template with
  | EmptyString => Ok EmptyString
  | String "{"%char (String "}"%char rest) =>
      match args with
      | [] => Raise IndexError
      | a :: args' =>
          match format rest args' with
          | Ok s => Ok (a +:+ s)
          | Raise e => Raise e
          end
      end
  | String c rest =>
      match format rest args with
      | Ok s => Ok (String c s)
      | Raise e => Raise e
      end
  end.

(** ** Objects

    Constants of a code object: [None], booleans, integers and tuples of
    them. *)
Inductive pyval :=
| VNone
| VBool (b : bool)
| VInt (n : Z)
| VTuple (items : list pyval).

(** [repr(val)] *)
Fixpoint repr (v : pyval) : string :=
  match v with
  | VNone => "None"
  | VBool true => "True"
  | VBool false => "False"
  | VInt n => pretty n
  | VTuple items =>
      match items with
      | [] => "()"
      | [x] => "(" +:+ repr x +:+ ",)"
      | _ => "(" +:+ String.concat ", " (map repr items) +:+ ")"
      end
  end%string.

(** [a == b] on constants: a boolean is the integer 0 or 1. *)
Fixpoint pyval_eq (a b : pyval) : bool :=
  let as_int v := match v with
                  | VBool b => Some (if b then 1 else 0)
                  | VInt n => Some n
                  | _ => None
                  end in
  match a, b with
  | VNone, VNone => true
  | VTuple xs, VTuple ys =>
      (fix go (xs ys : list pyval) : bool :=
         match xs, ys with
         | [], [] => true
         | x :: xs', y :: ys' => pyval_eq x y && go xs' ys'
         | _, _ => false
         end) xs ys
  | _, _ =>
      match as_int a, as_int b with
      | Some m, Some n => bool_decide (m = n)
      | _, _ => false
      end
  end.

(** The subclasses of [PyUnaryOp] made from the table [unary_ops]. *)
Inductive unary_cls := PyPositive | PyNegative | PyNot | PyInvert.

(** The subclasses of [PyBinaryOp]: those made from the table [binary_ops]
    (with [PySubscript] declared by hand), [PyBooleanAnd], [PyBooleanOr]
    and [PyKeyValue]. *)
Inductive binary_cls :=
| PyPower | PyMultiply | PyFloorDivide | PyTrueDivide | PyModulo
| PyAdd | PySubtract | PySubscript | PyLeftShift | PyRightShift
| PyAnd | PyXor | PyOr
| PyBooleanAnd | PyBooleanOr | PyKeyValue.

#[export] Instance unary_cls_eq_dec : EqDecision unary_cls.
Proof. solve_decision. Defined.
#[export] Instance binary_cls_eq_dec : EqDecision binary_cls.
Proof. solve_decision. Defined.

(** Whatever an evaluation stack can hold: the expression nodes (immutable
    once built) and references to the mutable [Unpack] accumulators, which
    live in the heap.  [oid] is the identity of the object. *)
Inductive obj :=
| PyConst (oid : positive) (val : pyval)
| PyTuple (oid : positive) (values : list obj)
| PyName (oid : positive) (name : string)
| PyUnaryOp (oid : positive) (cls : unary_cls) (operand : obj)
| PyBinaryOp (oid : positive) (cls : binary_cls) (left right : obj)
| PyCompare (oid : positive) (complist : list (obj + string))
| PyAttribute (oid : positive) (expr : obj) (attrname : obj)
| PyStarred (oid : positive) (expr : obj)
| UnpackRef (oid : positive).

(** [id(o)] *)
Definition id (o : obj) : positive :=
  match o with
  | PyConst i _ | PyTuple i _ | PyName i _ | PyUnaryOp i _ _
  | PyBinaryOp i _ _ _ | PyCompare i _ | PyAttribute i _ _ | PyStarred i _
  | UnpackRef i => i
  end.

(** [isinstance(o, PyExpr)] *)
Definition is_PyExpr (o : obj) : bool :=
  match o with UnpackRef _ => false | _ => true end.

(** [isinstance(o, PyCompare)] *)
Definition is_PyCompare (o : obj) : bool :=
  match o with PyCompare _ _ => true | _ => false end.

(** [isinstance(o, cls)] for a subclass of [PyBinaryOp] *)
Definition is_binary (cls : binary_cls) (o : obj) : bool :=
  match o with
  | PyBinaryOp _ c _ _ => bool_decide (c = cls)
  | _ => false
  end.

(** The class attribute [pattern]. *)
Definition unary_pattern (c : unary_cls) : string :=
  match c with
  | PyPositive => "+{}"
  | PyNegative => "-{}"
  | PyNot => "not {}"
  | PyInvert => "~{}"
  end.

Definition binary_pattern (c : binary_cls) : string :=
  match c with
  | PyPower => "{}**{}"
  | PyMultiply => "{}*{}"
  | PyFloorDivide => "{}//{}"
  | PyTrueDivide => "{}/{}"
  | PyModulo => "{} % {}"
  | PyAdd => "{} + {}"
  | PySubtract => "{} - {}"
  | PySubscript => "{}[{}]"
  | PyLeftShift => "{} << {}"
  | PyRightShift => "{} >> {}"
  | PyAnd => "{} & {}"
  | PyXor => "{} ^ {}"
  | PyOr => "{} | {}"
  | PyBooleanAnd => "{} and {}"
  | PyBooleanOr => "{} or {}"
  | PyKeyValue => "{}: {}"
  end.

(** The class attribute [precedence]; an [Unpack] has none. *)
Definition precedence (o : obj) : result Z :=
  match o with
  | PyConst _ _ => Ok 100
  | PyTuple _ _ => Ok 0
  | PyName _ _ => Ok 100
  | PyUnaryOp _ c _ =>
      Ok match c with PyNot => 5 | _ => 13 end
  | PyBinaryOp _ c _ _ =>
      Ok match c with
         | PyPower => 14
         | PyMultiply | PyFloorDivide | PyTrueDivide | PyModulo => 12
         | PyAdd | PySubtract => 11
         | PySubscript => 15
         | PyLeftShift | PyRightShift => 10
         | PyAnd => 9
         | PyXor => 8
         | PyOr => 7
         | PyBooleanAnd => 4
         | PyBooleanOr => 3
         | PyKeyValue => 1
         end
  | PyCompare _ _ => Ok 6
  | PyAttribute _ _ _ => Ok 15
  | PyStarred _ _ => Ok 15
  | UnpackRef _ => Raise AttributeError
  end.

(** Computations that only return or raise. *)
Definition rbind {A B} (r : result A) (k : A → result B) : result B :=
  match r with Ok a => k a | Raise e => Raise e end.

Notation "'let!' x := r 'in' k" := (rbind r (λ x, k))
  (at level 10, x name, r at level 100, k at level 200).

(** [PyExpr.wrap], given [str(self)] *)
Definition wrap_with (s : string) (condition : bool) : result string :=
  if condition then format "({})" [s] else Ok s.

(** [str(o)].  An [Unpack] has the default [object.__str__], which prints
    the address of the object; the model prints its identity. *)
Fixpoint str (o : obj) : result string :=
  match o with
  | PyConst _ val => Ok (repr val)
  | PyTuple _ values =>
      match values with
      | [] => Ok "()"%string
      | _ =>
          let! valstr :=
            (fix go (vals : list obj) : result (list string) :=
               match vals with
               | [] => Ok []
               | val :: vals' =>
                   let! p := precedence val in
                   let! s := str val in
                   let! w := wrap_with s (bool_decide (p ≤ 0)) in
                   let! ws := go vals' in
                   Ok (w :: ws)
               end) values in
          match valstr with
          | [v] => Ok (v +:+ ",")%string
          | _ => Ok (String.concat ", " valstr)
          end
      end
  | PyName _ name => Ok name
  | PyUnaryOp _ c operand =>
      let! p := precedence operand in
      let! self_p := precedence o in
      let! s := str operand in
      let! opstr := wrap_with s (bool_decide (p < self_p)) in
      format (unary_pattern c) [opstr]
  | PyBinaryOp _ c l r =>
      let! self_p := precedence o in
      let! pl := precedence l in
      let! sl := str l in
      let! wl := wrap_with sl (bool_decide (pl < self_p)) in
      let! wr :=
        match c with
        | PySubscript => str r
        | _ =>
            let! pr := precedence r in
            let! sr := str r in
            wrap_with sr (bool_decide (pr ≤ self_p))
        end in
      format (binary_pattern c) [wl; wr]
  | PyCompare _ complist =>
      let! parts :=
        (fix go (i : nat) (items : list (obj + string)) : result (list string) :=
           match items with
           | [] => Ok []
           | x :: items' =>
               let! part :=
                 if Nat.odd i then
                   match x with
                   | inr s => Ok s
                   | inl _ => Raise TypeError
                   end
                 else
                   match x with
                   | inl e =>
                       let! p := precedence e in
                       let! s := str e in
                       wrap_with s (bool_decide (p ≤ 0))
                   | inr _ => Raise AttributeError
                   end in
               let! parts := go (S i) items' in
               Ok (part :: parts)
           end) O complist in
      Ok (String.concat " " parts)
  | PyAttribute _ expr attrname =>
      let! p := precedence expr in
      let! self_p := precedence o in
      let! s := str expr in
      let! expr_str := wrap_with s (bool_decide (p < self_p)) in
      let! a := str attrname in
      format "{}.{}" [expr_str; a]
  | PyStarred _ expr =>
      let! p := precedence expr in
      let! self_p := precedence o in
      let! s := str expr in
      let! es := wrap_with s (bool_decide (p < self_p)) in
      format "*{}" [es]
  | UnpackRef i => Ok ("<unpyc3.Unpack object at " +:+ pretty (Zpos i) +:+ ">")%string
  end.

(** [a == b].  [PyConst] and [PyName] define [__eq__]; every other class
    compares by identity, after which Python asks the right operand. *)
Definition py_eq (a b : obj) : bool :=
  match a with
  | PyConst _ va =>
      match b with PyConst _ vb => pyval_eq va vb | _ => false end
  | PyName _ na =>
      match b with PyName _ nb => bool_decide (na = nb) | _ => false end
  | _ => bool_decide (id a = id b)
  end.

(** [PyCompare.extends] *)
Definition extends (self other : obj) : result bool :=
  match self, other with
  | PyCompare _ self_complist, PyCompare _ other_complist =>
      match py_index self_complist 0, py_index other_complist (-1) with
      | Some x, Some y =>
          match x, y with
          | inl a, inl b => Ok (py_eq a b)
          | inr s, inr t => Ok (bool_decide (s = t))
          | _, _ => Ok false
          end
      | _, _ => Raise IndexError
      end
  | PyCompare _ _, _ => Ok false
  | _, _ => Raise AttributeError
  end.

(** [PyCompare.chain]; [oid] is the identity of the new node. *)
Definition chain (oid : positive) (self other : obj) : result obj :=
  match self, other with
  | PyCompare _ self_complist, PyCompare _ other_complist =>
      Ok (PyCompare oid (self_complist ++ drop 1 other_complist))
  | _, _ => Raise AttributeError
  end.

(** ** The heap

    Objects get their identity when they are created; the mutable [Unpack]
    accumulators are kept by identity, so that the copies of one
    accumulator on the stack share its destinations. *)
Record Unpack := mkUnpack {
  val : obj;
  length_ : Z;
  star_index : option Z;
  dests : list obj;
}.

Record Heap := mkHeap {
  next_id : positive;
  unpacks : gmap positive Unpack;
}.

Definition Heap_init : Heap := {| next_id := 1; unpacks := ∅ |}.

(** The identity of a new object. *)
Definition alloc : M Heap positive :=
  λ h, (Ok (next_id h), {| next_id := Pos.succ (next_id h); unpacks := unpacks h |}).

(** [list(map(f, xs))] *)
Fixpoint map_M {S A B} (f : A → M S B) (xs : list A) : M S (list B) :=
  match xs with
  | [] => mret []
  | x :: xs' => y ← f x; ys ← map_M f xs'; mret (y :: ys)
  end.

(** A result without effect, inside a method. *)
Definition lift {S A} (r : result A) : M S A := λ s, (r, s).

(** An attribute or an item of a value that may be [None]. *)
Definition need {A} (e : exn) (o : option A) : result A :=
  match o with Some a => Ok a | None => Raise e end.

(** ** code_walker *)

(** An element of [Code.instr_seq]: [(addr, (opcode, arg))]. *)
Abbreviation instr := (Z * (Z * option Z))%type.

(** [code_walker(code)], consumed by [list]; [i] is the position of the
    first byte of [code].  Reading an argument byte past the end raises
    [IndexError]. *)
Fixpoint code_walker_from (i : Z) (code : list Z) : result (list instr) :=
  match code with
  | [] => Ok []
  | op :: rest =>
      if decide (op >= HAVE_ARGUMENT) then
        match rest with
        | lo :: hi :: rest' =>
            let! instrs := code_walker_from (i + 3) rest' in
            Ok ((i, (op, Some (lo + Z.shiftl hi 8))) :: instrs)
        | _ => Raise IndexError
        end
      else
        let! instrs := code_walker_from (i + 1) rest in
        Ok ((i, (op, None)) :: instrs)
  end.

Definition code_walker (code : list Z) : result (list instr) :=
  code_walker_from 0 code.

(** ** class Code and class Address *)

(** The attributes of a code object that the model reads; [co_code] is a
    byte string. *)
Record code_obj := mk_code_obj {
  co_code : list Z;
  co_consts : list pyval;
  co_names : list string;
  co_varnames : list string;
  co_name : string;
}.

(** [else_jumps] is a set of Addresses of this Code; an Address hashes and
    compares by its code and its index, so the set is kept as the set of
    their indices. [code_id] is the identity of the Code object. *)
Record Code := mkCode {
  code_id : positive;
  consts : list obj;
  names : list obj;
  varnames : list obj;
  instr_seq : list instr;
  instr_map : gmap Z Z;
  name : string;
  else_jumps : gset Z;
}.

Record Address := mkAddress {
  code : Code;
  index : Z;
  addr : Z;
  opcode : Z;
  arg : option Z;
}.

(** [enumerate(l)] *)
Definition enumerate {A} (l : list A) : list (Z * A) :=
  imap (λ i x, (Z.of_nat i, x)) l.

(** [{addr: i for i, (addr, _) in enumerate(instr_seq)}] *)
Definition build_instr_map (seq : list instr) : gmap Z Z :=
  foldl (λ m p, <[fst (snd p) := fst p]> m) ∅ (enumerate seq).

(** [Address.__init__] *)
Definition Address_init (code : Code) (instr_index : Z) : result Address :=
  match py_index (instr_seq code) instr_index with
  | Some (addr, (opcode, arg)) =>
      Ok {| code := code; index := instr_index;
            addr := addr; opcode := opcode; arg := arg |}
  | None => Raise IndexError
  end.

(** [Code.__getitem__]: the method ends without [return] when the index is
    out of range, which gives [None]. *)
Definition Code_getitem (self : Code) (instr_index : Z) : result (option Address) :=
  if decide (0 ≤ instr_index < Z.of_nat (length (instr_seq self))) then
    let! a := Address_init self instr_index in Ok (Some a)
  else Ok None.

(** [Code.__iter__], consumed to the end: the Addresses at the indices
    of [range(len(self.instr_seq))]. *)
Fixpoint Code_iter_over (self : Code) (ixs : list nat) : result (list Address) :=
  match ixs with
  | [] => Ok []
  | i :: ixs' =>
      let! a := Address_init self (Z.of_nat i) in
      let! rest := Code_iter_over self ixs' in
      Ok (a :: rest)
  end.

Definition Code_iter (self : Code) : result (list Address) :=
  Code_iter_over self (seq 0 (length (instr_seq self))).

(** [Code.address] *)
Definition address (self : Code) (addr : Z) : result (option Address) :=
  match instr_map self !! addr with
  | Some i => Code_getitem self i
  | None => Raise KeyError
  end.

(** [Address.__eq__]; [other] may be [None]. [Code] has no [__eq__]: two
    codes are equal when they are the same object. *)
Definition Address_eq (self : Address) (other : option Address) : bool :=
  match other with
  | Some other =>
      bool_decide (code_id (code self) = code_id (code other))
      && bool_decide (index self = index other)
  | None => false
  end.

(** [Address.__lt__] *)
Definition Address_lt (self : Address) (other : option Address) : bool :=
  match other with
  | None => true
  | Some other =>
      bool_decide (code_id (code self) = code_id (code other))
      && bool_decide (index self < index other)
  end.

(** [Address.__add__]; [delta] is [None] when it is the [arg] of an
    instruction without argument. *)
Definition Address_add (self : Address) (delta : option Z) : result (option Address) :=
  match delta with
  | Some delta => address (code self) (addr self + delta)
  | None => Raise TypeError
  end.

(** [Address.__getitem__] *)
Definition Address_getitem (self : Address) (index_ : Z) : result (option Address) :=
  Code_getitem (code self) (index self + index_).

(** [Address.is_else_jump] *)
Definition is_else_jump (self : Address) : bool :=
  bool_decide (index self ∈ else_jumps (code self)).

(** [Address.jump]; the method ends without [return] for an opcode that is
    no jump. *)
Definition jump (self : Address) : result (option Address) :=
  if op_in (opcode self) hasjrel then
    let! next := Address_getitem self 1 in
    let! next := need TypeError next in
    Address_add next (arg self)
  else if op_in (opcode self) hasjabs then
    match arg self with
    | Some a => address (code self) a
    | None => Raise KeyError
    end
  else Ok None.

(** One turn of the loop of [Code.find_else]: [jumps] is keyed by the index
    of the key Address. *)
Definition find_else_step (self : Code) (st : gmap Z Address * option Address)
    (addr : Address) : result (gmap Z Address * option Address) :=
  let '(jumps, last_jump) := st in
  let op := opcode addr in
  if op_in op pop_jump_if_opcodes then
    let! a := need KeyError (arg addr) in
    let! jump_addr := address self a in
    let! jump_addr := need TypeError jump_addr in
    let! prev := Address_getitem jump_addr (-1) in
    let! prev := need AttributeError prev in
    if op_in (opcode prev) else_jump_opcodes
       || bool_decide (opcode jump_addr = FOR_ITER)
    then Ok (<[index jump_addr := addr]> jumps, Some addr)
    else Ok st
  else if bool_decide (op = JUMP_ABSOLUTE) then
    let! a := need KeyError (arg addr) in
    let! jump_addr := address self a in
    match jump_addr with
    | Some jump_addr =>
        match jumps !! index jump_addr with
        | Some j => Ok (<[index addr := j]> jumps, last_jump)
        | None => Ok st
        end
    | None => Ok st
    end
  else if op_in op stmt_opcodes then
    match last_jump with
    | Some j => Ok (<[index addr := j]> jumps, last_jump)
    | None => Ok st
    end
  else Ok st.

(** The loop of [Code.find_else] over the Addresses of the code. *)
Fixpoint find_else_loop (self : Code) (st : gmap Z Address * option Address)
    (addrs : list Address) : result (gmap Z Address * option Address) :=
  match addrs with
  | [] => Ok st
  | addr :: addrs' =>
      let! st' := find_else_step self st addr in
      find_else_loop self st' addrs'
  end.

(** [Code.find_else]: the value it assigns to [self.else_jumps],
    [set(jumps.values())]. *)
Definition find_else (self : Code) : result (gset Z) :=
  let! addrs := Code_iter self in
  let! st := find_else_loop self (∅, None) addrs in
  Ok (list_to_set (index <$> (map_to_list (fst st)).*2)).

(** [Code.__init__]: the tables of names and constants, the decoded
    instructions, and the pre-pass.  The names of cell and free variables,
    the parent and the lists of declared globals and nonlocals are not
    read by the handlers below and are left out. *)
Definition Code_init (code_obj : code_obj) : M Heap Code :=
  self_id ← alloc;
  consts ← map_M (λ v, i ← alloc; mret (PyConst i v)) (co_consts code_obj);
  names ← map_M (λ n, i ← alloc; mret (PyName i n)) (co_names code_obj);
  varnames ← map_M (λ n, i ← alloc; mret (PyName i n)) (co_varnames code_obj);
  instr_seq ← lift (code_walker (co_code code_obj));
  let self := {| code_id := self_id; consts := consts; names := names;
                 varnames := varnames; instr_seq := instr_seq;
                 instr_map := build_instr_map instr_seq;
                 name := co_name code_obj; else_jumps := ∅ |} in
  ej ← lift (find_else self);
  mret {| code_id := self_id; consts := consts; names := names;
          varnames := varnames; instr_seq := instr_seq;
          instr_map := build_instr_map instr_seq;
          name := co_name code_obj; else_jumps := ej |}.


(** The instruction table of a Code made by [Code.__init__]: the positions
    of [code_walker] are distinct, and [instr_map] is built from them. *)
Definition Code_wf (c : Code) : Prop :=
  NoDup (fst <$> instr_seq c) ∧ instr_map c = build_instr_map (instr_seq c).

(** The indices of the targets of the conditional jumps of a code. *)
Definition cond_jump_targets (self : Code) : result (list Z) :=
  let! addrs := Code_iter self in
  (fix go (addrs : list Address) : result (list Z) :=
     match addrs with
     | [] => Ok []
     | a :: addrs' =>
         let! rest := go addrs' in
         if op_in (opcode a) pop_jump_if_opcodes then
           let! t := jump a in
           match t with
           | Some t => Ok (index t :: rest)
           | None => Ok rest
           end
         else Ok rest
     end) addrs.

(** ** Example code objects

    The module body [if x: f()] / [else: g()], as CPython 3.2 compiles it:
<<
     0 LOAD_NAME 0 (x)          16 LOAD_NAME 2 (g)
     3 POP_JUMP_IF_FALSE 16     19 CALL_FUNCTION 0
     6 LOAD_NAME 1 (f)          22 POP_TOP
     9 CALL_FUNCTION 0          23 LOAD_CONST 0 (None)
    12 POP_TOP                  26 RETURN_VALUE
    13 JUMP_FORWARD 7 (to 23)
>> *)
Definition if_else_code : code_obj :=
  {| co_code := [101; 0; 0;  114; 16; 0;  101; 1; 0;  131; 0; 0;  1;
                 110; 7; 0;  101; 2; 0;  131; 0; 0;  1;  100; 0; 0;  83];
     co_consts := [VNone];
     co_names := ["x"; "f"; "g"]%string;
     co_varnames := [];
     co_name := "<module>" |}.


(** The Code that [Code.__init__] makes of it on a fresh heap. *)
Definition if_else_instrs : list instr :=
  [(0, (LOAD_NAME, Some 0)); (3, (POP_JUMP_IF_FALSE, Some 16));
   (6, (LOAD_NAME, Some 1)); (9, (131, Some 0)); (12, (POP_TOP, None));
   (13, (JUMP_FORWARD, Some 7)); (16, (LOAD_NAME, Some 2));
   (19, (131, Some 0)); (22, (POP_TOP, None)); (23, (LOAD_CONST, Some 0));
   (26, (RETURN_VALUE, None))].

Definition if_else_Code : Code :=
  {| code_id := 1;
     consts := [PyConst 2 VNone];
     names := [PyName 3 "x"; PyName 4 "f"; PyName 5 "g"];
     varnames := [];
     instr_seq := if_else_instrs;
     instr_map := build_instr_map if_else_instrs;
     name := "<module>";
     else_jumps := {[1]} |}.


(** What [find_else] asks of a conditional jump before it records it: the
    instruction before its target is one of [else_jump_opcodes], or its
    target is a [FOR_ITER]. *)
Definition else_jump_at (self : Code) (a : Address) : Prop :=
  opcode a ∈ pop_jump_if_opcodes
  ∧ ∃ t jump_addr prev,
      arg a = Some t
      ∧ address self t = Ok (Some jump_addr)
      ∧ Address_getitem jump_addr (-1) = Ok (Some prev)
      ∧ (opcode prev ∈ else_jump_opcodes ∨ opcode jump_addr = FOR_ITER).


(** ** Statements and suites

    The statements made by the handlers below: a line of text, and an
    assignment with its chain of targets ending in the value. *)
Inductive stmt :=
| SimpleStatement (val : string)
| AssignStatement (chain : list obj).

Record Suite := mkSuite { statements : list stmt }.

Definition Suite_init : Suite := {| statements := [] |}.

Definition add_statement (self : Suite) (s : stmt) : Suite :=
  {| statements := statements self ++ [s] |}.

(** ** class SuiteDecompiler *)

(** A pending short-circuit jump: [(truthiness, addr, cond)]. *)
Abbreviation popjump := (bool * option Address * obj)%type.

Record SuiteDecompiler := mkSuiteDecompiler {
  start_addr : option Address;
  end_addr : option Address;
  self_code : Code;
  stack : Stack obj;
  suite : Suite;
  assignment_chain : list obj;
  popjump_stack : list popjump;
}.

(** [SuiteDecompiler.__init__] *)
Definition SuiteDecompiler_init (start_addr end_addr : option Address)
    (stack : option (Stack obj)) : result SuiteDecompiler :=
  let! sa := need AttributeError start_addr in
  Ok {| start_addr := start_addr; end_addr := end_addr;
        self_code := code sa;
        stack := default Stack_init stack;
        suite := Suite_init;
        assignment_chain := [];
        popjump_stack := [] |}.

(** What a handler runs in: the heap and the decompiler [self]. *)
Record State := mkState {
  heap : Heap;
  dec : SuiteDecompiler;
}.

Definition set_stack (s : Stack obj) (d : SuiteDecompiler) : SuiteDecompiler :=
  {| start_addr := start_addr d; end_addr := end_addr d;
     self_code := self_code d; stack := s; suite := suite d;
     assignment_chain := assignment_chain d;
     popjump_stack := popjump_stack d |}.

Definition set_suite (x : Suite) (d : SuiteDecompiler) : SuiteDecompiler :=
  {| start_addr := start_addr d; end_addr := end_addr d;
     self_code := self_code d; stack := stack d; suite := x;
     assignment_chain := assignment_chain d;
     popjump_stack := popjump_stack d |}.

Definition set_assignment_chain (x : list obj) (d : SuiteDecompiler) : SuiteDecompiler :=
  {| start_addr := start_addr d; end_addr := end_addr d;
     self_code := self_code d; stack := stack d; suite := suite d;
     assignment_chain := x;
     popjump_stack := popjump_stack d |}.

Definition set_popjump_stack (x : list popjump) (d : SuiteDecompiler) : SuiteDecompiler :=
  {| start_addr := start_addr d; end_addr := end_addr d;
     self_code := self_code d; stack := stack d; suite := suite d;
     assignment_chain := assignment_chain d;
     popjump_stack := x |}.

(** A method of [self.stack], of the heap, and a change of [self]. *)
Definition on_stack {A} (m : M (Stack obj) A) : M State A :=
  λ st, let '(r, s') := m (stack (dec st)) in
        (r, {| heap := heap st; dec := set_stack s' (dec st) |}).

Definition on_heap {A} (m : M Heap A) : M State A :=
  λ st, let '(r, h') := m (heap st) in (r, {| heap := h'; dec := dec st |}).

Definition on_dec (f : SuiteDecompiler → SuiteDecompiler) : M State unit :=
  λ st, (Ok tt, {| heap := heap st; dec := f (dec st) |}).

Definition get_dec : M State SuiteDecompiler := λ st, (Ok (dec st), st).

(** [node = Cls(...)]: a new object, built from its identity. *)
Definition new (mk : positive → obj) : M State obj :=
  i ← on_heap alloc; mret (mk i).

(** [self.write(template, args...)]. An argument that is an [int] would
    be looked up with [self.stack.getval], which [Stack] does not have;
    the arguments below are objects. *)
Definition write (template : string) (args : list obj) : M State unit :=
  line ← lift (match args with
               | [] => Ok template
               | _ =>
                   let! strs :=
                     (fix go (xs : list obj) : result (list string) :=
                        match xs with
                        | [] => Ok []
                        | x :: xs' =>
                            let! s := str x in
                            let! ss := go xs' in
                            Ok (s :: ss)
                        end) args in
                   format template strs
               end);
  on_dec (λ d, set_suite (add_statement (suite d) (SimpleStatement line)) d).


(** [Unpack(val, length, star_index)]: a new accumulator in the heap, and
    the reference to it. *)
Definition new_Unpack (val : obj) (length : Z) (star_index : option Z) : M State obj :=
  i ← on_heap alloc;
  on_heap (modify (λ h,
    {| next_id := next_id h;
       unpacks := <[i := {| val := val; length_ := length;
                            star_index := star_index; dests := [] |}]>
                    (unpacks h) |}));;
  mret (UnpackRef i).

(** [PyExpr.store] *)
Definition PyExpr_store (self : obj) (dest : obj) : M State unit :=
  d ← get_dec;
  let chain := assignment_chain d ++ [dest] in
  on_dec (set_assignment_chain chain);;
  if contains id self (stack d) then mret tt
  else
    let chain := chain ++ [self] in
    on_dec (λ d, set_suite (add_statement (suite d) (AssignStatement chain)) d);;
    on_dec (set_assignment_chain []).

(** [Unpack.store]; [dec_store] is [dec.store]. The tuple made when the
    accumulator is full takes the destinations as they are then. *)
Definition Unpack_store (dec_store : obj → M State unit)
    (self : positive) (dest : obj) : M State unit :=
  st ← get;
  match unpacks (heap st) !! self with
  | None => raise Unmodelled
  | Some u =>
      dest ← (if decide (Some (Z.of_nat (length (dests u))) = star_index u)
              then new (λ i, PyStarred i dest)
              else mret dest);
      let u' := {| val := val u; length_ := length_ u;
                   star_index := star_index u;
                   dests := dests u ++ [dest] |} in
      on_heap (modify (λ h,
        {| next_id := next_id h; unpacks := <[self := u']> (unpacks h) |}));;
      if decide (Z.of_nat (length (dests u')) = length_ u') then
        on_stack (push id [val u']);;
        tup ← new (λ i, PyTuple i (dests u'));
        dec_store tup
      else mret tt
  end.

(** [SuiteDecompiler.store], which calls the [store] method of the value
    it pops; [fuel] bounds the depth of the calls between it and
    [Unpack.store]. *)
Fixpoint store (fuel : nat) (dest : obj) : M State unit :=
  match fuel with
  | O => raise OutOfFuel
  | S fuel' =>
      val ← on_stack (pop id);
      match val with
      | UnpackRef u => Unpack_store (store fuel') u dest
      | _ => PyExpr_store val dest
      end
  end.

(** [jaddr < addr or jaddr == addr], the test that ends the loop of
    [push_popjump]. [None] has no order with anything. *)
Definition popjump_stops (jaddr addr : option Address) : result bool :=
  match jaddr with
  | Some ja => Ok (Address_lt ja addr || Address_eq ja addr)
  | None => Raise TypeError
  end.

(** [PyBooleanOr if truthiness else PyBooleanAnd] *)
Definition obj_maker (truthiness : bool) : binary_cls :=
  if truthiness then PyBooleanOr else PyBooleanAnd.

(** The body of the loop of [push_popjump] after [stack.pop()]: the new
    [jcond]. *)
Definition popjump_combine (truthiness : bool) (cond jcond : obj) : M State obj :=
  let cls := obj_maker truthiness in
  match jcond with
  | PyBinaryOp _ c l r =>
      if decide (c = cls) then
        inner ← new (λ i, PyBinaryOp i cls cond l);
        new (λ i, PyBinaryOp i cls inner r)
      else new (λ i, PyBinaryOp i cls cond jcond)
  | _ => new (λ i, PyBinaryOp i cls cond jcond)
  end.

(** The loop of [push_popjump]: [pending] is what is left of
    [self.popjump_stack], the top first. It gives what stays, the top
    first, and the last [jcond]. *)
Fixpoint popjump_loop (jaddr : option Address) (pending : list popjump)
    (jcond : obj) : M State (list popjump * obj) :=
  match pending with
  | [] => mret ([], jcond)
  | (truthiness, addr, cond) :: pending' =>
      stop ← lift (popjump_stops jaddr addr);
      if (stop : bool) then mret (pending, jcond)
      else
        jcond ← popjump_combine truthiness cond jcond;
        popjump_loop jaddr pending' jcond
  end.

(** The first statement of [push_popjump]: [jaddr] is moved to the
    [else] address when it is the [then] address of an else-jump. *)
Definition popjump_target (jaddr : option Address) : result (option Address) :=
  match jaddr with
  | Some ja =>
      let! prev := Address_getitem ja (-1) in
      let! prev := need AttributeError prev in
      if is_else_jump prev then jump prev else Ok jaddr
  | None => Ok None
  end.

(** [SuiteDecompiler.push_popjump] *)
Definition push_popjump (jtruthiness : bool) (jaddr : option Address)
    (jcond : obj) : M State unit :=
  jaddr ← lift (popjump_target jaddr);
  d ← get_dec;
  '(kept, jcond) ← popjump_loop jaddr (reverse (popjump_stack d)) jcond;
  on_dec (set_popjump_stack (reverse kept ++ [(jtruthiness, jaddr, jcond)])).

(** [SuiteDecompiler.pop_popjump] *)
Definition pop_popjump : M State obj :=
  d ← get_dec;
  match unsnoc (popjump_stack d) with
  | Some (rest, (truthiness, addr, cond)) =>
      on_dec (set_popjump_stack rest);;
      mret cond
  | None => raise IndexError
  end.


(** What a handler returns: [END_NOW], or an address to go on from, where
    [None] (no [return]) is the next instruction. *)
Inductive hret :=
| END_NOW
| Next (a : option Address).

(** A handler is called with the address and, when the instruction has
    one, with its argument. *)
Inductive handler :=
| H0 (f : Address → M State hret)
| H1 (f : Address → Z → M State hret).

(** [d.run()] for another decompiler object [d], as seen by the handler
    that made it: the address returned, and [d] afterwards. *)
Abbreviation run_t := (SuiteDecompiler → M Heap (option Address * SuiteDecompiler))%type.

(** [d = SuiteDecompiler(start, end, self.stack); d.run()]: the stack is
    the stack object of [self], so what [d] does to it is done to
    [self.stack]. When [d.run()] raises, the exception leaves the handler
    (the decompiler catches none); the state then given for [self] has
    the stack as it was before the run of [d], although [d] has changed
    the stack object up to the point where it raised. *)
Definition run_shared (run : run_t) (start end_ : option Address) : M State SuiteDecompiler :=
  self ← get_dec;
  d ← lift (SuiteDecompiler_init start end_ (Some (stack self)));
  '(_, d') ← on_heap (run d);
  on_dec (set_stack (stack d'));;
  mret d'.

(** The opcode handlers of [SuiteDecompiler], under their names. *)
Module Handlers.

Definition pass : M State hret := mret (Next None).

Definition SETUP_LOOP (addr : Address) (delta : Z) : M State hret := pass.

Definition BREAK_LOOP (addr : Address) : M State hret :=
  write "break" [];; pass.

Definition CONTINUE_LOOP (addr : Address) : M State hret :=
  write "continue" [];; pass.

Definition END_FINALLY (addr : Address) : M State hret := mret END_NOW.

Definition POP_BLOCK (addr : Address) : M State hret := pass.

Definition POP_EXCEPT (addr : Address) : M State hret := mret END_NOW.

Definition NOP (addr : Address) : M State hret := pass.

(** The exception match ([opname == 10]) belongs to the reconstruction of
    [try] statements, which is not embedded. *)
Definition COMPARE_OP (addr : Address) (opname : Z) : M State hret :=
  vals ← on_stack (pop_n id 2);
  match vals with
  | [l; r] =>
      if decide (opname ≠ 10) then
        op ← lift (need IndexError (py_index cmp_op opname));
        node ← new (λ i, PyCompare i [inl l; inr op; inl r]);
        on_stack (push id [node]);; pass
      else raise Unmodelled
  | _ => raise ValueError
  end.

(** [PyExpr.on_pop]; an [Unpack] has no [on_pop]. *)
Definition on_pop (self : obj) : M State unit :=
  match self with
  | UnpackRef _ => raise AttributeError
  | _ => s ← lift (str self); write s []
  end.

Definition POP_TOP (addr : Address) : M State hret :=
  v ← on_stack (pop id);
  on_pop v;; pass.

(** The first [ROT_TWO] of the class body. *)
Definition ROT_TWO_swap (addr : Address) : M State hret :=
  vals ← on_stack (pop_n id 2);
  match vals with
  | [tos1; tos] => on_stack (push id [tos; tos1]);; pass
  | _ => raise ValueError
  end.

Definition ROT_THREE (addr : Address) : M State hret :=
  vals ← on_stack (pop_n id 3);
  match vals with
  | [tos2; tos1; tos] => on_stack (push id [tos; tos2; tos1]);; pass
  | _ => raise ValueError
  end.

Definition DUP_TOP (addr : Address) : M State hret :=
  v ← on_stack peek;
  on_stack (push id [v]);; pass.

Definition DUP_TOP_TWO (addr : Address) : M State hret :=
  vs ← on_stack (peek_n 2);
  on_stack (push id vs);; pass.

(** [self.code.varnames[i]], [self.code.names[i]], [self.code.consts[i]] *)
Definition code_item (table : Code → list obj) (i : Z) : M State obj :=
  d ← get_dec;
  lift (need IndexError (py_index (table (self_code d)) i)).

Definition LOAD_FAST (addr : Address) (var_num : Z) : M State hret :=
  name ← code_item varnames var_num;
  on_stack (push id [name]);; pass.

Definition STORE_FAST (fuel : nat) (addr : Address) (var_num : Z) : M State hret :=
  name ← code_item varnames var_num;
  store fuel name;; pass.

Definition DELETE_FAST (addr : Address) (var_num : Z) : M State hret :=
  name ← code_item varnames var_num;
  write "del {}" [name];; pass.

Definition LOAD_NAME (addr : Address) (namei : Z) : M State hret :=
  name ← code_item names namei;
  on_stack (push id [name]);; pass.

Definition STORE_NAME (fuel : nat) (addr : Address) (namei : Z) : M State hret :=
  name ← code_item names namei;
  store fuel name;; pass.

Definition DELETE_NAME (addr : Address) (namei : Z) : M State hret :=
  name ← code_item names namei;
  write "del {}" [name];; pass.

Definition LOAD_ATTR (addr : Address) (namei : Z) : M State hret :=
  expr ← on_stack (pop id);
  attrname ← code_item names namei;
  node ← new (λ i, PyAttribute i expr attrname);
  on_stack (push id [node]);; pass.

Definition STORE_ATTR (fuel : nat) (addr : Address) (namei : Z) : M State hret :=
  expr ← on_stack (pop id);
  attrname ← code_item names namei;
  node ← new (λ i, PyAttribute i expr attrname);
  store fuel node;; pass.

Definition STORE_SUBSCR (fuel : nat) (addr : Address) : M State hret :=
  vals ← on_stack (pop_n id 2);
  match vals with
  | [expr; sub] =>
      node ← new (λ i, PyBinaryOp i PySubscript expr sub);
      store fuel node;; pass
  | _ => raise ValueError
  end.

Definition LOAD_CONST (addr : Address) (consti : Z) : M State hret :=
  const ← code_item consts consti;
  on_stack (push id [const]);; pass.

Definition RETURN_VALUE (addr : Address) : M State hret :=
  value ← on_stack (pop id);
  match value with
  | PyConst _ VNone =>
      next ← lift (Address_getitem addr 1);
      match next with
      | Some _ => write "return" [];; pass
      | None => pass
      end
  | _ => write "return {}" [value];; pass
  end.

Definition UNPACK_SEQUENCE (addr : Address) (count : Z) : M State hret :=
  v ← on_stack (pop id);
  unpack ← new_Unpack v count None;
  for_each (seq 0 (range_len count)) (λ i, on_stack (push id [unpack]));;
  pass.

Definition UNPACK_EX (addr : Address) (counts : Z) : M State hret :=
  let rcount := Z.shiftr counts 8 in
  let lcount := Z.land counts 255 in
  let count := lcount + rcount + 1 in
  v ← on_stack (pop id);
  unpack ← new_Unpack v count (Some lcount);
  for_each (seq 0 (range_len count)) (λ i, on_stack (push id [unpack]));;
  pass.

(** The second [ROT_TWO] of the class body, which is the one the class
    ends up with. *)
Definition ROT_TWO (addr : Address) : M State hret :=
  vals ← on_stack (pop_n id 2);
  v ← new (λ i, PyTuple i vals);
  unpack ← new_Unpack v 2 None;
  on_stack (push id [unpack]);;
  on_stack (push id [unpack]);;
  pass.

Definition BUILD_TUPLE (addr : Address) (count : Z) : M State hret :=
  values ← list_comp (range_len count) (on_stack (pop id));
  node ← new (λ i, PyTuple i (reverse values));
  on_stack (push id [node]);; pass.
(** The end of [JUMP_IF_FALSE_OR_POP]: [py_and], made of the left and
    the right operand. *)
Definition and_combine (left_ right_ : obj) : M State obj :=
  if is_PyCompare right_ then
    ext ← lift (extends right_ left_);
    if (ext : bool) then
      i ← on_heap alloc; lift (chain i left_ right_)
    else new (λ i, PyBinaryOp i PyBooleanAnd left_ right_)
  else new (λ i, PyBinaryOp i PyBooleanAnd left_ right_).

(** [JUMP_IF_FALSE_OR_POP], the [and] operator. *)
Definition JUMP_IF_FALSE_OR_POP (run : run_t) (addr : Address) (target : Z) : M State hret :=
  end_addr ← lift (jump addr);
  v ← on_stack (pop id);
  push_popjump true end_addr v;;
  left_ ← pop_popjump;
  ea ← lift (need AttributeError end_addr);
  end_addr ← (if decide (opcode ea = opmap.ROT_TWO) then
                prev ← lift (Address_getitem ea (-1));
                prev ← lift (need TypeError prev);
                if decide (opcode prev = opmap.JUMP_FORWARD ∧ arg prev = Some 2)
                then lift (Address_getitem ea 2)
                else mret end_addr
              else mret end_addr);
  start ← lift (Address_getitem addr 1);
  run_shared run start end_addr;;
  right_ ← on_stack (pop id);
  py_and ← and_combine left_ right_;
  on_stack (push id [py_and]);;
  mret (Next end_addr).

Definition JUMP_FORWARD (addr : Address) (delta : Z) : M State hret :=
  a ← lift (jump addr); mret (Next a).

(** [JUMP_IF_TRUE_OR_POP], the [or] operator. *)
Definition JUMP_IF_TRUE_OR_POP (run : run_t) (addr : Address) (target : Z) : M State hret :=
  end_addr ← lift (jump addr);
  v ← on_stack (pop id);
  push_popjump true end_addr v;;
  left_ ← pop_popjump;
  start ← lift (Address_getitem addr 1);
  run_shared run start end_addr;;
  right_ ← on_stack (pop id);
  node ← new (λ i, PyBinaryOp i PyBooleanOr left_ right_);
  on_stack (push id [node]);;
  mret (Next end_addr).

Definition JUMP_ABSOLUTE (addr : Address) (target : Z) : M State hret := pass.

Definition GET_ITER (addr : Address) : M State hret := pass.

(** How many items iterating over an object gives: [PyConst.__iter__] is
    [iter(self.val)], [PyTuple.__iter__] is [iter(self.values)], and no
    other class of the fragment can be iterated over. *)
Definition iter_len (o : obj) : result nat :=
  match o with
  | PyConst _ (VTuple items) => Ok (length items)
  | PyTuple _ values => Ok (length values)
  | _ => Raise TypeError
  end.

(** [RAISE_VARARGS]. With [argc == 2] the handler pops ONE value and
    unpacks it into two names, and then asks the template string for its
    attribute [exc] (the source has a dot where a comma was meant), so
    that this branch always raises. [Unknown] is not defined anywhere in
    the module. *)
Definition RAISE_VARARGS (addr : Address) (argc : Z) : M State hret :=
  if decide (argc = 0) then
    write "raise" [];; pass
  else if decide (argc = 1) then
    exception ← on_stack (pop id);
    write "raise {}" [exception];; pass
  else if decide (argc = 2) then
    v ← on_stack (pop id);
    n ← lift (iter_len v);
    if decide (n = 2%nat) then raise AttributeError
    else raise ValueError
  else raise NameError.

(** [PyUnaryOp.instr] and [PyBinaryOp.instr], from which the handlers of
    the tables [unary_ops] and [binary_ops] are made. *)
Definition unary_instr (cls : unary_cls) (addr : Address) : M State hret :=
  v ← on_stack (pop id);
  node ← new (λ i, PyUnaryOp i cls v);
  on_stack (push id [node]);; pass.

Definition binary_instr (cls : binary_cls) (addr : Address) : M State hret :=
  r ← on_stack (pop id);
  l ← on_stack (pop id);
  node ← new (λ i, PyBinaryOp i cls l r);
  on_stack (push id [node]);; pass.

(** A handler of the class that is not embedded. *)
Definition unmodelled0 : handler := H0 (λ _, raise Unmodelled).
Definition unmodelled1 : handler := H1 (λ _ _, raise Unmodelled).

(** The body of the class, in the order of the source: every [def] binds
    its name, and a later [def] of a name replaces the earlier one. The
    handlers made by the two loops after the class come last. *)
Definition class_body (fuel : nat) (run : run_t) : list (string * handler) :=
  [("SETUP_LOOP", H1 SETUP_LOOP);
   ("BREAK_LOOP", H0 BREAK_LOOP);
   ("CONTINUE_LOOP", H0 CONTINUE_LOOP);
   ("SETUP_FINALLY", unmodelled1);
   ("END_FINALLY", H0 END_FINALLY);
   ("SETUP_EXCEPT", unmodelled1);
   ("SETUP_WITH", unmodelled1);
   ("POP_BLOCK", H0 POP_BLOCK);
   ("POP_EXCEPT", H0 POP_EXCEPT);
   ("NOP", H0 NOP);
   ("COMPARE_OP", H1 COMPARE_OP);
   ("POP_TOP", H0 POP_TOP);
   ("ROT_TWO", H0 ROT_TWO_swap);
   ("ROT_THREE", H0 ROT_THREE);
   ("DUP_TOP", H0 DUP_TOP);
   ("DUP_TOP_TWO", H0 DUP_TOP_TWO);
   ("LOAD_FAST", H1 LOAD_FAST);
   ("STORE_FAST", H1 (STORE_FAST fuel));
   ("DELETE_FAST", H1 DELETE_FAST);
   ("LOAD_DEREF", unmodelled1);
   ("STORE_DEREF", unmodelled1);
   ("DELETE_DEREF", unmodelled1);
   ("LOAD_GLOBAL", unmodelled1);
   ("STORE_GLOBAL", unmodelled1);
   ("DELETE_GLOBAL", unmodelled1);
   ("LOAD_NAME", H1 LOAD_NAME);
   ("STORE_NAME", H1 (STORE_NAME fuel));
   ("DELETE_NAME", H1 DELETE_NAME);
   ("LOAD_ATTR", H1 LOAD_ATTR);
   ("STORE_ATTR", H1 (STORE_ATTR fuel));
   ("DELETE_ATTR", unmodelled1);
   ("STORE_SUBSCR", H0 (STORE_SUBSCR fuel));
   ("DELETE_SUBSCR", unmodelled0);
   ("LOAD_CONST", H1 LOAD_CONST);
   ("IMPORT_NAME", unmodelled1);
   ("IMPORT_FROM", unmodelled1);
   ("IMPORT_STAR", unmodelled0);
   ("STORE_LOCALS", unmodelled0);
   ("LOAD_BUILD_CLASS", unmodelled0);
   ("RETURN_VALUE", H0 RETURN_VALUE);
   ("YIELD_VALUE", unmodelled0);
   ("CALL_FUNCTION", unmodelled1);
   ("CALL_FUNCTION_VAR", unmodelled1);
   ("CALL_FUNCTION_KW", unmodelled1);
   ("CALL_FUNCTION_VAR_KW", unmodelled1);
   ("UNPACK_SEQUENCE", H1 UNPACK_SEQUENCE);
   ("UNPACK_EX", H1 UNPACK_EX);
   ("ROT_TWO", H0 ROT_TWO);
   ("BUILD_SLICE", unmodelled1);
   ("BUILD_TUPLE", H1 BUILD_TUPLE);
   ("BUILD_LIST", unmodelled1);
   ("BUILD_SET", unmodelled1);
   ("BUILD_MAP", unmodelled1);
   ("STORE_MAP", unmodelled0);
   ("LIST_APPEND", unmodelled1);
   ("SET_ADD", unmodelled1);
   ("MAP_ADD", unmodelled1);
   ("JUMP_IF_FALSE_OR_POP", H1 (JUMP_IF_FALSE_OR_POP run));
   ("JUMP_FORWARD", H1 JUMP_FORWARD);
   ("JUMP_IF_TRUE_OR_POP", H1 (JUMP_IF_TRUE_OR_POP run));
   ("POP_JUMP_IF_FALSE", unmodelled1);
   ("POP_JUMP_IF_TRUE", unmodelled1);
   ("JUMP_ABSOLUTE", H1 JUMP_ABSOLUTE);
   ("GET_ITER", H0 GET_ITER);
   ("FOR_ITER", unmodelled1);
   ("MAKE_FUNCTION", unmodelled1);
   ("LOAD_CLOSURE", unmodelled1);
   ("MAKE_CLOSURE", unmodelled1);
   ("RAISE_VARARGS", H1 RAISE_VARARGS);
   ("UNARY_POSITIVE", H0 (unary_instr PyPositive));
   ("UNARY_NEGATIVE", H0 (unary_instr PyNegative));
   ("UNARY_NOT", H0 (unary_instr PyNot));
   ("UNARY_INVERT", H0 (unary_instr PyInvert));
   ("BINARY_POWER", H0 (binary_instr PyPower));
   ("BINARY_MULTIPLY", H0 (binary_instr PyMultiply));
   ("BINARY_FLOOR_DIVIDE", H0 (binary_instr PyFloorDivide));
   ("BINARY_TRUE_DIVIDE", H0 (binary_instr PyTrueDivide));
   ("BINARY_MODULO", H0 (binary_instr PyModulo));
   ("BINARY_ADD", H0 (binary_instr PyAdd));
   ("BINARY_SUBTRACT", H0 (binary_instr PySubtract));
   ("BINARY_SUBSCR", H0 (binary_instr PySubscript));
   ("BINARY_LSHIFT", H0 (binary_instr PyLeftShift));
   ("BINARY_RSHIFT", H0 (binary_instr PyRightShift));
   ("BINARY_AND", H0 (binary_instr PyAnd));
   ("BINARY_XOR", H0 (binary_instr PyXor));
   ("BINARY_OR", H0 (binary_instr PyOr));
   ("INPLACE_POWER", unmodelled0);
   ("INPLACE_MULTIPLY", unmodelled0);
   ("INPLACE_FLOOR_DIVIDE", unmodelled0);
   ("INPLACE_TRUE_DIVIDE", unmodelled0);
   ("INPLACE_MODULO", unmodelled0);
   ("INPLACE_ADD", unmodelled0);
   ("INPLACE_SUBTRACT", unmodelled0);
   ("INPLACE_LSHIFT", unmodelled0);
   ("INPLACE_RSHIFT", unmodelled0);
   ("INPLACE_AND", unmodelled0);
   ("INPLACE_XOR", unmodelled0);
   ("INPLACE_OR", unmodelled0)]%string.
End Handlers.


(** The namespace of the class: the bindings of its body, a later one
    replacing an earlier one of the same name. *)
Definition class_namespace (fuel : nat) (run : run_t) : gmap string handler :=
  foldl (λ ns b, <[fst b := snd b]> ns) ∅ (Handlers.class_body fuel run).

(** [getattr(self, name)] *)
Definition getattr (fuel : nat) (run : run_t) (name : string) : result handler :=
  need AttributeError (class_namespace fuel run !! name).

(** [method(addr)] if [arg is None], else [method(addr, arg)] *)
Definition call_method (method : handler) (addr : Address) : M State hret :=
  match method, arg addr with
  | H0 f, None => f addr
  | H1 f, Some a => f addr a
  | _, _ => raise TypeError
  end.

(** The loop of [SuiteDecompiler.run], from [addr]. [fuel] bounds the
    turns of the loop, the depth of the decompilers run inside the
    handlers, and the depth of [store]. *)
Fixpoint run_from (fuel : nat) (addr : option Address) : M State (option Address) :=
  match fuel with
  | O => raise OutOfFuel
  | S fuel' =>
      let run : run_t := λ d h,
        let '(r, st) := run_from fuel' (start_addr d) {| heap := h; dec := d |} in
        (match r with Ok a => Ok (a, dec st) | Raise e => Raise e end, heap st) in
      self ← get_dec;
      match addr with
      | Some a =>
          if Address_lt a (end_addr self) then
            method ← lift (getattr fuel' run (opname (opcode a)));
            new_addr ← call_method method a;
            match new_addr with
            | END_NOW => mret addr
            | Next None =>
                next ← lift (Address_getitem a 1);
                run_from fuel' next
            | Next (Some next) => run_from fuel' (Some next)
            end
          else mret addr
      | None => mret addr
      end
  end.

(** [SuiteDecompiler.run] *)
Definition run (fuel : nat) : run_t := λ d h,
  let '(r, st) := run_from fuel (start_addr d) {| heap := h; dec := d |} in
  (match r with Ok a => Ok (a, dec st) | Raise e => Raise e end, heap st).

(** [Code.get_suite()] with its default arguments, for a code that
    declares no global and no nonlocal name: the suite of the decompiler
    run from the first instruction. *)
Definition get_suite (fuel : nat) (self : Code) : M Heap Suite :=
  start ← lift (Code_getitem self 0);
  d ← lift (SuiteDecompiler_init start None None);
  '(_, d') ← run fuel d;
  mret (suite d').

(** ** More example code objects

    [a, b = b, a]:
<<
     0 LOAD_NAME 0 (b)     6 ROT_TWO           10 STORE_NAME 0 (b)
     3 LOAD_NAME 1 (a)     7 STORE_NAME 1 (a)  13 LOAD_CONST 0 (None)
                                               16 RETURN_VALUE
>> *)
Definition swap_code : code_obj :=
  {| co_code := [101; 0; 0;  101; 1; 0;  2;  90; 1; 0;  90; 0; 0;
                 100; 0; 0;  83];
     co_consts := [VNone];
     co_names := ["b"; "a"]%string;
     co_varnames := [];
     co_name := "<module>" |}.

(** [t = a < b < c]:
<<
     0 LOAD_NAME 0 (a)      8 COMPARE_OP 0 (<)          20 JUMP_FORWARD 2 (to 25)
     3 LOAD_NAME 1 (b)     11 JUMP_IF_FALSE_OR_POP 23   23 ROT_TWO
     6 DUP_TOP             14 LOAD_NAME 2 (c)           24 POP_TOP
     7 ROT_THREE           17 COMPARE_OP 0 (<)          25 STORE_NAME 3 (t)
                                                        28 LOAD_CONST 0 (None)
                                                        31 RETURN_VALUE
>> *)
Definition chain_code : code_obj :=
  {| co_code := [101; 0; 0;  101; 1; 0;  4;  3;  107; 0; 0;  111; 23; 0;
                 101; 2; 0;  107; 0; 0;  110; 2; 0;  2;  1;
                 90; 3; 0;  100; 0; 0;  83];
     co_consts := [VNone];
     co_names := ["a"; "b"; "c"; "t"]%string;
     co_varnames := [];
     co_name := "<module>" |}.

(** [t = a < b and b < c]:
<<
     0 LOAD_NAME 0 (a)      9 JUMP_IF_FALSE_OR_POP 21   21 STORE_NAME 3 (t)
     3 LOAD_NAME 1 (b)     12 LOAD_NAME 1 (b)           24 LOAD_CONST 0 (None)
     6 COMPARE_OP 0 (<)    15 LOAD_NAME 2 (c)           27 RETURN_VALUE
                           18 COMPARE_OP 0 (<)
>> *)
Definition and_code : code_obj :=
  {| co_code := [101; 0; 0;  101; 1; 0;  107; 0; 0;  111; 21; 0;
                 101; 1; 0;  101; 2; 0;  107; 0; 0;
                 90; 3; 0;  100; 0; 0;  83];
     co_consts := [VNone];
     co_names := ["a"; "b"; "c"; "t"]%string;
     co_varnames := [];
     co_name := "<module>" |}.

(** [decompile(code_obj)] on a fresh heap, and the lines of the suite. *)
Definition decompile (fuel : nat) (co : code_obj) : result Suite :=
  fst ((c ← Code_init co; get_suite fuel c) Heap_init).

(** What [AssignStatement.display] and [SimpleStatement.display] write. *)
Definition stmt_line (s : stmt) : result string :=
  match s with
  | SimpleStatement val => Ok val
  | AssignStatement chain =>
      let! strs :=
        (fix go (xs : list obj) : result (list string) :=
           match xs with
           | [] => Ok []
           | x :: xs' =>
               let! s := str x in
               let! ss := go xs' in
               Ok (s :: ss)
           end) chain in
      Ok (String.concat " = " strs)
  end.

Definition suite_lines (s : Suite) : result (list string) :=
  (fix go (xs : list stmt) : result (list string) :=
     match xs with
     | [] => Ok []
     | x :: xs' =>
         let! l := stmt_line x in
         let! ls := go xs' in
         Ok (l :: ls)
     end) (statements s).


(** The Code of [swap_code] on a fresh heap, and the decompiler of its
    suite when it reaches [ROT_TWO]: [b] and [a] are on the stack. *)
Definition swap_instrs : list instr :=
  [(0, (LOAD_NAME, Some 0)); (3, (LOAD_NAME, Some 1)); (6, (ROT_TWO, None));
   (7, (STORE_NAME, Some 1)); (10, (STORE_NAME, Some 0));
   (13, (LOAD_CONST, Some 0)); (16, (RETURN_VALUE, None))].

Definition swap_Code : Code :=
  {| code_id := 1;
     consts := [PyConst 2 VNone];
     names := [PyName 3 "b"; PyName 4 "a"];
     varnames := [];
     instr_seq := swap_instrs;
     instr_map := build_instr_map swap_instrs;
     name := "<module>";
     else_jumps := ∅ |}.

Definition swap_Address (i : Z) (p : Z) (op : Z) (a : option Z) : Address :=
  {| code := swap_Code; index := i; addr := p; opcode := op; arg := a |}.

Definition state_at_ROT_TWO : State :=
  {| heap := {| next_id := 5; unpacks := ∅ |};
     dec := {| start_addr := Some (swap_Address 0 0 LOAD_NAME (Some 0));
               end_addr := None;
               self_code := swap_Code;
               stack := exec_ops id [OpPush [PyName 3 "b"]; OpPush [PyName 4 "a"]];
               suite := Suite_init;
               assignment_chain := [];
               popjump_stack := [] |} |}.


(** The Code of [and_code] on a fresh heap, and the decompiler of its
    suite when it reaches [JUMP_IF_FALSE_OR_POP]: the comparison [a < b]
    is on the stack. *)
Definition and_instrs : list instr :=
  [(0, (LOAD_NAME, Some 0)); (3, (LOAD_NAME, Some 1));
   (6, (COMPARE_OP, Some 0)); (9, (JUMP_IF_FALSE_OR_POP, Some 21));
   (12, (LOAD_NAME, Some 1)); (15, (LOAD_NAME, Some 2));
   (18, (COMPARE_OP, Some 0)); (21, (STORE_NAME, Some 3));
   (24, (LOAD_CONST, Some 0)); (27, (RETURN_VALUE, None))].

Definition and_Code : Code :=
  {| code_id := 1;
     consts := [PyConst 2 VNone];
     names := [PyName 3 "a"; PyName 4 "b"; PyName 5 "c"; PyName 6 "t"];
     varnames := [];
     instr_seq := and_instrs;
     instr_map := build_instr_map and_instrs;
     name := "<module>";
     else_jumps := ∅ |}.

Definition and_Address (i : Z) (p : Z) (op : Z) (a : option Z) : Address :=
  {| code := and_Code; index := i; addr := p; opcode := op; arg := a |}.

(** Its decompiler with the stack and the heap given. *)
Definition and_state (h : Heap) (s : Stack obj) : State :=
  {| heap := h;
     dec := {| start_addr := Some (and_Address 0 0 LOAD_NAME (Some 0));
               end_addr := None;
               self_code := and_Code;
               stack := s;
               suite := Suite_init;
               assignment_chain := [];
               popjump_stack := [] |} |}.

Definition state_at_JUMP_IF_FALSE_OR_POP : State :=
  and_state {| next_id := 8; unpacks := ∅ |}
    (exec_ops id
       [OpPush [PyCompare 7 [inl (PyName 3 "a"); inr "<"%string;
                             inl (PyName 4 "b")]]]).





(** [jcond] once the pending entries [popped], the top first, have been
    combined into it. *)
Fixpoint combine_all (popped : list popjump) (jcond : obj) : M State obj :=
  match popped with
  | [] => mret jcond
  | (truthiness, _, cond) :: popped' =>
      jcond ← popjump_combine truthiness cond jcond;
      combine_all popped' jcond
  end.

(** An Address of [if_else_Code]. *)
Definition if_else_Address (i : Z) (p : Z) (op : Z) (a : option Z) : Address :=
  {| code := if_else_Code; index := i; addr := p; opcode := op; arg := a |}.


(** A decompiler of [if_else_Code] with the given pending jumps. *)
Definition state_with_pending (pending : list popjump) : State :=
  {| heap := {| next_id := 6; unpacks := ∅ |};
     dec := {| start_addr := Some (if_else_Address 0 0 LOAD_NAME (Some 0));
               end_addr := None;
               self_code := if_else_Code;
               stack := Stack_init;
               suite := Suite_init;
               assignment_chain := [];
               popjump_stack := pending |} |}.


(** [a, b = t] and the chained [a, b = c = t]:
<<
     0 LOAD_NAME 0 (t)         0 LOAD_NAME 0 (t)        13 STORE_NAME 3 (c)
     3 UNPACK_SEQUENCE 2       3 DUP_TOP                16 LOAD_CONST 0 (None)
     6 STORE_NAME 1 (a)        4 UNPACK_SEQUENCE 2      19 RETURN_VALUE
     9 STORE_NAME 2 (b)        7 STORE_NAME 1 (a)
    12 LOAD_CONST 0 (None)    10 STORE_NAME 2 (b)
    15 RETURN_VALUE
>> *)
Definition unpack_code : code_obj :=
  {| co_code := [101; 0; 0;  92; 2; 0;  90; 1; 0;  90; 2; 0;
                 100; 0; 0;  83];
     co_consts := [VNone];
     co_names := ["t"; "a"; "b"]%string;
     co_varnames := [];
     co_name := "<module>" |}.

Definition chained_unpack_code : code_obj :=
  {| co_code := [101; 0; 0;  4;  92; 2; 0;  90; 1; 0;  90; 2; 0;  90; 3; 0;
                 100; 0; 0;  83];
     co_consts := [VNone];
     co_names := ["t"; "a"; "b"; "c"]%string;
     co_varnames := [];
     co_name := "<module>" |}.

Definition unpack_instrs : list instr :=
  [(0, (LOAD_NAME, Some 0)); (3, (UNPACK_SEQUENCE, Some 2));
   (6, (STORE_NAME, Some 1)); (9, (STORE_NAME, Some 2));
   (12, (LOAD_CONST, Some 0)); (15, (RETURN_VALUE, None))].

Definition chained_unpack_instrs : list instr :=
  [(0, (LOAD_NAME, Some 0)); (3, (DUP_TOP, None));
   (4, (UNPACK_SEQUENCE, Some 2));
   (7, (STORE_NAME, Some 1)); (10, (STORE_NAME, Some 2));
   (13, (STORE_NAME, Some 3));
   (16, (LOAD_CONST, Some 0)); (19, (RETURN_VALUE, None))].

(** The Codes of the two on a fresh heap. *)
Definition unpack_Code : Code :=
  {| code_id := 1;
     consts := [PyConst 2 VNone];
     names := [PyName 3 "t"; PyName 4 "a"; PyName 5 "b"];
     varnames := [];
     instr_seq := unpack_instrs;
     instr_map := build_instr_map unpack_instrs;
     name := "<module>";
     else_jumps := ∅ |}.

Definition chained_unpack_Code : Code :=
  {| code_id := 1;
     consts := [PyConst 2 VNone];
     names := [PyName 3 "t"; PyName 4 "a"; PyName 5 "b"; PyName 6 "c"];
     varnames := [];
     instr_seq := chained_unpack_instrs;
     instr_map := build_instr_map chained_unpack_instrs;
     name := "<module>";
     else_jumps := ∅ |}.

(** The decompiler of each suite when it reaches [UNPACK_SEQUENCE]: [t]
    is on the stack, twice in the chained assignment, after [DUP_TOP]. *)
Definition state_at_UNPACK_SEQUENCE : State :=
  {| heap := {| next_id := 6; unpacks := ∅ |};
     dec := {| start_addr :=
                 Some {| code := unpack_Code; index := 0; addr := 0;
                         opcode := LOAD_NAME; arg := Some 0 |};
               end_addr := None;
               self_code := unpack_Code;
               stack := exec_ops id [OpPush [PyName 3 "t"]];
               suite := Suite_init;
               assignment_chain := [];
               popjump_stack := [] |} |}.

Definition chained_state_at_UNPACK_SEQUENCE : State :=
  {| heap := {| next_id := 7; unpacks := ∅ |};
     dec := {| start_addr :=
                 Some {| code := chained_unpack_Code; index := 0; addr := 0;
                         opcode := LOAD_NAME; arg := Some 0 |};
               end_addr := None;
               self_code := chained_unpack_Code;
               stack := exec_ops id [OpPush [PyName 3 "t"];
                                     OpPush [PyName 3 "t"]];
               suite := Suite_init;
               assignment_chain := [];
               popjump_stack := [] |} |}.

(** ** Predicates that the properties are stated with *)

(** A property [P] of the state kept by a method, whether it returns or
    raises, and a property [Q] of whatever it raises. *)
Definition respects {S A} (P : S → Prop) (Q : exn → Prop) (m : M S A) : Prop :=
  ∀ s, P s → P (snd (m s)) ∧ ∀ e, fst (m s) = Raise e → Q e.

(** On a stack whose counts are right, only popping from the empty list
    raises: [set_count] never deletes a missing key. *)
Definition only_IndexError (e : exn) : Prop := e = IndexError.

(** What the loop of [find_else] keeps: every Address stored in [jumps],
    and [last_jump], is a conditional jump of this code that passed the
    test of [find_else]. *)
Definition find_else_inv (self : Code)
    (st : gmap Z Address * option Address) : Prop :=
  (∀ k v, fst st !! k = Some v →
          Address_init self (index v) = Ok v ∧ else_jump_at self v)
  ∧ (∀ v, snd st = Some v →
          Address_init self (index v) = Ok v ∧ else_jump_at self v).


(** The part of the state that the stores of an unpacking read and
    change: the stack with [k] copies of the accumulator [u] on top of
    [base], the accumulator, the suite and the assignment chain. *)
Definition unpacking (st : State) (base : list obj) (k : nat) (u : positive)
    (U : Unpack) (su : Suite) (ch : list obj) : Prop :=
  counts_ok id (stack (dec st))
  ∧ _stack (stack (dec st)) = base ++ replicate k (UnpackRef u)
  ∧ unpacks (heap st) !! u = Some U
  ∧ suite (dec st) = su
  ∧ assignment_chain (dec st) = ch.

(** [self.dests.append(dest)], on the accumulator held in the heap. *)
Definition add_dest (U : Unpack) (dest : obj) : Unpack :=
  {| val := val U; length_ := length_ U; star_index := star_index U;
     dests := dests U ++ [dest] |}.


(** [(a, b), c = t]:
<<
     0 LOAD_NAME 0 (t)        9 STORE_NAME 1 (a)     18 LOAD_CONST 0 (None)
     3 UNPACK_SEQUENCE 2     12 STORE_NAME 2 (b)     21 RETURN_VALUE
     6 UNPACK_SEQUENCE 2     15 STORE_NAME 3 (c)
>> *)
Definition nested_unpack_code : code_obj :=
  {| co_code := [101; 0; 0;  92; 2; 0;  92; 2; 0;  90; 1; 0;  90; 2; 0;
                 90; 3; 0;  100; 0; 0;  83];
     co_consts := [VNone];
     co_names := ["t"; "a"; "b"; "c"]%string;
     co_varnames := [];
     co_name := "<module>" |}.

Definition nested_unpack_instrs : list instr :=
  [(0, (LOAD_NAME, Some 0)); (3, (UNPACK_SEQUENCE, Some 2));
   (6, (UNPACK_SEQUENCE, Some 2));
   (9, (STORE_NAME, Some 1)); (12, (STORE_NAME, Some 2));
   (15, (STORE_NAME, Some 3));
   (18, (LOAD_CONST, Some 0)); (21, (RETURN_VALUE, None))].

Definition nested_unpack_Code : Code :=
  {| code_id := 1;
     consts := [PyConst 2 VNone];
     names := [PyName 3 "t"; PyName 4 "a"; PyName 5 "b"; PyName 6 "c"];
     varnames := [];
     instr_seq := nested_unpack_instrs;
     instr_map := build_instr_map nested_unpack_instrs;
     name := "<module>";
     else_jumps := ∅ |}.

Definition nested_unpack_Address (i : Z) (p : Z) (op : Z) (a : option Z) : Address :=
  {| code := nested_unpack_Code; index := i; addr := p; opcode := op;
     arg := a |}.

(** Its decompiler with the stack and the heap given. *)
Definition nested_unpack_state (h : Heap) (s : Stack obj) : State :=
  {| heap := h;
     dec := {| start_addr := Some (nested_unpack_Address 0 0 LOAD_NAME (Some 0));
               end_addr := None;
               self_code := nested_unpack_Code;
               stack := s;
               suite := Suite_init;
               assignment_chain := [];
               popjump_stack := [] |} |}.

(** The decompiler when it reaches [STORE_NAME 2 (b)]: the outer
    accumulator 7 and the inner one 8, which holds [a], are on the
    stack. *)
Definition nested_unpack_state_at_b : State :=
  nested_unpack_state
    {| next_id := 9;
       unpacks :=
         <[8%positive := {| val := UnpackRef 7; length_ := 2;
                            star_index := None; dests := [PyName 4 "a"] |}]>
         (<[7%positive := {| val := PyName 3 "t"; length_ := 2;
                             star_index := None; dests := [] |}]> ∅) |}
    (exec_ops id [OpPush [UnpackRef 7; UnpackRef 8]]).


(** [c, (a, b) = t], where the nested target list comes last:
<<
     0 LOAD_NAME 0 (t)        9 UNPACK_SEQUENCE 2    18 LOAD_CONST 0 (None)
     3 UNPACK_SEQUENCE 2     12 STORE_NAME 2 (a)     21 RETURN_VALUE
     6 STORE_NAME 1 (c)      15 STORE_NAME 3 (b)
>> *)
Definition nested_last_unpack_code : code_obj :=
  {| co_code := [101; 0; 0;  92; 2; 0;  90; 1; 0;  92; 2; 0;  90; 2; 0;
                 90; 3; 0;  100; 0; 0;  83];
     co_consts := [VNone];
     co_names := ["t"; "c"; "a"; "b"]%string;
     co_varnames := [];
     co_name := "<module>" |}.

Definition nested_last_unpack_instrs : list instr :=
  [(0, (LOAD_NAME, Some 0)); (3, (UNPACK_SEQUENCE, Some 2));
   (6, (STORE_NAME, Some 1)); (9, (UNPACK_SEQUENCE, Some 2));
   (12, (STORE_NAME, Some 2)); (15, (STORE_NAME, Some 3));
   (18, (LOAD_CONST, Some 0)); (21, (RETURN_VALUE, None))].

Definition nested_last_unpack_Code : Code :=
  {| code_id := 1;
     consts := [PyConst 2 VNone];
     names := [PyName 3 "t"; PyName 4 "c"; PyName 5 "a"; PyName 6 "b"];
     varnames := [];
     instr_seq := nested_last_unpack_instrs;
     instr_map := build_instr_map nested_last_unpack_instrs;
     name := "<module>";
     else_jumps := ∅ |}.

Definition nested_last_unpack_Address (i : Z) (p : Z) (op : Z) (a : option Z)
  : Address :=
  {| code := nested_last_unpack_Code; index := i; addr := p; opcode := op;
     arg := a |}.

(** Its decompiler with the stack and the heap given. *)
Definition nested_last_unpack_state (h : Heap) (s : Stack obj) : State :=
  {| heap := h;
     dec := {| start_addr :=
                 Some (nested_last_unpack_Address 0 0 LOAD_NAME (Some 0));
               end_addr := None;
               self_code := nested_last_unpack_Code;
               stack := s;
               suite := Suite_init;
               assignment_chain := [];
               popjump_stack := [] |} |}.

(** The decompiler when it reaches [STORE_NAME 3 (b)]: the outer
    accumulator 7 holds [c] and is no longer on the stack; the inner one
    8, which holds [a], is. *)
Definition nested_last_unpack_state_at_b : State :=
  nested_last_unpack_state
    {| next_id := 9;
       unpacks :=
         <[8%positive := {| val := UnpackRef 7; length_ := 2;
                            star_index := None; dests := [PyName 5 "a"] |}]>
         (<[7%positive := {| val := PyName 3 "t"; length_ := 2;
                             star_index := None; dests := [PyName 4 "c"] |}]>
            ∅) |}
    (exec_ops id [OpPush [UnpackRef 8]]).


(** [a, *b, c = t]:
<<
     0 LOAD_NAME 0 (t)        6 STORE_NAME 1 (a)     15 LOAD_CONST 0 (None)
     3 UNPACK_EX 257          9 STORE_NAME 2 (b)     18 RETURN_VALUE
                             12 STORE_NAME 3 (c)
>> *)
Definition star_unpack_code : code_obj :=
  {| co_code := [101; 0; 0;  94; 1; 1;  90; 1; 0;  90; 2; 0;  90; 3; 0;
                 100; 0; 0;  83];
     co_consts := [VNone];
     co_names := ["t"; "a"; "b"; "c"]%string;
     co_varnames := [];
     co_name := "<module>" |}.

Definition star_unpack_instrs : list instr :=
  [(0, (LOAD_NAME, Some 0)); (3, (UNPACK_EX, Some 257));
   (6, (STORE_NAME, Some 1)); (9, (STORE_NAME, Some 2));
   (12, (STORE_NAME, Some 3));
   (15, (LOAD_CONST, Some 0)); (18, (RETURN_VALUE, None))].

Definition star_unpack_Code : Code :=
  {| code_id := 1;
     consts := [PyConst 2 VNone];
     names := [PyName 3 "t"; PyName 4 "a"; PyName 5 "b"; PyName 6 "c"];
     varnames := [];
     instr_seq := star_unpack_instrs;
     instr_map := build_instr_map star_unpack_instrs;
     name := "<module>";
     else_jumps := ∅ |}.

Definition star_unpack_Address (i : Z) (p : Z) (op : Z) (a : option Z) : Address :=
  {| code := star_unpack_Code; index := i; addr := p; opcode := op;
     arg := a |}.

(** Its decompiler when it reaches [UNPACK_EX]: [t] is on the stack. *)
Definition state_at_UNPACK_EX : State :=
  {| heap := {| next_id := 7; unpacks := ∅ |};
     dec := {| start_addr := Some (star_unpack_Address 0 0 LOAD_NAME (Some 0));
               end_addr := None;
               self_code := star_unpack_Code;
               stack := exec_ops id [OpPush [PyName 3 "t"]];
               suite := Suite_init;
               assignment_chain := [];
               popjump_stack := [] |} |}.


(** The pending jumps are in order: the target of every entry is at or
    before the target of the entry beneath it, by the test of
    [push_popjump] ([jaddr < addr or jaddr == addr]). *)
Definition popjumps_ordered (l : list popjump) : Prop :=
  ∀ (i : nat) (below above : popjump),
    l !! i = Some below → l !! S i = Some above →
    popjump_stops (snd (fst above)) (snd (fst below)) = Ok true.


(** The shape of the [complist] of a comparison made by [COMPARE_OP] and
    [chain]: operands and operators in turn, from an operand to an
    operand. *)
Fixpoint is_complist (l : list (obj + string)) : bool :=
  match l with
  | [inl _] => true
  | inl _ :: inr _ :: l' => is_complist l'
  | _ => false
  end.


(** ** Indent, IndentString and the display of statements

    [s * n] on a string: [n] copies of [s], none when [n <= 0]. *)
Definition str_mul (s : string) (n : Z) : string :=
  String.concat "" (replicate (Z.to_nat n) s).

(** [sep.join(map(str, xs))] *)
Definition join_strs (sep : string) (xs : list obj) : result string :=
  let! strs :=
    (fix go (xs : list obj) : result (list string) :=
       match xs with
       | [] => Ok []
       | x :: xs' =>
           let! s := str x in
           let! ss := go xs' in
           Ok (s :: ss)
       end) xs in
  Ok (String.concat sep strs).

Module Display.

(** An [IndentString]: its level and its step. The list [lines] is one
    object shared by an [IndentString] and all those made from it by
    [__add__]; it is the state of the methods below. *)
Record IndentString := mkIndentString {
  level : Z;
  step : Z;
}.

(** [IndentString.__add__] *)
Definition add (self : IndentString) (indent_increase : Z) : IndentString :=
  {| level := level self + indent_increase; step := step self |}.

(** [IndentString.indent] *)
Definition indent (self : IndentString) (string_ : string)
  : M (list string) unit :=
  modify (λ lines,
    lines ++ [str_mul (str_mul " " (step self)) (level self) +:+ string_]).

(** [Indent.write]: the pattern is formatted only when there are
    arguments. *)
Definition write (self : IndentString) (pattern : string) (args : list obj)
  : M (list string) unit :=
  pattern ← lift (match args with
                  | [] => Ok pattern
                  | _ =>
                      let! strs :=
                        (fix go (xs : list obj) : result (list string) :=
                           match xs with
                           | [] => Ok []
                           | x :: xs' =>
                               let! s := str x in
                               let! ss := go xs' in
                               Ok (s :: ss)
                           end) args in
                      format pattern strs
                  end);
  indent self pattern.

(** [IndentString.sep] *)
Definition sep : M (list string) unit :=
  lines ← get;
  match last lines with
  | Some EmptyString => mret tt
  | _ => put (lines ++ [""%string])
  end.

(** [IndentString.__str__] *)
Definition IndentString_str (lines : list string) : string :=
  String.concat (String "010"%char EmptyString) lines.

(** The statements whose [display] needs nothing but the indentation
    and the text of expressions; a suite is the list of its
    statements. *)
Inductive statement :=
| SimpleStatement (val : string)
| AssignStatement (chain : list obj)
| IfStatement (cond : obj) (true_suite false_suite : list statement)
| WhileStatement (cond : obj) (body : list statement).

(** The [display] methods. [is_elif] is the argument of
    [IfStatement.display]; the other classes have no such argument. The
    inner loops are [Suite.display]. *)
Fixpoint display (self : statement) (indent_ : IndentString) (is_elif : bool)
  : M (list string) unit :=
  match self with
  | SimpleStatement val => write indent_ val []
  | AssignStatement chain =>
      line ← lift (join_strs " = " chain);
      write indent_ line []
  | IfStatement cond true_suite false_suite =>
      write indent_ (if is_elif then "elif {}:" else "if {}:") [cond];;
      match true_suite with
      | [] => write (add indent_ 1) "pass" []
      | _ =>
          (fix go (ss : list statement) : M (list string) unit :=
             match ss with
             | [] => mret tt
             | s :: ss' => display s (add indent_ 1) false;; go ss'
             end) true_suite
      end;;
      match false_suite with
      | [] => mret tt
      | [IfStatement _ _ _ as stmt] => display stmt indent_ true
      | _ =>
          write indent_ "else:" [];;
          (fix go (ss : list statement) : M (list string) unit :=
             match ss with
             | [] => mret tt
             | s :: ss' => display s (add indent_ 1) false;; go ss'
             end) false_suite
      end
  | WhileStatement cond body =>
      write indent_ "while {}:" [cond];;
      match body with
      | [] => write (add indent_ 1) "pass" []
      | _ =>
          (fix go (ss : list statement) : M (list string) unit :=
             match ss with
             | [] => mret tt
             | s :: ss' => display s (add indent_ 1) false;; go ss'
             end) body
      end
  end.

(** [Suite.display] *)
Definition Suite_display (statements : list statement)
    (indent_ : IndentString) : M (list string) unit :=
  match statements with
  | [] => write indent_ "pass" []
  | _ => for_each statements (λ stmt, display stmt indent_ false)
  end.

(** [Suite.__str__] and [PyStatement.__str__]: the display on a new
    [IndentString]. *)
Definition Suite_str (statements : list statement) : result string :=
  let '(r, lines) := Suite_display statements {| level := 0; step := 4 |} [] in
  let! _ := r in Ok (IndentString_str lines).

Definition statement_str (self : statement) : result string :=
  let '(r, lines) := display self {| level := 0; step := 4 |} false [] in
  let! _ := r in Ok (IndentString_str lines).

End Display.

(** A line that starts with the indentation of [ind]. *)
Definition indented (ind : Display.IndentString) (line : string) : Prop :=
  ∃ rest : string,
    line = (str_mul (str_mul " " (Display.step ind)) (Display.level ind)
            +:+ rest)%string.


(** The property of one statement: its display only adds lines, at
    least one, and they start with the indentation it was given. *)
Definition display_ok (s : Display.statement) : Prop :=
  ∀ ind e lines lines',
    Display.display s ind e lines = (Ok tt, lines') →
    ∃ new, lines' = lines ++ new ∧ new ≠ [] ∧ Forall (indented ind) new.


(** ** FunctionDefinition.getparams *)

(** The masks of [co_flags]. *)
Definition VARARGS : Z := 4.
Definition VARKEYWORDS : Z := 8.

(** [l[:stop]] *)
Definition py_slice_to {A} (l : list A) (stop : Z) : list A :=
  let n := Z.of_nat (length l) in
  let hi := if decide (stop < 0) then Z.max (n + stop) 0 else Z.min stop n in
  take (Z.to_nat hi) l.

(** [l[i] = x] with Python's negative indices; [None] is [IndexError]. *)
Definition py_setitem {A} (l : list A) (i : Z) (x : A) : option (list A) :=
  let n := Z.of_nat (length l) in
  if decide (0 ≤ i < n) then Some (<[Z.to_nat i := x]> l)
  else if decide (- n ≤ i < 0) then Some (<[Z.to_nat (n + i) := x]> l)
  else None.

(** The loop over [enumerate(reversed(self.defaults))], from [i]:
    [params[-i - 1] = "{}={}".format(params[-i - 1], arg)]. *)
Fixpoint getparams_defaults (i : Z) (rdefaults : list obj)
    (params : list string) : result (list string) :=
  match rdefaults with
  | [] => Ok params
  | arg :: rdefaults' =>
      let! p := need IndexError (py_index params (- i - 1)) in
      let! a := str arg in
      let! s := format "{}={}" [p; a] in
      let! params := need IndexError (py_setitem params (- i - 1) s) in
      getparams_defaults (i + 1) rdefaults' params
  end.

(** The loop over [range(kwcount)], which makes [kwparams]. With
    [kwdefaults] being [None], [name in self.kwdefaults] raises
    [TypeError]. *)
Fixpoint getparams_kwonly (co_varnames : list string)
    (kwdefaults : option (gmap string obj)) (l : Z) (ixs : list nat)
  : result (list string) :=
  match ixs with
  | [] => Ok []
  | i :: ixs' =>
      let! name := need IndexError (py_index co_varnames (l + Z.of_nat i)) in
      let! kd := need TypeError kwdefaults in
      let! p := match kd !! name with
                | Some d => let! a := str d in format "{}={}" [name; a]
                | None => Ok name
                end in
      let! kwparams := getparams_kwonly co_varnames kwdefaults l ixs' in
      Ok (p :: kwparams)
  end.

(** [FunctionDefinition.getparams], of the attributes of the code object
    that it reads and of [self.defaults] and [self.kwdefaults]. *)
Definition getparams (co_argcount co_kwonlyargcount co_flags : Z)
    (co_varnames : list string) (defaults : option (list obj))
    (kwdefaults : option (gmap string obj)) : result (list string) :=
  let l := co_argcount in
  let params := py_slice_to co_varnames l in
  let! params := match defaults with
                 | Some ((_ :: _) as ds) =>
                     getparams_defaults 0 (reverse ds) params
                 | _ => Ok params
                 end in
  let kwcount := co_kwonlyargcount in
  let! kwparams :=
    if decide (kwcount ≠ 0)
    then getparams_kwonly co_varnames kwdefaults l (seq 0 (range_len kwcount))
    else Ok [] in
  let l := if decide (kwcount ≠ 0) then l + kwcount else l in
  let! star :=
    if decide (Z.land co_flags VARARGS ≠ 0) then
      let! v := need IndexError (py_index co_varnames l) in
      Ok (params ++ ["*" +:+ v], l + 1)
    else
      match kwparams with
      | [] => Ok (params, l)
      | _ => Ok (params ++ ["*"%string], l)
      end in
  let params := star.1 ++ kwparams in
  let l := star.2 in
  if decide (Z.land co_flags VARKEYWORDS ≠ 0) then
    let! v := need IndexError (py_index co_varnames l) in
    Ok (params ++ ["**" +:+ v])
  else Ok params.

(** A keyword-only parameter as [getparams] writes it. *)
Definition kwparam (kd : gmap string obj) (name : string) : string :=
  match kd !! name with
  | Some d =>
      match str d with
      | Ok a => name +:+ "=" +:+ a
      | Raise _ => name
      end
  | None => name
  end.

(* ================================================================== *)
(** * Properties *)
(* ================================================================== *)

(** ** The monad *)

Lemma respects_ret {S A} (P : S → Prop) Q (a : A) : respects P Q (mret a).
Proof. by intros s Hs. Qed.

Lemma respects_raise {S A} (P : S → Prop) (Q : exn → Prop) e :
  Q e → respects P Q (raise (A:=A) e).
Proof. intros He s Hs. split; [done|]. by intros e' [= <-]. Qed.

Lemma respects_get {S} (P : S → Prop) Q : respects P Q get.
Proof. by intros s Hs. Qed.

Lemma respects_bind {S A B} (P : S → Prop) Q (m : M S A) (k : A → M S B) :
  respects P Q m → (∀ a, respects P Q (k a)) → respects P Q (m ≫= k).
Proof.
  intros Hm Hk s Hs. unfold mbind, M_bind.
  destruct (Hm s Hs) as [Hp Hq]. destruct (m s) as [[a|e] s']; simpl in *.
  - by apply Hk.
  - split; [done|]. intros e' [= <-]. by apply Hq.
Qed.

Lemma respects_for_each {S A} (P : S → Prop) Q (xs : list A) body :
  (∀ x, respects P Q (body x)) → respects P Q (for_each xs body).
Proof.
  intros Hb. induction xs as [|x xs IH]; simpl.
  - apply respects_ret.
  - apply respects_bind; [apply Hb | by intros _].
Qed.

Lemma respects_list_comp {S A} (P : S → Prop) Q n (body : M S A) :
  respects P Q body → respects P Q (list_comp n body).
Proof.
  intros Hb. induction n as [|n IH]; simpl.
  - apply respects_ret.
  - apply respects_bind; [done | intros v].
    apply respects_bind; [done | intros vs]. apply respects_ret.
Qed.

(** ** Python lists *)

Lemma unsnoc_None {A} (l : list A) : unsnoc l = None ↔ l = [].
Proof.
  destruct l as [|x l]; simpl; [done|].
  destruct (unsnoc l) as [[??]|]; split; done.
Qed.

Lemma unsnoc_Some {A} (l init : list A) lst :
  unsnoc l = Some (init, lst) ↔ l = init ++ [lst].
Proof.
  revert init lst. induction l as [|x l IH]; intros init lst; simpl.
  - split; [done|]. by destruct init.
  - destruct (unsnoc l) as [[i y]|] eqn:E.
    + destruct (IH i y) as [Hl _]. specialize (Hl eq_refl). subst l. split.
      * by intros [= <- <-].
      * destruct init as [|z init]; simpl.
        -- intros [= _ H]. by destruct i.
        -- intros [= <- H]. by apply app_inj_tail in H as [-> ->].
    + clear IH. apply unsnoc_None in E as ->. split.
      * by intros [= <- <-].
      * destruct init as [|z init]; simpl; [by intros [= ->]|].
        intros [= _ H]. by destruct init.
Qed.

Lemma unsnoc_snoc {A} (l : list A) x : unsnoc (l ++ [x]) = Some (l, x).
Proof. by apply unsnoc_Some. Qed.

(** ** class Stack: the occurrence counts *)

Section StackProps.
Context {A : Type} (id : A → positive).

Lemma occurrences_app k (l1 l2 : list A) :
  occurrences id k (l1 ++ l2) = (occurrences id k l1 + occurrences id k l2)%nat.
Proof. induction l1 as [|x l1 IH]; simpl; [done|]. rewrite IH. lia. Qed.

Lemma occurrences_snoc k (l : list A) x :
  occurrences id k (l ++ [x]) =
  (occurrences id k l + if decide (id x = k) then 1 else 0)%nat.
Proof. rewrite occurrences_app. simpl. lia. Qed.

Lemma counts_ok_init : counts_ok id (Stack_init (A:=A)).
Proof. intros k. simpl. apply lookup_empty. Qed.

Lemma get_count_ok (s : Stack A) obj :
  counts_ok id s → get_count id obj s = Z.of_nat (occurrences id (id obj) (_stack s)).
Proof.
  intros H. unfold get_count. rewrite H.
  by destruct (occurrences id (id obj) (_stack s)).
Qed.

Lemma pop1_respects : respects (counts_ok id) only_IndexError (pop1 id).
Proof.
  intros s Hs. unfold pop1, get, put, raise, mbind, M_bind, mret, M_ret. simpl.
  destruct (unsnoc (_stack s)) as [[rest val]|] eqn:E; simpl;
    [|split; [done | by intros e [= <-]]].
  apply unsnoc_Some in E.
  assert (Hc : get_count id val {| _stack := rest; _counts := _counts s |}
               = Z.of_nat (occurrences id (id val) rest) + 1).
  { unfold get_count. simpl. rewrite Hs, E, occurrences_snoc.
    rewrite decide_True by done.
    destruct (occurrences id (id val) rest); simpl; lia. }
  rewrite Hc. unfold set_count. simpl.
  replace (Z.of_nat (occurrences id (id val) rest) + 1 - 1)
    with (Z.of_nat (occurrences id (id val) rest)) by lia.
  assert (Hv : is_Some (_counts s !! id val)).
  { rewrite Hs, E, occurrences_snoc, decide_True by done.
    rewrite Nat.add_1_r. eauto. }
  destruct Hv as [v Hv].
  destruct (decide (Z.of_nat (occurrences id (id val) rest) ≠ 0)) as [Hne|Heq];
    simpl.
  - split; [|done].
    intros k. simpl. destruct (decide (id val = k)) as [<-|Hk].
    + rewrite lookup_insert_eq.
      destruct (occurrences id (id val) rest); [lia|done].
    + rewrite lookup_insert_ne by done. rewrite Hs, E, occurrences_snoc.
      rewrite decide_False by done. by rewrite Nat.add_0_r.
  - rewrite Hv. simpl. split; [|done].
    intros k. simpl. destruct (decide (id val = k)) as [<-|Hk].
    + rewrite lookup_delete_eq.
      destruct (occurrences id (id val) rest); [done|lia].
    + rewrite lookup_delete_ne by done. rewrite Hs, E, occurrences_snoc.
      rewrite decide_False by done. by rewrite Nat.add_0_r.
Qed.

Lemma push_respects args : respects (counts_ok id) only_IndexError (push id args).
Proof.
  apply respects_for_each. intros val s Hs.
  unfold get, modify, mbind, M_bind. simpl.
  rewrite (get_count_ok s val Hs). unfold set_count.
  rewrite decide_True by lia. simpl. split; [|done].
  intros k. simpl. rewrite occurrences_snoc.
  destruct (decide (id val = k)) as [<-|Hk].
  - rewrite lookup_insert_eq, Nat.add_1_r. f_equal. lia.
  - rewrite lookup_insert_ne by done. by rewrite Nat.add_0_r.
Qed.

Lemma pop_n_respects count :
  respects (counts_ok id) only_IndexError (pop_n id count).
Proof.
  apply respects_bind; [|intros; apply respects_ret].
  apply respects_list_comp, pop1_respects.
Qed.

Lemma peek_respects : respects (counts_ok id) only_IndexError peek.
Proof.
  apply respects_bind; [apply respects_get|]. intros s.
  destruct (py_index (_stack s) (-1)); [apply respects_ret|by apply respects_raise].
Qed.

Lemma peek_n_respects count :
  respects (counts_ok id) only_IndexError (peek_n count).
Proof.
  apply respects_bind; [apply respects_get|]. intros s. apply respects_ret.
Qed.

Lemma exec_op_preserves (s : Stack A) o :
  counts_ok id s → counts_ok id (exec_op id s o).
Proof.
  intros Hs. destruct o; simpl.
  - exact (proj1 (push_respects args s Hs)).
  - exact (proj1 (pop1_respects s Hs)).
  - exact (proj1 (pop_n_respects count s Hs)).
  - exact (proj1 (peek_respects s Hs)).
  - exact (proj1 (peek_n_respects count s Hs)).
Qed.

Lemma foldl_exec_op_ok ops (s : Stack A) :
  counts_ok id s → counts_ok id (foldl (exec_op id) s ops).
Proof.
  revert s. induction ops as [|o ops IH]; intros s Hs; simpl; [done|].
  by apply IH, exec_op_preserves.
Qed.

Lemma exec_ops_ok ops : counts_ok id (exec_ops id ops).
Proof. apply foldl_exec_op_ok, counts_ok_init. Qed.

(** C8. After any sequence of push, pop, pop(n) and peek operations on a
    fresh Stack, the tracked count of every object is not negative, it is
    the number of occurrences of that object (by identity) in the stack
    list, and [obj in stack] holds exactly when the count is not zero. *)
Theorem stack_counts_track_occurrences (ops : list (stack_op A)) (obj : A) :
  let s := exec_ops id ops in
  0 ≤ get_count id obj s
  ∧ get_count id obj s = Z.of_nat (occurrences id (id obj) (_stack s))
  ∧ (contains id obj s = true ↔ get_count id obj s ≠ 0).
Proof.
  intros s. pose proof (get_count_ok s obj (exec_ops_ok ops)) as Hc.
  split; [lia|]. split; [done|].
  unfold contains. rewrite bool_decide_eq_true. lia.
Qed.

(** Along such a sequence nothing but the [IndexError] of an empty list
    is ever raised. *)
Lemma stack_ops_raise_only_IndexError (ops : list (stack_op A)) o e :
  op_raises id (exec_ops id ops) o = Some e → e = IndexError.
Proof.
  pose proof (exec_ops_ok ops) as Hs. revert Hs.
  generalize (exec_ops id ops). intros s Hs.
  assert (Hgen : ∀ B (m : M (Stack A) B),
    respects (counts_ok id) only_IndexError m →
    match fst (m s) with Ok _ => None | Raise e => Some e end = Some e →
    e = IndexError).
  { intros B m Hm. destruct (Hm s Hs) as [_ Hq].
    destruct (fst (m s)); [done|]. intros [= <-]. by apply Hq. }
  destruct o; unfold op_raises.
  - apply (Hgen _ _ (push_respects args)).
  - apply (Hgen _ _ pop1_respects).
  - apply (Hgen _ _ (pop_n_respects count)).
  - apply (Hgen _ _ peek_respects).
  - apply (Hgen _ _ (peek_n_respects count)).
Qed.

End StackProps.

(** ** code_walker and the instruction map *)

Lemma rbind_Ok {A B} (r : result A) (k : A → result B) b :
  rbind r k = Ok b → ∃ a, r = Ok a ∧ k a = Ok b.
Proof. destruct r as [a|e]; simpl; [eauto | done]. Qed.

Tactic Notation "rbind_inv" hyp(H) :=
  let a := fresh "v" in
  let Ha := fresh "Hv" in
  apply rbind_Ok in H as (a & Ha & H).

Tactic Notation "rbind_inv" hyp(H) "as" ident(a) ident(Ha) :=
  apply rbind_Ok in H as (a & Ha & H).

(** The positions given by [code_walker] start at [i] and grow. *)
Lemma code_walker_from_positions_le n : ∀ code i instrs,
  (length code ≤ n)%nat →
  code_walker_from i code = Ok instrs →
  Forall (λ p, i ≤ p) (fst <$> instrs) ∧ NoDup (fst <$> instrs).
Proof.
  induction n as [|n IH]; intros code i instrs Hlen H.
  { destruct code; simpl in Hlen; [|lia].
    injection H as <-. split; constructor. }
  destruct code as [|op rest]; simpl in H.
  { injection H as <-. split; constructor. }
  simpl in Hlen.
  assert (Hcons : ∀ j oa (tl : list instr), i < j →
    Forall (λ p, j ≤ p) tl.*1 ∧ NoDup tl.*1 →
    Forall (λ p, i ≤ p) ((i, oa) :: tl).*1 ∧ NoDup ((i, oa) :: tl).*1).
  { intros j oa tl Hj [Hge Hnd]. split; simpl.
    - constructor; [lia|]. eapply Forall_impl; [exact Hge|]. simpl. lia.
    - constructor; [|done]. intros Hin.
      rewrite Forall_forall in Hge. apply Hge in Hin. lia. }
  destruct (decide (op >= HAVE_ARGUMENT)).
  - destruct rest as [|lo [|hi rest']]; try done.
    rbind_inv H. injection H as <-. simpl in Hlen.
    apply (Hcons (i + 3)); [lia|]. apply (IH rest'); [lia | done].
  - rbind_inv H. injection H as <-.
    apply (Hcons (i + 1)); [lia|]. apply (IH rest); [lia | done].
Qed.

Lemma code_walker_from_positions code i instrs :
  code_walker_from i code = Ok instrs →
  Forall (λ p, i ≤ p) (fst <$> instrs) ∧ NoDup (fst <$> instrs).
Proof. by apply (code_walker_from_positions_le (length code)). Qed.

Lemma code_walker_NoDup code instrs :
  code_walker code = Ok instrs → NoDup (fst <$> instrs).
Proof. intros H. by apply code_walker_from_positions in H as [_ ?]. Qed.

Lemma enumerate_snoc {A} (l : list A) x :
  enumerate (l ++ [x]) = enumerate l ++ [(Z.of_nat (length l), x)].
Proof.
  unfold enumerate. rewrite imap_app. simpl. by rewrite Nat.add_0_r.
Qed.

Lemma build_instr_map_snoc (l : list instr) x :
  build_instr_map (l ++ [x]) =
  <[fst x := Z.of_nat (length l)]> (build_instr_map l).
Proof. unfold build_instr_map. by rewrite enumerate_snoc, foldl_app. Qed.

(** With distinct positions, the map sends the position of every
    instruction to its index, and has no other key. *)
Lemma build_instr_map_lookup (l : list instr) p i :
  NoDup (fst <$> l) →
  build_instr_map l !! p = Some i ↔
  0 ≤ i ∧ ∃ oa, l !! Z.to_nat i = Some (p, oa).
Proof.
  revert p i. induction l as [|x l IH] using rev_ind; intros p i Hnd.
  - unfold build_instr_map. simpl. rewrite lookup_empty.
    split; [done | by intros (_ & oa & ?)].
  - rewrite fmap_app in Hnd. apply NoDup_app in Hnd as (Hnd & Hnot & _).
    rewrite build_instr_map_snoc. destruct x as [q oq]. simpl in *.
    destruct (decide (q = p)) as [->|Hne].
    + rewrite lookup_insert_eq. split.
      * intros [= <-]. split; [lia|]. exists oq.
        rewrite Nat2Z.id. apply lookup_app_Some. right.
        split; [done|]. by rewrite Nat.sub_diag.
      * intros (Hi & oa & Hl).
        apply lookup_app_Some in Hl as [Hl|[Hlen Hl]].
        -- exfalso. apply (Hnot p); [|apply list_elem_of_here].
           apply list_elem_of_fmap. exists (p, oa). split; [done|].
           by eapply list_elem_of_lookup_2.
        -- apply list_lookup_singleton_Some in Hl as [Hz _].
           f_equal. lia.
    + rewrite lookup_insert_ne by done. rewrite IH by done. split.
      * intros (Hi & oa & Hl). split; [done|]. exists oa.
        by apply lookup_app_l_Some.
      * intros (Hi & oa & Hl). split; [done|]. exists oa.
        apply lookup_app_Some in Hl as [Hl|[Hlen Hl]]; [done|].
        apply list_lookup_singleton_Some in Hl as [_ Heq]. congruence.
Qed.

Lemma py_index_in_range {A} (l : list A) i :
  0 ≤ i < Z.of_nat (length l) → py_index l i = l !! Z.to_nat i.
Proof. intros H. unfold py_index. by rewrite decide_True. Qed.

(** [Code.__getitem__] never raises. *)
Lemma Code_getitem_spec (self : Code) (i : Z) :
  match Code_getitem self i with
  | Ok None => ¬ (0 ≤ i < Z.of_nat (length (instr_seq self)))
  | Ok (Some b) =>
      0 ≤ i < Z.of_nat (length (instr_seq self))
      ∧ code b = self ∧ index b = i
      ∧ instr_seq self !! Z.to_nat i = Some (addr b, (opcode b, arg b))
  | Raise _ => False
  end.
Proof.
  unfold Code_getitem.
  destruct (decide (0 ≤ i < Z.of_nat (length (instr_seq self)))) as [Hi|Hi]; [|done].
  unfold Address_init. rewrite py_index_in_range by done.
  destruct (instr_seq self !! Z.to_nat i) as [[p [op a]]|] eqn:E; simpl.
  - done.
  - apply lookup_ge_None in E. lia.
Qed.

Lemma Code_getitem_Some (self : Code) (i : nat) p op a :
  instr_seq self !! i = Some (p, (op, a)) →
  Code_getitem self (Z.of_nat i) =
  Ok (Some {| code := self; index := Z.of_nat i; addr := p; opcode := op; arg := a |}).
Proof.
  intros H. unfold Code_getitem, Address_init.
  apply lookup_lt_Some in H as Hlt.
  rewrite decide_True by lia. rewrite py_index_in_range by lia.
  by rewrite Nat2Z.id, H.
Qed.

(** [Code.address] on a well-formed table: the instruction at that byte
    position, and [KeyError] when no instruction starts there. *)
Lemma address_Some (self : Code) (i : nat) p op a :
  Code_wf self →
  instr_seq self !! i = Some (p, (op, a)) →
  address self p =
  Ok (Some {| code := self; index := Z.of_nat i; addr := p; opcode := op; arg := a |}).
Proof.
  intros [Hnd Hmap] H. unfold address.
  assert (Hl : instr_map self !! p = Some (Z.of_nat i)).
  { rewrite Hmap. apply build_instr_map_lookup; [done|].
    split; [lia|]. exists (op, a). by rewrite Nat2Z.id. }
  rewrite Hl. by apply Code_getitem_Some.
Qed.

Lemma address_spec (self : Code) (p : Z) :
  Code_wf self →
  match address self p with
  | Ok (Some b) =>
      code b = self ∧ addr b = p
      ∧ instr_seq self !! Z.to_nat (index b) = Some (p, (opcode b, arg b))
  | Ok None => False
  | Raise e => e = KeyError ∧ p ∉ fst <$> instr_seq self
  end.
Proof.
  intros [Hnd Hmap]. unfold address.
  destruct (instr_map self !! p) as [i|] eqn:E.
  - rewrite Hmap in E. apply build_instr_map_lookup in E as (Hi & [op a] & Hl); [|done].
    replace i with (Z.of_nat (Z.to_nat i)) by lia.
    rewrite (Code_getitem_Some _ _ _ _ _ Hl). simpl. by rewrite Nat2Z.id.
  - split; [done|]. intros Hin.
    apply list_elem_of_fmap in Hin as ([q oa] & -> & Hin).
    apply list_elem_of_lookup in Hin as [i Hi].
    assert (instr_map self !! q = Some (Z.of_nat i)) as Hs; [|simpl in *; congruence].
    rewrite Hmap. apply build_instr_map_lookup; [done|].
    split; [lia|]. exists oa. by rewrite Nat2Z.id.
Qed.

(** ** class Address *)

(** C10. [a[k]] is [None], and no exception, when [a.index + k] is outside
    [0 .. len(instr_seq) - 1]; otherwise it is the Address of the same
    code at index [a.index + k], holding the instruction at that index. *)
Theorem Address_getitem_in_range_or_None (a : Address) (k : Z) :
  let i := index a + k in
  let n := Z.of_nat (length (instr_seq (code a))) in
  match Address_getitem a k with
  | Ok None => ¬ (0 ≤ i < n)
  | Ok (Some b) =>
      0 ≤ i < n ∧ code b = code a ∧ index b = i
      ∧ instr_seq (code a) !! Z.to_nat i = Some (addr b, (opcode b, arg b))
  | Raise _ => False
  end.
Proof. intros i n. apply Code_getitem_spec. Qed.

Lemma hasjrel_not_hasjabs (op : Z) : op ∈ hasjrel → op ∉ hasjabs.
Proof.
  unfold hasjrel, hasjabs. rewrite !elem_of_cons, !elem_of_nil.
  unfold FOR_ITER, JUMP_FORWARD, SETUP_LOOP, SETUP_EXCEPT, SETUP_FINALLY,
    SETUP_WITH, JUMP_IF_FALSE_OR_POP, JUMP_IF_TRUE_OR_POP, JUMP_ABSOLUTE,
    POP_JUMP_IF_FALSE, POP_JUMP_IF_TRUE, CONTINUE_LOOP.
  lia.
Qed.

(** C4. On a code whose table was built by [Code.__init__]: when the
    opcode of [a] is a relative jump, [a.jump()] is the Address of the
    instruction whose byte position is the position of the successor of
    [a] plus the argument; when it is an absolute jump, the Address of the
    instruction at the position given by the argument.  Both are
    Addresses of the code of [a]. *)
Theorem jump_resolves_target (a : Address) (j : nat) (p op' : Z) (arg' : option Z) :
  Code_wf (code a) →
  instr_seq (code a) !! j = Some (p, (op', arg')) →
  (opcode a ∈ hasjrel
   ∧ ∃ next d, Address_getitem a 1 = Ok (Some next)
               ∧ arg a = Some d ∧ p = addr next + d)
  ∨ (opcode a ∈ hasjabs ∧ arg a = Some p) →
  jump a = Ok (Some {| code := code a; index := Z.of_nat j;
                       addr := p; opcode := op'; arg := arg' |}).
Proof.
  intros Hwf Hj [[Hrel (next & d & Hnext & Harg & ->)] | [Habs Harg]];
    unfold jump, op_in.
  - rewrite bool_decide_eq_true_2 by done. rewrite Hnext. simpl.
    rewrite Harg. simpl.
    pose proof (Code_getitem_spec (code a) (index a + 1)) as Hs.
    unfold Address_getitem in Hnext. rewrite Hnext in Hs.
    destruct Hs as (_ & Hc & _). rewrite Hc. by apply address_Some.
  - rewrite bool_decide_eq_false_2.
    + rewrite bool_decide_eq_true_2 by done. rewrite Harg.
      by apply address_Some.
    + intros Hrel. by apply hasjrel_not_hasjabs in Hrel.
Qed.

(** ** Code.__init__ *)

Lemma M_bind_Ok {S A B} (m : M S A) (k : A → M S B) s b s' :
  (m ≫= k) s = (Ok b, s') → ∃ a s1, m s = (Ok a, s1) ∧ k a s1 = (Ok b, s').
Proof.
  unfold mbind, M_bind. destruct (m s) as [[a|e] s1]; [eauto | done].
Qed.

Lemma lift_Ok {S A} (r : result A) (s s' : S) a :
  lift r s = (Ok a, s') → r = Ok a ∧ s' = s.
Proof. unfold lift. by intros [= -> ->]. Qed.

(** The table of a Code made by [Code.__init__] is well formed. *)
Lemma Code_init_wf co h c h' :
  Code_init co h = (Ok c, h') → Code_wf c.
Proof.
  unfold Code_init. intros H.
  apply M_bind_Ok in H as (self_id & h1 & _ & H).
  apply M_bind_Ok in H as (cs & h2 & _ & H).
  apply M_bind_Ok in H as (ns & h3 & _ & H).
  apply M_bind_Ok in H as (vs & h4 & _ & H).
  apply M_bind_Ok in H as (instrs & h5 & Hw & H).
  apply M_bind_Ok in H as (ej & h6 & _ & H).
  apply lift_Ok in Hw as [Hw _].
  injection H as <- _. split; simpl; [|done].
  by apply code_walker_NoDup in Hw.
Qed.

Example Code_init_if_else :
  Code_init if_else_code Heap_init
  = (Ok if_else_Code, {| next_id := 6; unpacks := ∅ |}).
Proof. vm_compute. reflexivity. Qed.

Lemma if_else_Code_wf : Code_wf if_else_Code.
Proof. exact (Code_init_wf _ _ _ _ Code_init_if_else). Defined.

Lemma jump_resolves_target_witness :
  jump {| code := if_else_Code; index := 5; addr := 13;
          opcode := JUMP_FORWARD; arg := Some 7 |}
  = Ok (Some {| code := if_else_Code; index := 9; addr := 23;
                opcode := LOAD_CONST; arg := Some 0 |})
  ∧ jump {| code := if_else_Code; index := 1; addr := 3;
            opcode := POP_JUMP_IF_FALSE; arg := Some 16 |}
    = Ok (Some {| code := if_else_Code; index := 6; addr := 16;
                  opcode := LOAD_NAME; arg := Some 2 |}).
Proof.
  split.
  - apply (jump_resolves_target
             {| code := if_else_Code; index := 5; addr := 13;
                opcode := JUMP_FORWARD; arg := Some 7 |} 9 23 LOAD_CONST (Some 0)).
    + exact if_else_Code_wf.
    + reflexivity.
    + left. split; [apply (bool_decide_unpack (JUMP_FORWARD ∈ hasjrel)); vm_compute; exact I|].
      exists {| code := if_else_Code; index := 6; addr := 16;
                opcode := LOAD_NAME; arg := Some 2 |}, 7.
      split; [reflexivity | split; reflexivity].
  - apply (jump_resolves_target
             {| code := if_else_Code; index := 1; addr := 3;
                opcode := POP_JUMP_IF_FALSE; arg := Some 16 |} 6 16 LOAD_NAME (Some 2)).
    + exact if_else_Code_wf.
    + reflexivity.
    + right. split; [|reflexivity].
      apply (bool_decide_unpack (POP_JUMP_IF_FALSE ∈ hasjabs)); vm_compute; exact I.
Defined.

(** C5, as the code has it. [a + k] moves by [k] BYTES: on a code built by
    [Code.__init__] it is the Address of the same code whose instruction
    starts at byte position [a.addr + k], and it raises [KeyError] when no
    instruction starts there. (The offset by [k] instructions is [a[k]].) *)
Theorem Address_add_byte_relative (a : Address) (k : Z) :
  Code_wf (code a) →
  match Address_add a (Some k) with
  | Ok (Some b) =>
      code b = code a ∧ addr b = addr a + k
      ∧ instr_seq (code a) !! Z.to_nat (index b)
        = Some (addr b, (opcode b, arg b))
  | Ok None => False
  | Raise e => e = KeyError ∧ addr a + k ∉ fst <$> instr_seq (code a)
  end.
Proof.
  intros Hwf. unfold Address_add.
  pose proof (address_spec (code a) (addr a + k) Hwf) as H.
  destruct (address (code a) (addr a + k)) as [[b|]|e]; [|done..].
  destruct H as (Hc & Hp & Hl). by rewrite Hp.
Qed.

Lemma Address_add_byte_relative_witness :
  match Address_add {| code := if_else_Code; index := 0; addr := 0;
                       opcode := LOAD_NAME; arg := Some 0 |} (Some 3) with
  | Ok (Some b) =>
      code b = if_else_Code ∧ addr b = 0 + 3
      ∧ instr_seq if_else_Code !! Z.to_nat (index b)
        = Some (addr b, (opcode b, arg b))
  | Ok None => False
  | Raise e => e = KeyError ∧ 0 + 3 ∉ fst <$> instr_seq if_else_Code
  end.
Proof.
  exact (Address_add_byte_relative
           {| code := if_else_Code; index := 0; addr := 0;
              opcode := LOAD_NAME; arg := Some 0 |} 3 if_else_Code_wf).
Defined.

(** C5, as the claim has it, fails: from the first instruction of
    [if_else_Code], [+ 3] gives the instruction at index 1 (byte 3), while
    index 0 + 3 is the instruction at byte 9; and [+ 1] raises, although
    index 0 + 1 exists. *)
Lemma Address_add_not_index_relative :
  let a := {| code := if_else_Code; index := 0; addr := 0;
              opcode := LOAD_NAME; arg := Some 0 |} in
  Address_add a (Some 3)
  = Ok (Some {| code := if_else_Code; index := 1; addr := 3;
                opcode := POP_JUMP_IF_FALSE; arg := Some 16 |})
  ∧ Address_getitem a 3
    = Ok (Some {| code := if_else_Code; index := 3; addr := 9;
                  opcode := 131; arg := Some 0 |})
  ∧ Address_add a (Some 3) ≠ Address_getitem a 3
  ∧ Address_add a (Some 1) = Raise KeyError.
Proof.
  assert (H3 : Address_add {| code := if_else_Code; index := 0; addr := 0;
              opcode := LOAD_NAME; arg := Some 0 |} (Some 3)
           = Ok (Some {| code := if_else_Code; index := 1; addr := 3;
                opcode := POP_JUMP_IF_FALSE; arg := Some 16 |}))
    by (vm_compute; reflexivity).
  assert (G3 : Address_getitem {| code := if_else_Code; index := 0; addr := 0;
              opcode := LOAD_NAME; arg := Some 0 |} 3
           = Ok (Some {| code := if_else_Code; index := 3; addr := 9;
                  opcode := 131; arg := Some 0 |}))
    by (vm_compute; reflexivity).
  cbv zeta. split; [done|]. split; [done|]. split.
  - rewrite H3, G3. intros [=].
  - vm_compute. reflexivity.
Qed.

(** ** Code.find_else *)

Lemma Address_init_Ok self i a :
  Address_init self i = Ok a → code a = self ∧ index a = i.
Proof.
  unfold Address_init. destruct (py_index _ _) as [[p [op ar]]|]; [|done].
  by intros [= <-].
Qed.

Lemma Code_iter_over_spec self ixs addrs :
  Code_iter_over self ixs = Ok addrs →
  Forall (λ a, Address_init self (index a) = Ok a) addrs.
Proof.
  revert addrs. induction ixs as [|i ixs IH]; intros addrs H; simpl in H.
  - injection H as <-. constructor.
  - rbind_inv H as a Ha. rbind_inv H as rest Hrest. injection H as <-.
    constructor; [|by apply IH].
    apply Address_init_Ok in Ha as Hi. destruct Hi as [_ ->]. done.
Qed.

Lemma need_Ok {A} e (o : option A) a : need e o = Ok a → o = Some a.
Proof. destruct o; simpl; congruence. Qed.

Lemma find_else_step_inv self st addr st' :
  Address_init self (index addr) = Ok addr →
  find_else_step self st addr = Ok st' →
  find_else_inv self st → find_else_inv self st'.
Proof.
  intros Haddr H [Hj Hl]. destruct st as [jumps last_jump].
  unfold find_else_step in H. simpl in Hj, Hl.
  destruct (op_in (opcode addr) pop_jump_if_opcodes) eqn:Hop.
  - rbind_inv H as t Ht. apply need_Ok in Ht.
    rbind_inv H as oj Hoj. rbind_inv H as jump_addr Hja.
    apply need_Ok in Hja. subst oj.
    rbind_inv H as op Hop'. rbind_inv H as prev Hprev.
    apply need_Ok in Hprev. subst op.
    destruct (op_in (opcode prev) else_jump_opcodes
              || bool_decide (opcode jump_addr = FOR_ITER)) eqn:Htest;
      [|injection H as <-; by split].
    assert (Hgood : Address_init self (index addr) = Ok addr
                    ∧ else_jump_at self addr).
    { split; [done|]. split; [by apply bool_decide_eq_true in Hop|].
      exists t, jump_addr, prev. repeat split; try done.
      apply orb_true_iff in Htest as [Ht'|Ht'].
      - left. by apply bool_decide_eq_true in Ht'.
      - right. by apply bool_decide_eq_true in Ht'. }
    injection H as <-. split; simpl.
    + intros k w Hk. destruct (decide (index jump_addr = k)) as [<-|Hne].
      * rewrite lookup_insert_eq in Hk. by injection Hk as <-.
      * rewrite lookup_insert_ne in Hk by done. by eapply Hj.
    + by intros w [= <-].
  - destruct (bool_decide (opcode addr = JUMP_ABSOLUTE)).
    + rbind_inv H as t Ht. rbind_inv H as oj Hoj.
      destruct oj as [jump_addr|]; [|injection H as <-; by split].
      destruct (jumps !! index jump_addr) as [j|] eqn:Ej;
        [|injection H as <-; by split].
      injection H as <-. split; simpl; [|done].
      intros k w Hk. destruct (decide (index addr = k)) as [<-|Hne].
      * rewrite lookup_insert_eq in Hk. injection Hk as <-. by eapply Hj.
      * rewrite lookup_insert_ne in Hk by done. by eapply Hj.
    + destruct (op_in (opcode addr) stmt_opcodes);
        [|injection H as <-; by split].
      destruct last_jump as [j|]; [|injection H as <-; by split].
      injection H as <-. split; simpl; [|done].
      intros k w Hk. destruct (decide (index addr = k)) as [<-|Hne].
      * rewrite lookup_insert_eq in Hk. injection Hk as <-. by apply Hl.
      * rewrite lookup_insert_ne in Hk by done. by eapply Hj.
Qed.

Lemma find_else_loop_inv self addrs : ∀ st st',
  Forall (λ a, Address_init self (index a) = Ok a) addrs →
  find_else_loop self st addrs = Ok st' →
  find_else_inv self st → find_else_inv self st'.
Proof.
  induction addrs as [|a addrs IH]; intros st st' Hall H Hinv; simpl in H.
  - by injection H as <-.
  - rbind_inv H as st1 Hst1. apply Forall_cons in Hall as [Ha Hall].
    eapply IH; [done | exact H |]. by eapply find_else_step_inv.
Qed.

(** C1, as the code has it. Every member of [else_jumps] is the index of a
    conditional jump INSTRUCTION of the code (a [POP_JUMP_IF_TRUE] or
    [POP_JUMP_IF_FALSE]) such that the instruction before its target is
    one of [else_jump_opcodes] or its target is a [FOR_ITER]: the set holds
    the jumps, not their targets. *)
Theorem find_else_members_are_else_jumps (self : Code) (ej : gset Z) (i : Z) :
  find_else self = Ok ej →
  i ∈ ej →
  ∃ a, Address_init self i = Ok a ∧ else_jump_at self a.
Proof.
  unfold find_else. intros H Hi.
  rbind_inv H as addrs Haddrs. rbind_inv H as st Hst. injection H as <-.
  apply Code_iter_over_spec in Haddrs.
  assert (Hinv : find_else_inv self st).
  { eapply find_else_loop_inv; [exact Haddrs | exact Hst |].
    split; simpl; [|done]. intros k w Hk. by rewrite lookup_empty in Hk. }
  apply elem_of_list_to_set, list_elem_of_fmap in Hi as (a & -> & Ha).
  apply list_elem_of_fmap in Ha as ([k w] & -> & Hkw).
  apply elem_of_map_to_list in Hkw. simpl.
  exists w. by apply (proj1 Hinv k).
Qed.

Lemma find_else_members_are_else_jumps_witness :
  ∃ a, Address_init if_else_Code 1 = Ok a ∧ else_jump_at if_else_Code a.
Proof.
  apply (find_else_members_are_else_jumps if_else_Code {[1]} 1).
  - vm_compute. reflexivity.
  - apply elem_of_singleton. reflexivity.
Defined.

(** C1, as the claim has it, fails. In [if_else_Code] the only conditional
    jump is the [POP_JUMP_IF_FALSE] at index 1 and its target, where the
    else-branch begins, is the instruction at index 6; [else_jumps] is
    [{1}]: its member is the jump, and is not the target of any
    conditional jump. *)
Lemma else_jumps_member_is_not_a_target :
  find_else if_else_Code = Ok {[1]}
  ∧ cond_jump_targets if_else_Code = Ok [6]
  ∧ ¬ (∀ i : Z, i ∈ ({[1]} : gset Z) → i ∈ [6 : Z]).
Proof.
  split; [vm_compute; reflexivity|]. split; [vm_compute; reflexivity|].
  intros H. specialize (H 1). rewrite elem_of_singleton in H.
  specialize (H eq_refl). apply list_elem_of_singleton in H. discriminate H.
Qed.

(** ** class Stack: what push and pop return *)

Lemma for_each_cons_run {S A} (x : A) xs (body : A → M S unit) (s : S) :
  for_each (x :: xs) body s =
  match for_each [x] body s with
  | (Ok _, s1) => for_each xs body s1
  | (Raise e, s1) => (Raise e, s1)
  end.
Proof.
  simpl. unfold mbind, M_bind.
  destruct (body x s) as [[[]|e] s1]; reflexivity.
Qed.

Section StackSteps.
Context {A : Type} (id : A → positive).

Lemma push1_spec (s : Stack A) x :
  counts_ok id s →
  ∃ s', push id [x] s = (Ok tt, s')
        ∧ _stack s' = _stack s ++ [x] ∧ counts_ok id s'.
Proof.
  intros Hs. pose proof (proj1 (push_respects id [x] s Hs)) as Hok.
  revert Hok. unfold push. simpl.
  unfold get, modify, mbind, M_bind, mret, M_ret. simpl.
  rewrite (get_count_ok id s x Hs). unfold set_count.
  rewrite decide_True by lia. simpl. intros Hok. eauto.
Qed.

Lemma push_cons (x : A) xs (s : Stack A) :
  push id (x :: xs) s =
  match push id [x] s with
  | (Ok _, s1) => push id xs s1
  | (Raise e, s1) => (Raise e, s1)
  end.
Proof. apply for_each_cons_run. Qed.

Lemma push_spec (xs : list A) : ∀ s : Stack A,
  counts_ok id s →
  ∃ s', push id xs s = (Ok tt, s')
        ∧ _stack s' = _stack s ++ xs ∧ counts_ok id s'.
Proof.
  induction xs as [|x xs IH]; intros s Hs.
  - exists s. by rewrite app_nil_r.
  - destruct (push1_spec s x Hs) as (s1 & H1 & Hl1 & Hs1).
    destruct (IH s1 Hs1) as (s2 & H2 & Hl2 & Hs2).
    exists s2. rewrite push_cons, H1. split; [done|]. split; [|done].
    by rewrite Hl2, Hl1, <- app_assoc.
Qed.

Lemma pop1_spec (s : Stack A) l x :
  counts_ok id s → _stack s = l ++ [x] →
  ∃ s', pop1 id s = (Ok x, s') ∧ _stack s' = l ∧ counts_ok id s'.
Proof.
  intros Hs Hl. pose proof (proj1 (pop1_respects id s Hs)) as Hok.
  revert Hok. unfold pop1, get, put, mbind, M_bind, mret, M_ret. simpl.
  rewrite Hl, unsnoc_snoc. simpl.
  assert (Hc : get_count id x {| _stack := l; _counts := _counts s |}
               = Z.of_nat (occurrences id (id x) l) + 1).
  { unfold get_count. simpl. rewrite Hs, Hl, occurrences_snoc.
    rewrite decide_True by done.
    destruct (occurrences id (id x) l); simpl; lia. }
  rewrite Hc. unfold set_count. simpl.
  assert (Hv : is_Some (_counts s !! id x)).
  { rewrite Hs, Hl, occurrences_snoc, decide_True by done.
    rewrite Nat.add_1_r. eauto. }
  destruct Hv as [v Hv]. rewrite Hv.
  destruct (decide (Z.of_nat (occurrences id (id x) l) + 1 - 1 ≠ 0));
    simpl; intros Hok; eauto.
Qed.

Lemma pop_n_spec (xs : list A) : ∀ (s : Stack A) l,
  counts_ok id s → _stack s = l ++ xs →
  ∃ s', pop_n id (Z.of_nat (length xs)) s = (Ok xs, s')
        ∧ _stack s' = l ∧ counts_ok id s'.
Proof.
  unfold pop_n, range_len. rewrite Nat2Z.id.
  assert (Hgen : ∀ (ys : list A) (s : Stack A) l,
    counts_ok id s → _stack s = l ++ ys →
    ∃ s', list_comp (length ys) (pop1 id) s = (Ok (reverse ys), s')
          ∧ _stack s' = l ∧ counts_ok id s').
  { induction ys as [|y ys IH] using rev_ind; intros s l Hs Hl.
    - exists s. simpl. by rewrite app_nil_r in Hl.
    - rewrite length_app, Nat.add_1_r. simpl.
      rewrite app_assoc in Hl.
      destruct (pop1_spec s (l ++ ys) y Hs Hl) as (s1 & H1 & Hl1 & Hs1).
      destruct (IH s1 l Hs1 Hl1) as (s2 & H2 & Hl2 & Hs2).
      exists s2. unfold mbind, M_bind. rewrite H1, H2. simpl.
      by rewrite reverse_snoc. }
  intros s l Hs Hl. destruct (Hgen xs s l Hs Hl) as (s' & H & Hl' & Hs').
  exists s'. unfold mbind, M_bind. rewrite H. simpl.
  by rewrite reverse_involutive.
Qed.

Lemma contains_occurrences (s : Stack A) x :
  counts_ok id s →
  contains id x s = bool_decide (occurrences id (id x) (_stack s) ≠ O).
Proof.
  intros Hs. unfold contains. rewrite (get_count_ok id s x Hs).
  apply bool_decide_ext. lia.
Qed.
End StackSteps.

(** ** The handlers *)

Lemma string_app_nil_r (s : string) : (s +:+ "")%string = s.
Proof.
  induction s as [|c s IH]; [done|].
  change (String c (s +:+ "") = String c s). by rewrite IH.
Qed.

Lemma on_stack_pop (st : State) l x :
  counts_ok id (stack (dec st)) → _stack (stack (dec st)) = l ++ [x] →
  ∃ s', on_stack (pop id) st
        = (Ok x, {| heap := heap st; dec := set_stack s' (dec st) |})
        ∧ _stack s' = l ∧ counts_ok id s'.
Proof.
  intros Hs Hl. destruct (pop1_spec id _ l x Hs Hl) as (s' & H & ? & ?).
  exists s'. unfold on_stack, pop. by rewrite H.
Qed.

Lemma on_stack_pop_n (st : State) l xs :
  counts_ok id (stack (dec st)) → _stack (stack (dec st)) = l ++ xs →
  ∃ s', on_stack (pop_n id (Z.of_nat (length xs))) st
        = (Ok xs, {| heap := heap st; dec := set_stack s' (dec st) |})
        ∧ _stack s' = l ∧ counts_ok id s'.
Proof.
  intros Hs Hl. destruct (pop_n_spec id xs _ l Hs Hl) as (s' & H & ? & ?).
  exists s'. unfold on_stack. by rewrite H.
Qed.

Lemma on_stack_push (st : State) xs :
  counts_ok id (stack (dec st)) →
  ∃ s', on_stack (push id xs) st
        = (Ok tt, {| heap := heap st; dec := set_stack s' (dec st) |})
        ∧ _stack s' = _stack (stack (dec st)) ++ xs ∧ counts_ok id s'.
Proof.
  intros Hs. destruct (push_spec id xs _ Hs) as (s' & H & ? & ?).
  exists s'. unfold on_stack. by rewrite H.
Qed.

(** Running a method step by step. *)
Lemma bind_run {S A B} (m : M S A) (k : A → M S B) s a s1 :
  m s = (Ok a, s1) → (m ≫= k) s = k a s1.
Proof. intros H. unfold mbind, M_bind. by rewrite H. Qed.

Lemma bind_raise {S A B} (m : M S A) (k : A → M S B) s e s1 :
  m s = (Raise e, s1) → (m ≫= k) s = (Raise e, s1).
Proof. intros H. unfold mbind, M_bind. by rewrite H. Qed.

(** C9. [getattr(self, "ROT_TWO")] is the second definition of the class
    body, not the swap. With [tos1] and [tos] on top of the stack it pops
    both and pushes twice one new Unpack accumulator of length 2, without
    destinations, whose value is the tuple [(tos1, tos)], the two values
    in the order in which [pop(2)] returns them. *)
Theorem ROT_TWO_pushes_an_Unpack_twice (fuel : nat) (run : run_t)
    (addr : Address) (st : State) (l : list obj) (tos1 tos : obj) :
  counts_ok id (stack (dec st)) →
  _stack (stack (dec st)) = l ++ [tos1; tos] →
  getattr fuel run "ROT_TWO" = Ok (H0 Handlers.ROT_TWO)
  ∧ ∃ st',
      Handlers.ROT_TWO addr st = (Ok (Next None), st')
      ∧ let t := next_id (heap st) in
        let u := Pos.succ t in
        _stack (stack (dec st')) = l ++ [UnpackRef u; UnpackRef u]
        ∧ counts_ok id (stack (dec st'))
        ∧ unpacks (heap st') !! u
          = Some {| val := PyTuple t [tos1; tos]; length_ := 2;
                    star_index := None; dests := [] |}
        ∧ suite (dec st') = suite (dec st).
Proof.
  intros Hs Hl. split; [reflexivity|].
  unfold Handlers.ROT_TWO.
  destruct (on_stack_pop_n st l [tos1; tos] Hs Hl) as (s1 & H1 & Hl1 & Hs1).
  simpl in H1. rewrite (bind_run _ _ _ _ _ H1).
  set (st1 := {| heap := heap st; dec := set_stack s1 (dec st) |}).
  unfold new, new_Unpack, on_heap, alloc, modify, mbind, M_bind, mret, M_ret.
  simpl.
  match goal with |- context [on_stack (push id [?u]) ?x] =>
    destruct (on_stack_push x [u]) as (s2 & H2 & Hl2 & Hs2); [exact Hs1|];
    rewrite H2; simpl in *
  end.
  match goal with |- context [on_stack (push id [?u]) ?x] =>
    destruct (on_stack_push x [u]) as (s3 & H3 & Hl3 & Hs3); [exact Hs2|];
    rewrite H3; simpl in *
  end.
  eexists. split; [reflexivity|]. simpl.
  split; [by rewrite Hl3, Hl2, Hl1, <- app_assoc|].
  split; [done|]. split; [apply lookup_insert_eq | done].
Qed.

Example Code_init_swap :
  Code_init swap_code Heap_init = (Ok swap_Code, {| next_id := 5; unpacks := ∅ |}).
Proof. vm_compute. reflexivity. Qed.

Lemma ROT_TWO_pushes_an_Unpack_twice_witness :
  getattr 0 (λ d, raise OutOfFuel) "ROT_TWO" = Ok (H0 Handlers.ROT_TWO)
  ∧ ∃ st',
      Handlers.ROT_TWO (swap_Address 2 6 opmap.ROT_TWO None) state_at_ROT_TWO
      = (Ok (Next None), st')
      ∧ _stack (stack (dec st')) = [] ++ [UnpackRef 6; UnpackRef 6]
        ∧ counts_ok id (stack (dec st'))
        ∧ unpacks (heap st') !! 6%positive
          = Some {| val := PyTuple 5 [PyName 3 "b"; PyName 4 "a"];
                    length_ := 2; star_index := None; dests := [] |}
        ∧ suite (dec st') = suite (dec state_at_ROT_TWO).
Proof.
  apply (ROT_TWO_pushes_an_Unpack_twice 0 (λ d, raise OutOfFuel)
           (swap_Address 2 6 opmap.ROT_TWO None) state_at_ROT_TWO
           [] (PyName 3 "b") (PyName 4 "a")).
  - apply exec_ops_ok.
  - vm_compute. reflexivity.
Defined.

(** C7, at the argument 2. Whatever is on the stack, [RAISE_VARARGS] with
    [argc == 2] raises: it pops one value, not two, and adds no statement
    to the suite. *)
Theorem RAISE_VARARGS_2_raises (addr : Address) (st : State) :
  ∃ e st', Handlers.RAISE_VARARGS addr 2 st = (Raise e, st')
           ∧ suite (dec st') = suite (dec st)
           ∧ (length (_stack (stack (dec st))) ≤
              S (length (_stack (stack (dec st')))))%nat.
Proof.
  unfold Handlers.RAISE_VARARGS. simpl.
  unfold on_stack, pop, pop1, get, put, mbind, M_bind, mret, M_ret. simpl.
  destruct (unsnoc (_stack (stack (dec st)))) as [[rest v]|] eqn:E; simpl.
  - apply unsnoc_Some in E. unfold set_count.
    assert (Hlen : (length (_stack (stack (dec st))) ≤ S (length rest))%nat).
    { rewrite E, length_app. simpl. lia. }
    destruct (decide _); simpl.
    + unfold lift. destruct (Handlers.iter_len v) as [k|e]; simpl.
      * destruct (decide (k = 2%nat)); simpl; eauto.
      * eauto.
    + destruct (_ !! _); simpl.
      * unfold lift. destruct (Handlers.iter_len v) as [k|e]; simpl.
        -- destruct (decide (k = 2%nat)); simpl; eauto.
        -- eauto.
      * eexists _, _. split; [reflexivity|]. split; [done|]. exact Hlen.
  - eexists _, _. split; [reflexivity|]. split; [done|]. simpl. lia.
Qed.

(** The other arguments: 0 emits [raise] and pops nothing, 1 pops one
    value and emits [raise] with it, and any other raises. *)
Lemma RAISE_VARARGS_0 (addr : Address) (st : State) :
  Handlers.RAISE_VARARGS addr 0 st
  = (Ok (Next None),
     {| heap := heap st;
        dec := set_suite (add_statement (suite (dec st)) (SimpleStatement "raise"))
                 (dec st) |}).
Proof. reflexivity. Qed.

Lemma RAISE_VARARGS_1 (addr : Address) (st : State) l x sx :
  counts_ok id (stack (dec st)) → _stack (stack (dec st)) = l ++ [x] →
  str x = Ok sx →
  ∃ st', Handlers.RAISE_VARARGS addr 1 st = (Ok (Next None), st')
         ∧ _stack (stack (dec st')) = l
         ∧ statements (suite (dec st'))
           = statements (suite (dec st)) ++ [SimpleStatement ("raise " +:+ sx)].
Proof.
  intros Hs Hl Hx. unfold Handlers.RAISE_VARARGS. simpl.
  destruct (on_stack_pop st l x Hs Hl) as (s1 & H1 & Hl1 & Hs1).
  rewrite (bind_run _ _ _ _ _ H1).
  unfold write, lift, on_dec, Handlers.pass, mbind, M_bind, mret, M_ret.
  simpl. rewrite Hx. simpl. rewrite string_app_nil_r.
  eexists. split; [reflexivity|]. by simpl.
Qed.

Lemma RAISE_VARARGS_other (addr : Address) (argc : Z) (st : State) :
  argc ≠ 0 → argc ≠ 1 → argc ≠ 2 →
  Handlers.RAISE_VARARGS addr argc st = (Raise NameError, st).
Proof.
  intros. unfold Handlers.RAISE_VARARGS.
  by rewrite !decide_False by done.
Qed.

(** With an exception and its cause on the stack, the cause alone is
    popped, and unpacking it fails. *)
Example RAISE_VARARGS_2_exc_cause :
  let st := {| heap := {| next_id := 5; unpacks := ∅ |};
               dec := set_stack
                        (exec_ops id [OpPush [PyName 3 "exc"; PyName 4 "cause"]])
                        (dec state_at_ROT_TWO) |} in
  let '(r, st') := Handlers.RAISE_VARARGS
                     (swap_Address 2 6 opmap.RAISE_VARARGS (Some 2)) 2 st in
  r = Raise TypeError
  ∧ _stack (stack (dec st')) = [PyName 3 "exc"]
  ∧ statements (suite (dec st')) = [].
Proof. vm_compute. done. Qed.

(** ** Comparison chains *)

(** [right.extends(left)] holds and [left.chain(right)] is taken whenever
    both are comparisons and the first operand of the right one equals
    the last operand of the left one. *)
Lemma and_combine_chain (st : State) i j (lc rc : list (obj + string)) x y :
  py_index rc 0 = Some (inl y) →
  py_index lc (-1) = Some (inl x) →
  py_eq y x = true →
  Handlers.and_combine (PyCompare i lc) (PyCompare j rc) st
  = (Ok (PyCompare (next_id (heap st)) (lc ++ drop 1 rc)),
     {| heap := {| next_id := Pos.succ (next_id (heap st));
                   unpacks := unpacks (heap st) |};
        dec := dec st |}).
Proof.
  intros Hy Hx Heq. unfold Handlers.and_combine. simpl.
  unfold lift, mbind, M_bind. simpl. rewrite Hy, Hx, Heq. reflexivity.
Qed.


(** The loop of [push_popjump] stops at once at an entry that passes its
    test. *)
Lemma popjump_loop_stop jaddr (kept : list popjump) jcond (st : State) :
  match head kept with
  | Some p => popjump_stops jaddr (snd (fst p)) = Ok true
  | None => True
  end →
  popjump_loop jaddr kept jcond st = (Ok (kept, jcond), st).
Proof.
  destruct kept as [|[[t a] c] kept]; simpl; [done|]. intros H.
  unfold lift, mbind, M_bind. by rewrite H.
Qed.





Example state_at_JUMP_IF_FALSE_OR_POP_reached :
  Code_init and_code Heap_init
  = (Ok and_Code, {| next_id := 7; unpacks := ∅ |})
  ∧ (Handlers.LOAD_NAME (and_Address 0 0 LOAD_NAME (Some 0)) 0;;
     Handlers.LOAD_NAME (and_Address 1 3 LOAD_NAME (Some 1)) 1;;
     Handlers.COMPARE_OP (and_Address 2 6 COMPARE_OP (Some 0)) 0)
      (and_state {| next_id := 7; unpacks := ∅ |} Stack_init)
    = (Ok (Next None), state_at_JUMP_IF_FALSE_OR_POP).
Proof. split; vm_compute; reflexivity. Qed.


(** The same through the whole decompiler: the code of
    [t = a < b and b < c], like that of [t = a < b < c], gives the
    statement [t = a < b < c]. *)
Example decompile_and_of_comparisons :
  (let! s := decompile 20 and_code in suite_lines s) = Ok ["t = a < b < c"]
  ∧ (let! s := decompile 20 chain_code in suite_lines s) = Ok ["t = a < b < c"].
Proof. split; vm_compute; reflexivity. Qed.

Example decompile_swap :
  (let! s := decompile 20 swap_code in suite_lines s) = Ok ["a, b = b, a"].
Proof. vm_compute; reflexivity. Qed.

(** ** push_popjump *)

(** Combining only makes new nodes: it does not raise and leaves the
    decompiler as it is. *)
Lemma popjump_combine_total t cond jcond (st : State) :
  ∃ jc h, popjump_combine t cond jcond st = (Ok jc, {| heap := h; dec := dec st |}).
Proof.
  unfold popjump_combine.
  destruct jcond; try (eexists _, _; reflexivity).
  destruct (decide _); eexists _, _; reflexivity.
Qed.

Lemma combine_all_total popped : ∀ jcond (st : State),
  ∃ jc h, combine_all popped jcond st = (Ok jc, {| heap := h; dec := dec st |}).
Proof.
  induction popped as [|[[t a] c] popped IH]; intros jcond st; simpl.
  - exists jcond, (heap st). by destruct st.
  - destruct (popjump_combine_total t c jcond st) as (jc & h & H).
    rewrite (bind_run _ _ _ _ _ H).
    destruct (IH jc {| heap := h; dec := dec st |}) as (jc' & h' & H').
    eauto.
Qed.

(** The loop pops every entry at which the test does not stop it. *)
Lemma popjump_loop_app jaddr popped : ∀ rest jcond (st : State),
  Forall (λ p : popjump, popjump_stops jaddr (snd (fst p)) = Ok false) popped →
  popjump_loop jaddr (popped ++ rest) jcond st
  = (jc ← combine_all popped jcond; popjump_loop jaddr rest jc) st.
Proof.
  induction popped as [|[[t a] c] popped IH]; intros rest jcond st Hall.
  - reflexivity.
  - apply Forall_cons in Hall as [Ha Hall]. simpl in Ha. simpl.
    destruct (popjump_combine_total t c jcond st) as (jc & h & H).
    unfold lift, mbind, M_bind. rewrite Ha, H.
    rewrite IH by done. reflexivity.
Qed.

(** C2, as the code has it. [push_popjump] first moves the new target
    (to the [else] address, when it is the [then] address of an
    else-jump). It then pops the pending entries from the top for as long
    as the new target is NOT at or before the target of the entry, that
    is while the entry's target lies strictly before the new one: with
    [popjump_stack = keep ++ pops], the test failing at every entry of
    [pops] and holding at the last entry of [keep] (if any), the entries
    of [pops] are combined, the top first, and the result is pushed on
    [keep] with the new truthiness and the new target. Combining with an
    entry of truthiness [t] makes [op(cond, jcond)], where [op] is
    [PyBooleanOr] when [t] and [PyBooleanAnd] otherwise, except when
    [jcond] is already an [op] node: then it makes
    [op(op(cond, jcond.left), jcond.right)]. *)
Theorem push_popjump_pops_earlier_targets (jt : bool)
    (jaddr jaddr' : option Address) (jcond : obj)
    (keep pops : list popjump) (st : State) :
  popjump_stack (dec st) = keep ++ pops →
  popjump_target jaddr = Ok jaddr' →
  Forall (λ p : popjump, popjump_stops jaddr' (snd (fst p)) = Ok false) pops →
  match last keep with
  | Some p => popjump_stops jaddr' (snd (fst p)) = Ok true
  | None => True
  end →
  (∃ jc h,
     combine_all (reverse pops) jcond st = (Ok jc, {| heap := h; dec := dec st |})
     ∧ push_popjump jt jaddr jcond st
       = (Ok tt, {| heap := h;
                    dec := set_popjump_stack (keep ++ [(jt, jaddr', jc)]) (dec st) |}))
  ∧ (∀ t cond i l r (s : State),
       popjump_combine t cond (PyBinaryOp i (obj_maker t) l r) s
       = (Ok (PyBinaryOp (Pos.succ (next_id (heap s))) (obj_maker t)
                (PyBinaryOp (next_id (heap s)) (obj_maker t) cond l) r),
          {| heap := {| next_id := Pos.succ (Pos.succ (next_id (heap s)));
                        unpacks := unpacks (heap s) |};
             dec := dec s |}))
  ∧ (∀ t cond jc (s : State),
       is_binary (obj_maker t) jc = false →
       popjump_combine t cond jc s
       = (Ok (PyBinaryOp (next_id (heap s)) (obj_maker t) cond jc),
          {| heap := {| next_id := Pos.succ (next_id (heap s));
                        unpacks := unpacks (heap s) |};
             dec := dec s |})).
Proof.
  intros Hstack Htarget Hpops Hkeep. split; [|split].
  - destruct (combine_all_total (reverse pops) jcond st) as (jc & h & Hc).
    exists jc, h. split; [done|].
    unfold push_popjump. unfold lift at 1. unfold mbind at 1, M_bind at 1.
    rewrite Htarget. unfold get_dec at 1. unfold mbind at 1, M_bind at 1.
    rewrite Hstack, reverse_app.
    rewrite (bind_run _ _ st (reverse keep, jc) {| heap := h; dec := dec st |}).
    + unfold on_dec. simpl. by rewrite reverse_involutive.
    + rewrite popjump_loop_app by by apply Forall_reverse.
      rewrite (bind_run _ _ _ _ _ Hc).
      apply popjump_loop_stop. by rewrite head_reverse.
  - intros t cond i l r s. unfold popjump_combine.
    by rewrite decide_True.
  - intros t cond jc s Hjc. unfold popjump_combine.
    destruct jc; try reflexivity. simpl in Hjc.
    apply bool_decide_eq_false in Hjc. by rewrite decide_False.
Qed.

Lemma push_popjump_pops_earlier_targets_witness :
  ∃ jc h,
    combine_all (reverse [(false, Some (if_else_Address 3 9 131 (Some 0)), PyName 4 "f")])
      (PyName 5 "g")
      (state_with_pending
         [(false, Some (if_else_Address 9 23 LOAD_CONST (Some 0)), PyName 3 "x");
          (false, Some (if_else_Address 3 9 131 (Some 0)), PyName 4 "f")])
    = (Ok jc, {| heap := h;
                 dec := dec (state_with_pending
                   [(false, Some (if_else_Address 9 23 LOAD_CONST (Some 0)), PyName 3 "x");
                    (false, Some (if_else_Address 3 9 131 (Some 0)), PyName 4 "f")]) |})
    ∧ push_popjump true (Some (if_else_Address 5 13 JUMP_FORWARD (Some 7)))
        (PyName 5 "g")
        (state_with_pending
           [(false, Some (if_else_Address 9 23 LOAD_CONST (Some 0)), PyName 3 "x");
            (false, Some (if_else_Address 3 9 131 (Some 0)), PyName 4 "f")])
      = (Ok tt,
         {| heap := h;
            dec := set_popjump_stack
                     ([(false, Some (if_else_Address 9 23 LOAD_CONST (Some 0)),
                        PyName 3 "x")]
                      ++ [(true, Some (if_else_Address 5 13 JUMP_FORWARD (Some 7)), jc)])
                     (dec (state_with_pending
                        [(false, Some (if_else_Address 9 23 LOAD_CONST (Some 0)), PyName 3 "x");
                         (false, Some (if_else_Address 3 9 131 (Some 0)), PyName 4 "f")])) |}).
Proof.
  refine (proj1 (push_popjump_pops_earlier_targets true
    (Some (if_else_Address 5 13 JUMP_FORWARD (Some 7)))
    (Some (if_else_Address 5 13 JUMP_FORWARD (Some 7)))
    (PyName 5 "g")
    [(false, Some (if_else_Address 9 23 LOAD_CONST (Some 0)), PyName 3 "x")]
    [(false, Some (if_else_Address 3 9 131 (Some 0)), PyName 4 "f")]
    (state_with_pending
       [(false, Some (if_else_Address 9 23 LOAD_CONST (Some 0)), PyName 3 "x");
        (false, Some (if_else_Address 3 9 131 (Some 0)), PyName 4 "f")])
    _ _ _ _)).
  - reflexivity.
  - reflexivity.
  - constructor; [reflexivity | constructor].
  - reflexivity.
Defined.

(** C2, as the claim has it, fails. With one pending entry whose target is
    the instruction at index 5, and a new jump to the instruction at
    index 3, the new target is at or before the pending one ([jaddr <
    addr or jaddr == addr] holds); the pending entry is NOT popped, and
    the new condition is pushed as it is. And with the pending target at
    index 3 and the new one at index 5, where the new target is not at or
    before the pending one, the entry is popped and combined. *)
Lemma push_popjump_keeps_entry_with_later_target :
  popjump_stops (Some (if_else_Address 3 9 131 (Some 0)))
                (Some (if_else_Address 5 13 JUMP_FORWARD (Some 7))) = Ok true
  ∧ snd (push_popjump true (Some (if_else_Address 3 9 131 (Some 0))) (PyName 5 "g")
           (state_with_pending
              [(false, Some (if_else_Address 5 13 JUMP_FORWARD (Some 7)), PyName 4 "f")]))
    = {| heap := {| next_id := 6; unpacks := ∅ |};
         dec := set_popjump_stack
                  [(false, Some (if_else_Address 5 13 JUMP_FORWARD (Some 7)), PyName 4 "f");
                   (true, Some (if_else_Address 3 9 131 (Some 0)), PyName 5 "g")]
                  (dec (state_with_pending [])) |}
  ∧ popjump_stops (Some (if_else_Address 5 13 JUMP_FORWARD (Some 7)))
                  (Some (if_else_Address 3 9 131 (Some 0))) = Ok false
  ∧ snd (push_popjump true (Some (if_else_Address 5 13 JUMP_FORWARD (Some 7)))
           (PyName 5 "g")
           (state_with_pending
              [(false, Some (if_else_Address 3 9 131 (Some 0)), PyName 4 "f")]))
    = {| heap := {| next_id := 7; unpacks := ∅ |};
         dec := set_popjump_stack
                  [(true, Some (if_else_Address 5 13 JUMP_FORWARD (Some 7)),
                    PyBinaryOp 6 PyBooleanAnd (PyName 4 "f") (PyName 5 "g"))]
                  (dec (state_with_pending [])) |}.
Proof. repeat split; vm_compute; reflexivity. Qed.

(** ** Unpacking *)

Lemma new_run (mk : positive → obj) (st : State) :
  new mk st
  = (Ok (mk (next_id (heap st))),
     {| heap := {| next_id := Pos.succ (next_id (heap st));
                   unpacks := unpacks (heap st) |};
        dec := dec st |}).
Proof. reflexivity. Qed.

Lemma new_Unpack_run v n si (st : State) :
  new_Unpack v n si st
  = (Ok (UnpackRef (next_id (heap st))),
     {| heap := {| next_id := Pos.succ (next_id (heap st));
                   unpacks := <[next_id (heap st) :=
                                  {| val := v; length_ := n; star_index := si;
                                     dests := [] |}]> (unpacks (heap st)) |};
        dec := dec st |}).
Proof. reflexivity. Qed.

(** [UNPACK_SEQUENCE] pops the value and pushes [count] times one new
    accumulator without destinations. *)
Lemma UNPACK_SEQUENCE_spec (addr : Address) (count : Z) (st : State) base v :
  counts_ok id (stack (dec st)) →
  _stack (stack (dec st)) = base ++ [v] →
  ∃ st', Handlers.UNPACK_SEQUENCE addr count st = (Ok (Next None), st')
         ∧ unpacking st' base (Z.to_nat count) (next_id (heap st))
             {| val := v; length_ := count; star_index := None; dests := [] |}
             (suite (dec st)) (assignment_chain (dec st))
         ∧ next_id (heap st') = Pos.succ (next_id (heap st)).
Proof.
  intros Hs Hl. unfold Handlers.UNPACK_SEQUENCE.
  destruct (on_stack_pop st base v Hs Hl) as (s1 & H1 & Hl1 & Hs1).
  rewrite (bind_run _ _ _ _ _ H1).
  rewrite (bind_run _ _ _ _ _ (new_Unpack_run _ _ _ _)). simpl.
  set (u := next_id (heap st)).
  set (h1 := {| next_id := Pos.succ u; unpacks := _ |}).
  assert (Hloop : ∀ n (s : Stack obj),
    counts_ok id s →
    ∃ s', for_each (seq 0 n) (λ _ : nat, on_stack (push id [UnpackRef u]))
            {| heap := h1; dec := set_stack s (dec st) |}
          = (Ok tt, {| heap := h1; dec := set_stack s' (dec st) |})
          ∧ _stack s' = _stack s ++ replicate n (UnpackRef u)
          ∧ counts_ok id s').
  { intros n. generalize 0%nat. induction n as [|n IH]; intros i s Hcs.
    - exists s. simpl. by rewrite app_nil_r.
    - simpl.
      destruct (on_stack_push {| heap := h1; dec := set_stack s (dec st) |}
                  [UnpackRef u] Hcs) as (s2 & H2 & Hl2 & Hs2).
      rewrite (bind_run _ _ _ _ _ H2). simpl in *.
      destruct (IH (S i) s2 Hs2) as (s3 & H3 & Hl3 & Hs3).
      exists s3. split; [exact H3|]. split; [|done].
      by rewrite Hl3, Hl2, <- app_assoc. }
  destruct (Hloop (range_len count) s1 Hs1) as (s' & H' & Hl' & Hs').
  rewrite (bind_run _ _ _ _ _ H').
  eexists. split; [reflexivity|]. split; [|done].
  repeat split; simpl; try done.
  - by rewrite Hl', Hl1.
  - apply lookup_insert_eq.
Qed.

Lemma store_S (fuel : nat) (dest : obj) (st : State) l x :
  counts_ok id (stack (dec st)) → _stack (stack (dec st)) = l ++ [x] →
  ∃ s', _stack s' = l ∧ counts_ok id s'
        ∧ store (S fuel) dest st
          = match x with
            | UnpackRef u => Unpack_store (store fuel) u dest
            | _ => PyExpr_store x dest
            end {| heap := heap st; dec := set_stack s' (dec st) |}.
Proof.
  intros Hs Hl. destruct (on_stack_pop st l x Hs Hl) as (s' & H & Hl' & Hs').
  exists s'. split; [done|]. split; [done|].
  simpl. by rewrite (bind_run _ _ _ _ _ H).
Qed.

(** [Unpack.store] on an accumulator without a starred destination:
    the destination is appended, and the continuation runs only when the
    accumulator is full. *)
Lemma Unpack_store_run (dec_store : obj → M State unit) (u : positive)
    (dest : obj) (st : State) (U : Unpack) :
  unpacks (heap st) !! u = Some U →
  star_index U = None →
  Unpack_store dec_store u dest st
  = let st1 := {| heap := {| next_id := next_id (heap st);
                             unpacks := <[u := add_dest U dest]>
                                          (unpacks (heap st)) |};
                  dec := dec st |} in
    if decide (Z.of_nat (S (length (dests U))) = length_ U)
    then (on_stack (push id [val U]);;
          tup ← new (λ i, PyTuple i (dests U ++ [dest]));
          dec_store tup) st1
    else (Ok tt, st1).
Proof.
  intros Hu Hstar. unfold Unpack_store, add_dest.
  rewrite (bind_run get _ st st st eq_refl).
  rewrite Hu, Hstar. rewrite decide_False by done.
  rewrite (bind_run (mret dest) _ st dest st eq_refl).
  assert (Hlen : length (dests U ++ [dest]) = S (length (dests U)))
    by (rewrite length_app; simpl; apply Nat.add_1_r).
  cbv zeta. cbn [dests val length_ star_index]. rewrite Hlen.
  erewrite bind_run by reflexivity.
  destruct (decide (Z.of_nat (S (length (dests U))) = length_ U));
    reflexivity.
Qed.

(** A store into an accumulator that is not yet full only adds the
    destination: the suite and the assignment chain stay as they are. *)
Lemma store_partial (fuel : nat) (dest : obj) (st : State) base k u U su ch :
  unpacking st base (S k) u U su ch →
  star_index U = None →
  Z.of_nat (S (length (dests U))) ≠ length_ U →
  ∃ st', store (S fuel) dest st = (Ok tt, st')
         ∧ unpacking st' base k u (add_dest U dest) su ch
         ∧ next_id (heap st') = next_id (heap st).
Proof.
  intros (Hs & Hl & Hu & Hsu & Hch) Hstar Hlen.
  rewrite replicate_S_end, app_assoc in Hl.
  destruct (store_S fuel dest st _ _ Hs Hl) as (s' & Hl' & Hs' & ->).
  erewrite (Unpack_store_run _ u dest _ U); [| exact Hu | exact Hstar].
  cbv zeta. rewrite decide_False by done.
  eexists. split; [reflexivity|]. split; [|done].
  repeat split; simpl; try done. apply lookup_insert_eq.
Qed.

Lemma PyExpr_dispatch {B} (v : obj) (f : positive → B) (g : B) :
  is_PyExpr v = true →
  match v with UnpackRef u => f u | _ => g end = g.
Proof. by destruct v. Qed.

(** The store that fills the accumulator puts the value back on the
    stack and stores the tuple of the destinations into it. *)
Lemma store_complete (fuel : nat) (dest : obj) (st : State) base u U su ch :
  unpacking st base 1 u U su ch →
  star_index U = None →
  Z.of_nat (S (length (dests U))) = length_ U →
  is_PyExpr (val U) = true →
  ∃ st', store (S (S fuel)) dest st = (Ok tt, st')
         ∧ counts_ok id (stack (dec st'))
         ∧ _stack (stack (dec st')) = base
         ∧ unpacks (heap st') !! u = Some (add_dest U dest)
         ∧ let tup := PyTuple (next_id (heap st)) (dests U ++ [dest]) in
           if bool_decide (occurrences id (id (val U)) base ≠ O)
           then suite (dec st') = su
                ∧ assignment_chain (dec st') = ch ++ [tup]
           else suite (dec st')
                = add_statement su (AssignStatement (ch ++ [tup; val U]))
                ∧ assignment_chain (dec st') = [].
Proof.
  intros (Hs & Hl & Hu & Hsu & Hch) Hstar Hlen Hexpr.
  change (replicate 1 (UnpackRef u)) with [UnpackRef u] in Hl.
  destruct (store_S (S fuel) dest st _ _ Hs Hl) as (s1 & Hl1 & Hs1 & ->).
  erewrite (Unpack_store_run _ u dest _ U); [| exact Hu | exact Hstar].
  cbv zeta. rewrite decide_True by done.
  cbn [heap dec].
  set (h1 := {| next_id := next_id (heap st); unpacks := _ |}).
  destruct (on_stack_push {| heap := h1; dec := set_stack s1 (dec st) |}
              [val U] Hs1) as (s2 & H2 & Hl2 & Hs2).
  rewrite (bind_run _ _ _ _ _ H2).
  rewrite (bind_run _ _ _ _ _ (new_run _ _)).
  cbn [heap dec next_id unpacks] in *.
  match goal with |- context [store (S fuel) ?t ?x] =>
    destruct (store_S fuel t x (_stack s1) (val U)) as (s3 & Hl3 & Hs3 & ->);
      [exact Hs2 | exact Hl2 |]
  end.
  rewrite (PyExpr_dispatch (val U) _ _ Hexpr).
  unfold PyExpr_store. unfold get_dec at 1. unfold mbind at 1, M_bind at 1.
  cbn [heap dec stack set_stack set_assignment_chain assignment_chain suite].
  rewrite (contains_occurrences id s3 (val U) Hs3), Hl3, Hl1.
  subst su ch. subst h1.
  destruct (bool_decide (occurrences id (id (val U)) base ≠ 0%nat)) eqn:Hocc.
  - eexists. split; [reflexivity|]. simpl.
    repeat split; try done;
      [by rewrite Hl3 | apply lookup_insert_eq].
  - eexists. split; [reflexivity|]. simpl.
    repeat split; try done;
      [by rewrite Hl3 | apply lookup_insert_eq |].
    by rewrite <- app_assoc.
Qed.

Lemma foldl_add_dest (ds : list obj) : ∀ U : Unpack,
  foldl add_dest U ds
  = {| val := val U; length_ := length_ U; star_index := star_index U;
       dests := dests U ++ ds |}.
Proof.
  induction ds as [|d ds IH]; intros U; simpl.
  - rewrite app_nil_r. by destruct U.
  - rewrite IH. simpl. by rewrite <- app_assoc.
Qed.

(** The stores before the last one: each pops one reference to the
    accumulator and appends its destination. *)
Lemma stores_partial (fuel : nat) (ds : list obj) :
  ∀ (st : State) base k u U su ch,
    unpacking st base (length ds + k) u U su ch →
    star_index U = None →
    Z.of_nat (length (dests U) + length ds) < length_ U →
    ∃ st', for_each ds (store (S fuel)) st = (Ok tt, st')
           ∧ unpacking st' base k u (foldl add_dest U ds) su ch
           ∧ next_id (heap st') = next_id (heap st).
Proof.
  induction ds as [|d ds IH]; intros st base k u U su ch HU Hstar Hlen.
  - exists st. by split.
  - change (length (d :: ds) + k)%nat with (S (length ds + k)) in HU.
    destruct (store_partial fuel d st base _ u U su ch HU Hstar)
      as (st1 & H1 & HU1 & Hn1).
    { simpl in Hlen. lia. }
    destruct (IH st1 base k u (add_dest U d) su ch HU1 Hstar) as
      (st2 & H2 & HU2 & Hn2).
    { simpl in *. rewrite length_app. simpl. lia. }
    exists st2.
    change (for_each (d :: ds) (store (S fuel)))
      with (store (S fuel) d ≫= λ _, for_each ds (store (S fuel))).
    rewrite (bind_run _ _ _ _ _ H1). split; [exact H2|].
    split; [exact HU2 | congruence].
Qed.

(** C3, as the code has it. [UNPACK_SEQUENCE] with argument [N >= 1],
    run on a stack whose top is the expression [v], creates one [Unpack]
    accumulator and pushes it [N] times. Each of the first stores, as many
    as were made out of the first [N - 1], pops one reference and appends
    its destination, and leaves the suite and the assignment chain as they
    were. The [N]th store empties the accumulator's references and stores
    the tuple of the [N] destinations into [v]: when [v] is no longer on
    the stack, one assignment statement is added, whose targets are the
    pending ones of the assignment chain followed by the tuple and whose
    source is [v]; when [v] is still on the stack (a chained assignment
    [a, b = c = v]), no statement is added by this store and the tuple
    becomes a pending target. *)
Theorem UNPACK_SEQUENCE_stores (addr : Address) (st : State)
    (base : list obj) (v : obj) (ds : list obj) (d : obj) (fuel : nat) :
  counts_ok id (stack (dec st)) →
  _stack (stack (dec st)) = base ++ [v] →
  is_PyExpr v = true →
  let N := S (length ds) in
  let u := next_id (heap st) in
  let su := suite (dec st) in
  let ch := assignment_chain (dec st) in
  let acc := λ l, {| val := v; length_ := Z.of_nat N; star_index := None;
                     dests := l |} in
  ∃ st1,
    Handlers.UNPACK_SEQUENCE addr (Z.of_nat N) st = (Ok (Next None), st1)
    ∧ next_id (heap st1) = Pos.succ u
    ∧ unpacking st1 base N u (acc []) su ch
    ∧ (∀ k, (k ≤ length ds)%nat →
         ∃ st2, for_each (take k ds) (store (S (S fuel))) st1 = (Ok tt, st2)
                ∧ unpacking st2 base (N - k) u (acc (take k ds)) su ch)
    ∧ ∃ st2 st3,
        for_each ds (store (S (S fuel))) st1 = (Ok tt, st2)
        ∧ store (S (S fuel)) d st2 = (Ok tt, st3)
        ∧ _stack (stack (dec st3)) = base
        ∧ unpacks (heap st3) !! u = Some (acc (ds ++ [d]))
        ∧ let tup := PyTuple (Pos.succ u) (ds ++ [d]) in
          if bool_decide (occurrences id (id v) base ≠ O)
          then suite (dec st3) = su
               ∧ assignment_chain (dec st3) = ch ++ [tup]
          else suite (dec st3)
               = add_statement su (AssignStatement (ch ++ [tup; v]))
               ∧ assignment_chain (dec st3) = [].
Proof.
  intros Hs Hl Hexpr N u su ch acc.
  destruct (UNPACK_SEQUENCE_spec addr (Z.of_nat N) st base v Hs Hl)
    as (st1 & H1 & HU1 & Hn1).
  rewrite Nat2Z.id in HU1. fold (acc []) in HU1. fold u su ch in HU1.
  exists st1. split; [exact H1|]. split; [exact Hn1|]. split; [exact HU1|].
  assert (Hpre : ∀ k, (k ≤ length ds)%nat →
    ∃ st2, for_each (take k ds) (store (S (S fuel))) st1 = (Ok tt, st2)
           ∧ unpacking st2 base (N - k) u (acc (take k ds)) su ch
           ∧ next_id (heap st2) = Pos.succ u).
  { intros k Hk.
    destruct (stores_partial (S fuel) (take k ds) st1 base (N - k) u (acc [])
                su ch) as (st2 & H2 & HU2 & Hn2).
    - rewrite length_take. replace (k `min` length ds + (N - k))%nat with N
        by (unfold N; lia). exact HU1.
    - reflexivity.
    - simpl. rewrite length_take. unfold N. lia.
    - exists st2. split; [exact H2|]. rewrite foldl_add_dest in HU2.
      split; [exact HU2 | by rewrite Hn2]. }
  split.
  { intros k Hk. destruct (Hpre k Hk) as (st2 & H2 & HU2 & _). by exists st2. }
  destruct (Hpre (length ds) (le_n _)) as (st2 & H2 & HU2 & Hn2).
  rewrite firstn_all in H2, HU2.
  replace (N - length ds)%nat with 1%nat in HU2 by (unfold N; lia).
  destruct (store_complete fuel d st2 base u (acc ds) su ch HU2)
    as (st3 & H3 & Hs3 & Hl3 & Hu3 & Hout); [done | done | exact Hexpr |].
  exists st2, st3. split; [exact H2|]. split; [exact H3|].
  split; [exact Hl3|]. split; [exact Hu3|].
  cbv zeta in Hout. rewrite Hn2 in Hout. exact Hout.
Qed.

Example Code_init_unpack :
  Code_init unpack_code Heap_init
  = (Ok unpack_Code, {| next_id := 6; unpacks := ∅ |})
  ∧ Code_init chained_unpack_code Heap_init
    = (Ok chained_unpack_Code, {| next_id := 7; unpacks := ∅ |}).
Proof. split; vm_compute; reflexivity. Qed.

Lemma UNPACK_SEQUENCE_stores_witness :
  let st := state_at_UNPACK_SEQUENCE in
  let t := PyName 3 "t" in
  let a := PyName 4 "a" in
  let b := PyName 5 "b" in
  let acc := λ l, {| val := t; length_ := 2; star_index := None;
                     dests := l |} in
  let addr := {| code := unpack_Code; index := 1; addr := 3;
                 opcode := UNPACK_SEQUENCE; arg := Some 2 |} in
  ∃ st1,
    Handlers.UNPACK_SEQUENCE addr 2 st = (Ok (Next None), st1)
    ∧ next_id (heap st1) = 7%positive
    ∧ unpacking st1 [] 2 6 (acc []) Suite_init []
    ∧ (∀ k, (k ≤ 1)%nat →
         ∃ st2, for_each (take k [a]) (store 2) st1 = (Ok tt, st2)
                ∧ unpacking st2 [] (2 - k) 6 (acc (take k [a])) Suite_init [])
    ∧ ∃ st2 st3,
        for_each [a] (store 2) st1 = (Ok tt, st2)
        ∧ store 2 b st2 = (Ok tt, st3)
        ∧ _stack (stack (dec st3)) = []
        ∧ unpacks (heap st3) !! 6%positive = Some (acc [a; b])
        ∧ suite (dec st3)
          = add_statement Suite_init
              (AssignStatement [PyTuple 7 [a; b]; t])
        ∧ assignment_chain (dec st3) = [].
Proof.
  refine (UNPACK_SEQUENCE_stores
            {| code := unpack_Code; index := 1; addr := 3;
               opcode := UNPACK_SEQUENCE; arg := Some 2 |}
            state_at_UNPACK_SEQUENCE [] (PyName 3 "t") [PyName 4 "a"]
            (PyName 5 "b") 0 _ _ _).
  - apply exec_ops_ok.
  - vm_compute. reflexivity.
  - reflexivity.
Defined.

(** C3 fails as stated: in the chained assignment [a, b = c = t] the
    value is still on the stack when the accumulator of
    [UNPACK_SEQUENCE 2] receives its second destination, so the second
    store adds no statement; the tuple [(a, b)] waits in the assignment
    chain for the store of [c]. *)
Lemma second_store_of_chained_unpack_adds_no_statement :
  let addr := {| code := chained_unpack_Code; index := 2; addr := 4;
                 opcode := UNPACK_SEQUENCE; arg := Some 2 |} in
  let r := (Handlers.UNPACK_SEQUENCE addr 2;;
            store 2 (PyName 4 "a");;
            store 2 (PyName 5 "b")) chained_state_at_UNPACK_SEQUENCE in
  fst r = Ok tt
  ∧ statements (suite (dec (snd r))) = []
  ∧ assignment_chain (dec (snd r)) = [PyTuple 8 [PyName 4 "a"; PyName 5 "b"]]
  ∧ _stack (stack (dec (snd r))) = [PyName 3 "t"].
Proof. vm_compute. repeat split. Qed.

Example decompile_unpack :
  (let! s := decompile 20 unpack_code in suite_lines s) = Ok ["a, b = t"]
  ∧ (let! s := decompile 20 chained_unpack_code in suite_lines s)
    = Ok ["a, b = c = t"].
Proof. split; vm_compute; reflexivity. Qed.

(* ================================================================== *)
(** * Further properties *)
(* ================================================================== *)

(** ** class Stack: round trips and edges *)

Section StackMore.
Context {A : Type} (id : A → positive).

(** The counts are a function of the list. *)
Lemma counts_ok_ext (s s' : Stack A) :
  counts_ok id s → counts_ok id s' → _stack s = _stack s' → s = s'.
Proof.
  intros Hs Hs' Hl. destruct s as [l c], s' as [l' c']. simpl in Hl. subst l'.
  f_equal. apply map_eq. intros k.
  specialize (Hs k). specialize (Hs' k). simpl in *. congruence.
Qed.

(** [stack.push] of the values [xs] followed by [stack.pop(len(xs))] gives
    back [xs],
    in the order they were pushed, and leaves the stack as it was: the
    list and the dictionary of counts. *)
Theorem push_pop_n_round_trip (s : Stack A) (xs : list A) :
  counts_ok id s →
  (push id xs;; pop_n id (Z.of_nat (length xs))) s = (Ok xs, s).
Proof.
  intros Hs.
  destruct (push_spec id xs s Hs) as (s1 & H1 & Hl1 & Hs1).
  destruct (pop_n_spec id xs s1 (_stack s) Hs1 Hl1) as (s2 & H2 & Hl2 & Hs2).
  rewrite (bind_run _ _ _ _ _ H1), H2. f_equal.
  by apply counts_ok_ext.
Qed.

Lemma pop1_empty (s : Stack A) :
  _stack s = [] → pop1 id s = (Raise IndexError, s).
Proof.
  intros Hl. unfold pop1. rewrite (bind_run get _ s s s eq_refl). by rewrite Hl.
Qed.

Lemma list_comp_pop1_short (n : nat) : ∀ (s : Stack A),
  counts_ok id s → (length (_stack s) < n)%nat →
  ∃ s', list_comp n (pop1 id) s = (Raise IndexError, s')
        ∧ _stack s' = [] ∧ counts_ok id s'.
Proof.
  induction n as [|n IH]; intros s Hs Hlen; [lia|].
  destruct (unsnoc (_stack s)) as [[l x]|] eqn:E.
  - apply unsnoc_Some in E.
    destruct (pop1_spec id s l x Hs E) as (s1 & H1 & Hl1 & Hs1).
    destruct (IH s1 Hs1) as (s2 & H2 & Hl2 & Hs2).
    { rewrite E, length_app in Hlen. simpl in Hlen. rewrite Hl1. lia. }
    exists s2. split; [|done].
    change (list_comp (S n) (pop1 id))
      with (pop1 id ≫= λ v, list_comp n (pop1 id) ≫= λ vs, mret (v :: vs)).
    rewrite (bind_run _ _ _ _ _ H1). by rewrite (bind_raise _ _ _ _ _ H2).
  - apply unsnoc_None in E. exists s. split; [|done].
    change (list_comp (S n) (pop1 id))
      with (pop1 id ≫= λ v, list_comp n (pop1 id) ≫= λ vs, mret (v :: vs)).
    by rewrite (bind_raise _ _ _ _ _ (pop1_empty s E)).
Qed.

(** [stack.pop(count)] with more than [len(stack)] raises [IndexError],
    and only after it has popped every value: the stack is left empty. *)
Theorem pop_n_too_many_empties (s : Stack A) (count : Z) :
  counts_ok id s →
  Z.of_nat (length (_stack s)) < count →
  pop_n id count s = (Raise IndexError, Stack_init).
Proof.
  intros Hs Hlen.
  destruct (list_comp_pop1_short (range_len count) s Hs) as (s' & H & Hl & Hs').
  { unfold range_len. lia. }
  unfold pop_n. rewrite (bind_raise _ _ _ _ _ H). f_equal.
  apply counts_ok_ext; [done | apply counts_ok_init | done].
Qed.

(** [stack.peek(count)] is the slice [_stack[-count:]]: it never raises
    and does not change the stack. For [0 < count] it is the last
    [count] values, or all of them when there are fewer; for
    [count == 0] it is the WHOLE list, [-0] being [0]. *)
Theorem peek_n_slice (s : Stack A) (count : Z) :
  0 ≤ count →
  peek_n count s
  = (Ok (if decide (count = 0) then _stack s
         else drop (length (_stack s) - Z.to_nat count) (_stack s)), s).
Proof.
  intros Hc. unfold peek_n. rewrite (bind_run get _ s s s eq_refl).
  unfold mret, M_ret. do 2 f_equal. unfold py_slice_from.
  destruct (decide (count = 0)) as [->|Hne].
  - rewrite decide_False by lia.
    by replace (Z.to_nat ((- 0) `min` Z.of_nat (length (_stack s)))) with O
      by lia.
  - rewrite decide_True by lia. f_equal. lia.
Qed.

End StackMore.

Lemma stack_ops_raise_only_IndexError_witness :
  op_raises id (exec_ops id [OpPush [PyName 1 "a"]; OpPop]) OpPop
  = Some IndexError
  ∧ IndexError = IndexError.
Proof.
  split; [reflexivity|].
  apply (stack_ops_raise_only_IndexError id
           [OpPush [PyName 1 "a"]; OpPop] OpPop IndexError).
  reflexivity.
Defined.

Lemma push_pop_n_round_trip_witness :
  let s := exec_ops id [OpPush [PyName 1 "a"]] in
  (push id [PyName 2 "b"; PyName 1 "a"];; pop_n id 2) s
  = (Ok [PyName 2 "b"; PyName 1 "a"], s).
Proof.
  apply (push_pop_n_round_trip id (exec_ops id [OpPush [PyName 1 "a"]])
           [PyName 2 "b"; PyName 1 "a"]).
  apply exec_ops_ok.
Defined.

Lemma pop_n_too_many_empties_witness :
  pop_n id 3 (exec_ops id [OpPush [PyName 1 "a"; PyName 2 "b"]])
  = (Raise IndexError, Stack_init).
Proof.
  apply (pop_n_too_many_empties id).
  - apply exec_ops_ok.
  - vm_compute. reflexivity.
Defined.

Lemma peek_n_slice_witness :
  let s := exec_ops id [OpPush [PyName 1 "a"; PyName 2 "b"]] in
  peek_n 0 s = (Ok (_stack s), s).
Proof.
  apply (peek_n_slice (exec_ops id [OpPush [PyName 1 "a"; PyName 2 "b"]]) 0).
  lia.
Defined.

(** ** code_walker: what it decodes *)

Lemma code_walker_from_nil i code :
  code_walker_from i code = Ok [] → code = [].
Proof.
  destruct code as [|op rest]; [done|]. simpl.
  destruct (decide (op >= HAVE_ARGUMENT)).
  - destruct rest as [|lo [|hi rest']]; try done.
    by destruct (code_walker_from (i + 3) rest').
  - by destruct (code_walker_from (i + 1) rest).
Qed.

Lemma code_walker_from_decodes n : ∀ code i instrs k p op a,
  (length code ≤ n)%nat →
  code_walker_from i code = Ok instrs →
  instrs !! k = Some (p, (op, a)) →
  i ≤ p ∧ (k = O → p = i)
  ∧ code !! Z.to_nat (p - i) = Some op
  ∧ (if decide (op >= HAVE_ARGUMENT)
     then ∃ lo hi, code !! Z.to_nat (p - i + 1) = Some lo
                   ∧ code !! Z.to_nat (p - i + 2) = Some hi
                   ∧ a = Some (lo + Z.shiftl hi 8)
     else a = None)
  ∧ match instrs !! S k with
    | Some (q, _) => q = p + (if decide (op >= HAVE_ARGUMENT) then 3 else 1)
    | None => p + (if decide (op >= HAVE_ARGUMENT) then 3 else 1)
              = i + Z.of_nat (length code)
    end.
Proof.
  induction n as [|n IH]; intros code i instrs k p op a Hlen H Hk.
  { destruct code; simpl in Hlen; [|lia]. injection H as <-. done. }
  destruct code as [|op0 rest]; simpl in H.
  { injection H as <-. done. }
  simpl in Hlen.
  destruct (decide (op0 >= HAVE_ARGUMENT)) as [Hop|Hop].
  - destruct rest as [|lo [|hi rest']]; try done.
    rbind_inv H as tl Htl. injection H as <-. simpl in Hlen.
    destruct k as [|k]; simpl in Hk.
    + injection Hk as <- <- <-. rewrite decide_True by done.
      split; [lia|]. split; [done|].
      replace (i - i) with 0 by lia. replace (0 + 1) with 1 by lia.
      replace (0 + 2) with 2 by lia. split; [done|].
      split; [by exists lo, hi|].
      simpl. destruct tl as [|[q oa] tl']; simpl.
      * apply code_walker_from_nil in Htl as ->. simpl.
        destruct (decide (op0 >= HAVE_ARGUMENT)); [lia | done].
      * destruct oa as [op1 a1].
        destruct (IH rest' (i + 3) ((q, (op1, a1)) :: tl') O q op1 a1
                    ltac:(lia) Htl eq_refl) as (_ & Hq & _).
        rewrite (Hq eq_refl). by destruct (decide (op0 >= HAVE_ARGUMENT)).
    + destruct (IH rest' (i + 3) tl k p op a ltac:(lia) Htl Hk)
        as (Hle & _ & Hop' & Harg & Hnext).
      split; [lia|]. split; [done|].
      replace (Z.to_nat (p - i)) with (S (S (S (Z.to_nat (p - (i + 3))))))
        by lia.
      split; [done|]. split.
      * destruct (decide (op >= HAVE_ARGUMENT)); [|done].
        destruct Harg as (lo' & hi' & H1 & H2 & ->). exists lo', hi'.
        replace (Z.to_nat (p - i + 1))
          with (S (S (S (Z.to_nat (p - (i + 3) + 1))))) by lia.
        replace (Z.to_nat (p - i + 2))
          with (S (S (S (Z.to_nat (p - (i + 3) + 2))))) by lia.
        done.
      * simpl. destruct (tl !! S k) as [[q oa]|]; [done|]. simpl.
        rewrite Hnext. lia.
  - rbind_inv H as tl Htl. injection H as <-.
    destruct k as [|k]; simpl in Hk.
    + injection Hk as <- <- <-. rewrite decide_False by done.
      split; [lia|]. split; [done|].
      replace (i - i) with 0 by lia. split; [done|]. split; [done|].
      simpl. destruct tl as [|[q oa] tl']; simpl.
      * apply code_walker_from_nil in Htl as ->. simpl.
        destruct (decide (op0 >= HAVE_ARGUMENT)); [done | lia].
      * destruct oa as [op1 a1].
        destruct (IH rest (i + 1) ((q, (op1, a1)) :: tl') O q op1 a1
                    ltac:(lia) Htl eq_refl) as (_ & Hq & _).
        rewrite (Hq eq_refl). by destruct (decide (op0 >= HAVE_ARGUMENT)).
    + destruct (IH rest (i + 1) tl k p op a ltac:(lia) Htl Hk)
        as (Hle & _ & Hop' & Harg & Hnext).
      split; [lia|]. split; [done|].
      replace (Z.to_nat (p - i)) with (S (Z.to_nat (p - (i + 1)))) by lia.
      split; [done|]. split.
      * destruct (decide (op >= HAVE_ARGUMENT)); [|done].
        destruct Harg as (lo' & hi' & H1 & H2 & ->). exists lo', hi'.
        replace (Z.to_nat (p - i + 1))
          with (S (Z.to_nat (p - (i + 1) + 1))) by lia.
        replace (Z.to_nat (p - i + 2))
          with (S (Z.to_nat (p - (i + 1) + 2))) by lia.
        done.
      * simpl. destruct (tl !! S k) as [[q oa]|]; [done|]. simpl.
        rewrite Hnext. lia.
Qed.

(** Every instruction [(p, (op, arg))] that [code_walker] yields is read
    at byte [p] of the code: [op] is [code[p]]; when [op >=
    HAVE_ARGUMENT] the argument is [code[p+1] + (code[p+2] << 8)], and
    otherwise there is none. The first instruction is at 0, each next one
    starts where the previous one ends (3 bytes on, or 1), and the last
    one ends at the end of the code. *)
Theorem code_walker_decodes (code : list Z) (instrs : list instr)
    (k : nat) (p op : Z) (a : option Z) :
  code_walker code = Ok instrs →
  instrs !! k = Some (p, (op, a)) →
  0 ≤ p ∧ (k = O → p = 0)
  ∧ code !! Z.to_nat p = Some op
  ∧ (if decide (op >= HAVE_ARGUMENT)
     then ∃ lo hi, code !! Z.to_nat (p + 1) = Some lo
                   ∧ code !! Z.to_nat (p + 2) = Some hi
                   ∧ a = Some (lo + Z.shiftl hi 8)
     else a = None)
  ∧ match instrs !! S k with
    | Some (q, _) => q = p + (if decide (op >= HAVE_ARGUMENT) then 3 else 1)
    | None => p + (if decide (op >= HAVE_ARGUMENT) then 3 else 1)
              = Z.of_nat (length code)
    end.
Proof.
  intros H Hk.
  pose proof (code_walker_from_decodes (length code) code 0 instrs k p op a
                (le_n _) H Hk) as Hd.
  replace (p - 0) with p in Hd by lia.
  replace (0 + Z.of_nat (length code)) with (Z.of_nat (length code)) in Hd
    by lia.
  exact Hd.
Qed.

Lemma code_walker_decodes_witness :
  let code := co_code if_else_code in
  0 ≤ 3 ∧ (1%nat = O → 3 = 0)
  ∧ code !! Z.to_nat 3 = Some POP_JUMP_IF_FALSE
  ∧ (if decide (POP_JUMP_IF_FALSE >= HAVE_ARGUMENT)
     then ∃ lo hi, code !! Z.to_nat (3 + 1) = Some lo
                   ∧ code !! Z.to_nat (3 + 2) = Some hi
                   ∧ Some 16 = Some (lo + Z.shiftl hi 8)
     else Some 16 = None)
  ∧ match if_else_instrs !! 2%nat with
    | Some (q, _) =>
        q = 3 + (if decide (POP_JUMP_IF_FALSE >= HAVE_ARGUMENT) then 3 else 1)
    | None => 3 + (if decide (POP_JUMP_IF_FALSE >= HAVE_ARGUMENT) then 3 else 1)
              = Z.of_nat (length code)
    end.
Proof.
  apply (code_walker_decodes (co_code if_else_code) if_else_instrs 1 3
           POP_JUMP_IF_FALSE (Some 16)); reflexivity.
Defined.

(** Decoding composes: behind a code that ends at an instruction
    boundary, what follows is decoded as it would be alone, with its
    positions moved by the length of what is before. *)
Lemma code_walker_from_app n : ∀ code i instrs more,
  (length code ≤ n)%nat →
  code_walker_from i code = Ok instrs →
  code_walker_from i (code ++ more)
  = let! r := code_walker_from (i + Z.of_nat (length code)) more in
    Ok (instrs ++ r).
Proof.
  induction n as [|n IH]; intros code i instrs more Hlen H.
  { destruct code; simpl in Hlen; [|lia]. injection H as <-. simpl.
    replace (i + Z.of_nat 0) with i by lia.
    by destruct (code_walker_from i more). }
  destruct code as [|op rest]; simpl in H.
  { injection H as <-. simpl.
    replace (i + Z.of_nat 0) with i by lia.
    by destruct (code_walker_from i more). }
  simpl in Hlen. simpl.
  destruct (decide (op >= HAVE_ARGUMENT)) as [Hop|Hop].
  - destruct rest as [|lo [|hi rest']]; try done.
    rbind_inv H as tl Htl. injection H as <-. simpl in Hlen. simpl.
    rewrite (IH rest' (i + 3) tl more) by (done || lia).
    replace (i + 3 + Z.of_nat (length rest'))
      with (i + Z.of_nat (S (S (S (length rest'))))) by lia.
    by destruct (code_walker_from _ more).
  - rbind_inv H as tl Htl. injection H as <-.
    rewrite (IH rest (i + 1) tl more) by (done || lia).
    replace (i + 1 + Z.of_nat (length rest))
      with (i + Z.of_nat (S (length rest))) by lia.
    by destruct (code_walker_from _ more).
Qed.

(** Decoding composes: when [code] decodes to [instrs], [code ++ more]
    decodes to [instrs] followed by the instructions of [more], at
    positions that start at [len(code)]; it raises when the decoding of
    [more] does. *)
Theorem code_walker_app (code more : list Z) (instrs : list instr) :
  code_walker code = Ok instrs →
  code_walker (code ++ more)
  = let! r := code_walker_from (Z.of_nat (length code)) more in
    Ok (instrs ++ r).
Proof.
  intros H. unfold code_walker.
  by rewrite (code_walker_from_app (length code) code 0 instrs more (le_n _) H).
Qed.

Lemma code_walker_app_witness :
  code_walker ([101; 0; 0] ++ [83])
  = let! r := code_walker_from (Z.of_nat (length [101; 0; 0])) [83] in
    Ok ([(0, (LOAD_NAME, Some 0))] ++ r).
Proof. apply (code_walker_app [101; 0; 0] [83]). reflexivity. Defined.

(** A code cut inside an instruction cannot be decoded: when the last
    opcode takes an argument and fewer than two bytes follow it,
    [code_walker] raises [IndexError], whatever comes before. *)
Theorem code_walker_truncated (code : list Z) (instrs : list instr)
    (op : Z) (tail : list Z) :
  code_walker code = Ok instrs →
  op >= HAVE_ARGUMENT →
  (length tail < 2)%nat →
  code_walker (code ++ op :: tail) = Raise IndexError.
Proof.
  intros H Hop Htail. unfold code_walker.
  rewrite (code_walker_from_app (length code) code 0 instrs _ (le_n _) H).
  simpl. rewrite decide_True by done.
  destruct tail as [|lo [|hi tail]]; simpl in *; try done. lia.
Qed.

Lemma code_walker_truncated_witness :
  code_walker ([101; 0; 0] ++ [100; 1]) = Raise IndexError.
Proof.
  apply (code_walker_truncated [101; 0; 0] [(0, (LOAD_NAME, Some 0))] 100 [1]).
  - reflexivity.
  - vm_compute. discriminate.
  - simpl. lia.
Defined.

(** ** Code.address and Address: round trips and composition *)

(** [code.address(a.addr)] is [a] again, for every Address [a = code[i]]
    of a code whose table was built by [Code.__init__]. *)
Theorem address_of_addr (self : Code) (i : Z) (a : Address) :
  Code_wf self →
  Code_getitem self i = Ok (Some a) →
  address self (addr a) = Ok (Some a).
Proof.
  intros Hwf H. pose proof (Code_getitem_spec self i) as Hs.
  rewrite H in Hs. destruct Hs as (Hi & Hc & Hx & Hl).
  rewrite (address_Some self _ _ _ _ Hwf Hl).
  destruct a as [c ix p op ar]. simpl in *. subst c ix.
  by rewrite Z2Nat.id by lia.
Qed.

Lemma address_of_addr_witness :
  address if_else_Code 13
  = Ok (Some (if_else_Address 5 13 JUMP_FORWARD (Some 7))).
Proof.
  apply (address_of_addr if_else_Code 5
           (if_else_Address 5 13 JUMP_FORWARD (Some 7))).
  - exact if_else_Code_wf.
  - reflexivity.
Defined.

(** [code.address(p)] raises [KeyError] exactly when no instruction
    starts at byte [p]; otherwise it is an Address at [p], never [None]. *)
Theorem address_KeyError_iff (self : Code) (p : Z) :
  Code_wf self →
  (p ∉ fst <$> instr_seq self ↔ address self p = Raise KeyError)
  ∧ (p ∈ fst <$> instr_seq self ↔
     ∃ b, address self p = Ok (Some b) ∧ addr b = p ∧ code b = self).
Proof.
  intros Hwf. pose proof (address_spec self p Hwf) as Hs.
  destruct (address self p) as [[b|]|e] eqn:E; [| done |].
  - destruct Hs as (Hc & Ha & Hl).
    assert (Hin : p ∈ fst <$> instr_seq self).
    { apply list_elem_of_fmap. exists (p, (opcode b, arg b)).
      split; [done|]. by eapply list_elem_of_lookup_2. }
    split; split; try done. by exists b.
  - destruct Hs as [-> Hnot]. split; split; try done.
    by intros (b & ? & _).
Qed.

Lemma address_KeyError_iff_witness :
  (1 ∉ fst <$> instr_seq if_else_Code ↔ address if_else_Code 1 = Raise KeyError)
  ∧ (1 ∈ fst <$> instr_seq if_else_Code ↔
     ∃ b, address if_else_Code 1 = Ok (Some b) ∧ addr b = 1
          ∧ code b = if_else_Code).
Proof. apply (address_KeyError_iff if_else_Code 1). exact if_else_Code_wf. Defined.

(** Subscripts of an Address add up: [a[i][j]] is [a[i + j]] whenever
    [a[i]] is an Address. *)
Theorem Address_getitem_compose (a b : Address) (i j : Z) :
  Address_getitem a i = Ok (Some b) →
  Address_getitem b j = Address_getitem a (i + j).
Proof.
  intros H. pose proof (Code_getitem_spec (code a) (index a + i)) as Hs.
  unfold Address_getitem in *. rewrite H in Hs.
  destruct Hs as (_ & -> & -> & _). f_equal. lia.
Qed.

Lemma Address_getitem_compose_witness :
  Address_getitem (if_else_Address 3 9 131 (Some 0)) (-2)
  = Address_getitem (if_else_Address 0 0 LOAD_NAME (Some 0)) (3 + -2).
Proof.
  apply (Address_getitem_compose (if_else_Address 0 0 LOAD_NAME (Some 0))
           (if_else_Address 3 9 131 (Some 0)) 3 (-2)).
  reflexivity.
Defined.

(** Byte offsets of an Address add up as well: [(a + j) + k] is
    [a + (j + k)] whenever [a + j] is an Address. *)
Theorem Address_add_compose (a b : Address) (j k : Z) :
  Code_wf (code a) →
  Address_add a (Some j) = Ok (Some b) →
  Address_add b (Some k) = Address_add a (Some (j + k)).
Proof.
  intros Hwf H. unfold Address_add in *.
  pose proof (address_spec (code a) (addr a + j) Hwf) as Hs.
  rewrite H in Hs. destruct Hs as (-> & -> & _). f_equal. lia.
Qed.

Lemma Address_add_compose_witness :
  Address_add (if_else_Address 1 3 POP_JUMP_IF_FALSE (Some 16)) (Some 10)
  = Address_add (if_else_Address 0 0 LOAD_NAME (Some 0)) (Some (3 + 10)).
Proof.
  apply (Address_add_compose (if_else_Address 0 0 LOAD_NAME (Some 0))
           (if_else_Address 1 3 POP_JUMP_IF_FALSE (Some 16)) 3 10).
  - exact if_else_Code_wf.
  - reflexivity.
Defined.

(** ** Code.__iter__ and when Code.__init__ succeeds *)

Lemma Address_init_in_range (self : Code) (i : nat) p op a :
  instr_seq self !! i = Some (p, (op, a)) →
  Address_init self (Z.of_nat i)
  = Ok {| code := self; index := Z.of_nat i; addr := p; opcode := op;
          arg := a |}.
Proof.
  intros H. unfold Address_init. apply lookup_lt_Some in H as Hlt.
  rewrite py_index_in_range by lia. by rewrite Nat2Z.id, H.
Qed.

Lemma Code_iter_over_Ok (self : Code) (ixs : list nat) :
  Forall (λ i, (i < length (instr_seq self))%nat) ixs →
  ∃ addrs, Code_iter_over self ixs = Ok addrs
           ∧ Forall2 (λ i a, Code_getitem self (Z.of_nat i) = Ok (Some a))
               ixs addrs.
Proof.
  induction ixs as [|i ixs IH]; intros Hall.
  - exists []. split; [done | constructor].
  - apply Forall_cons in Hall as [Hi Hall].
    destruct (IH Hall) as (addrs & H & Hf).
    destruct (lookup_lt_is_Some_2 _ _ Hi) as [[p [op a]] Hl].
    eexists (_ :: addrs). simpl.
    rewrite (Address_init_in_range _ _ _ _ _ Hl), H. simpl. split; [done|].
    constructor; [|done]. by apply Code_getitem_Some.
Qed.

(** Iterating over a Code never raises: it gives one Address for every
    instruction, the [i]th one being [code[i]]. *)
Theorem Code_iter_yields_every_Address (self : Code) :
  ∃ addrs, Code_iter self = Ok addrs
           ∧ length addrs = length (instr_seq self)
           ∧ ∀ (i : nat) a, addrs !! i = Some a ↔
                            Code_getitem self (Z.of_nat i) = Ok (Some a).
Proof.
  destruct (Code_iter_over_Ok self (seq 0 (length (instr_seq self))))
    as (addrs & H & Hf).
  { apply Forall_forall. intros i Hi. apply elem_of_seq in Hi. lia. }
  exists addrs. split; [done|].
  pose proof (Forall2_length _ _ _ Hf) as Hlen. rewrite length_seq in Hlen.
  split; [done|]. intros i a. split.
  - intros Ha.
    destruct (Forall2_lookup_r _ _ _ _ _ Hf Ha) as (j & Hj & Hg).
    apply lookup_seq in Hj as [-> _]. exact Hg.
  - intros Hg. pose proof (Code_getitem_spec self (Z.of_nat i)) as Hs.
    rewrite Hg in Hs. destruct Hs as (Hi & _).
    assert (Hj : seq 0 (length (instr_seq self)) !! i = Some i).
    { apply lookup_seq. split; [done | lia]. }
    destruct (Forall2_lookup_l _ _ _ _ _ Hf Hj) as (a' & Ha' & Hg').
    rewrite Hg in Hg'. by injection Hg' as <-.
Qed.

Lemma find_else_step_Ok (self : Code) st (i : nat) (a : Address) :
  Code_wf self →
  (∀ i p op a, instr_seq self !! i = Some (p, (op, a)) →
     op ∈ pop_jump_if_opcodes →
     ∃ t j oa, a = Some t ∧ instr_seq self !! S j = Some (t, oa)) →
  (∀ i p a, instr_seq self !! i = Some (p, (JUMP_ABSOLUTE, a)) →
     ∃ t, a = Some t ∧ t ∈ fst <$> instr_seq self) →
  Code_getitem self (Z.of_nat i) = Ok (Some a) →
  ∃ st', find_else_step self st a = Ok st'.
Proof.
  intros Hwf H1 H2 Ha. pose proof (Code_getitem_spec self (Z.of_nat i)) as Hs.
  rewrite Ha in Hs. destruct Hs as (Hi & Hc & Hx & Hl).
  destruct st as [jumps last_jump]. unfold find_else_step.
  destruct (op_in (opcode a) pop_jump_if_opcodes) eqn:Hop.
  - apply bool_decide_eq_true in Hop.
    destruct (H1 _ _ _ _ Hl Hop) as (t & j & [opj aj] & -> & Hj).
    simpl. rewrite (address_Some self _ _ _ _ Hwf Hj). simpl.
    pose proof (Code_getitem_spec self (Z.of_nat (S j) + -1)) as Hp.
    unfold Address_getitem. simpl.
    destruct (Code_getitem self (Z.of_nat (S j) + -1)) as [[prev|]|e];
      [| | done].
    + simpl. destruct (_ || _); eauto.
    + apply lookup_lt_Some in Hj. lia.
  - destruct (bool_decide (opcode a = JUMP_ABSOLUTE)) eqn:Hja.
    + apply bool_decide_eq_true in Hja. rewrite Hja in Hl.
      destruct (H2 _ _ _ Hl) as (t & -> & Hin).
      simpl. pose proof (address_spec self t Hwf) as Hs.
      destruct (address self t) as [[b|]|e]; simpl.
      * destruct (jumps !! index b); eauto.
      * eauto.
      * by destruct Hs.
    + destruct (op_in (opcode a) stmt_opcodes); [|eauto].
      destruct last_jump; eauto.
Qed.

Lemma find_else_loop_Ok (self : Code) (ixs : list nat) :
  Code_wf self →
  (∀ i p op a, instr_seq self !! i = Some (p, (op, a)) →
     op ∈ pop_jump_if_opcodes →
     ∃ t j oa, a = Some t ∧ instr_seq self !! S j = Some (t, oa)) →
  (∀ i p a, instr_seq self !! i = Some (p, (JUMP_ABSOLUTE, a)) →
     ∃ t, a = Some t ∧ t ∈ fst <$> instr_seq self) →
  ∀ addrs st,
    Forall2 (λ i a, Code_getitem self (Z.of_nat i) = Ok (Some a)) ixs addrs →
    ∃ st', find_else_loop self st addrs = Ok st'.
Proof.
  intros Hwf H1 H2 addrs. revert ixs.
  induction addrs as [|a addrs IH]; intros ixs st Hf.
  - by exists st.
  - apply Forall2_cons_inv_r in Hf as (i & ixs' & Ha & Hf & ->).
    destruct (find_else_step_Ok self st i a Hwf H1 H2 Ha) as [st1 Hst1].
    destruct (IH ixs' st1 Hf) as [st2 Hst2].
    exists st2. simpl. by rewrite Hst1.
Qed.

Lemma map_M_alloc_Ok {A} (mk : positive → A → obj) (xs : list A) :
  ∀ h : Heap, ∃ ys h',
    map_M (λ v, i ← alloc; mret (mk i v)) xs h = (Ok ys, h').
Proof.
  induction xs as [|x xs IH]; intros h; simpl.
  - by eexists _, _.
  - unfold mbind at 1, M_bind at 1. simpl.
    destruct (IH {| next_id := Pos.succ (next_id h); unpacks := unpacks h |})
      as (ys & h' & H).
    unfold mbind at 1, M_bind at 1. rewrite H. by eexists _, _.
Qed.

(** [Code(code_obj)] does not raise when the byte code can be decoded,
    every conditional jump ([POP_JUMP_IF_TRUE], [POP_JUMP_IF_FALSE]) is to
    the start of an instruction other than the first one, and every
    [JUMP_ABSOLUTE] is to the start of an instruction. The Code it makes
    holds the decoded instructions. *)
Theorem Code_init_succeeds (co : code_obj) (instrs : list instr) (h : Heap) :
  code_walker (co_code co) = Ok instrs →
  (∀ i p op a, instrs !! i = Some (p, (op, a)) →
     op ∈ pop_jump_if_opcodes →
     ∃ t j oa, a = Some t ∧ instrs !! S j = Some (t, oa)) →
  (∀ i p a, instrs !! i = Some (p, (JUMP_ABSOLUTE, a)) →
     ∃ t, a = Some t ∧ t ∈ fst <$> instrs) →
  ∃ c h', Code_init co h = (Ok c, h')
          ∧ instr_seq c = instrs ∧ name c = co_name co.
Proof.
  intros Hw H1 H2. unfold Code_init.
  rewrite (bind_run alloc _ h _ _ eq_refl).
  set (h1 := {| next_id := Pos.succ (next_id h); unpacks := unpacks h |}).
  destruct (map_M_alloc_Ok PyConst (co_consts co) h1) as (cs & h2 & Hcs).
  rewrite (bind_run _ _ _ _ _ Hcs).
  destruct (map_M_alloc_Ok PyName (co_names co) h2) as (ns & h3 & Hns).
  rewrite (bind_run _ _ _ _ _ Hns).
  destruct (map_M_alloc_Ok PyName (co_varnames co) h3) as (vs & h4 & Hvs).
  rewrite (bind_run _ _ _ _ _ Hvs).
  rewrite Hw. rewrite (bind_run (lift (Ok instrs)) _ h4 instrs h4 eq_refl).
  cbv zeta.
  set (self := {| code_id := next_id h; consts := cs; names := ns;
                  varnames := vs; instr_seq := instrs;
                  instr_map := build_instr_map instrs;
                  name := co_name co; else_jumps := ∅ |}).
  assert (Hwf : Code_wf self).
  { split; [|done]. simpl. by apply code_walker_NoDup in Hw. }
  assert (Hej : ∃ ej, find_else self = Ok ej).
  { unfold find_else.
    destruct (Code_iter_over_Ok self (seq 0 (length (instr_seq self))))
      as (addrs & Hit & Hf).
    { apply Forall_forall. intros i Hi. apply elem_of_seq in Hi. lia. }
    unfold Code_iter. rewrite Hit. simpl.
    destruct (find_else_loop_Ok self _ Hwf H1 H2 addrs (∅, None) Hf)
      as [st' Hst'].
    rewrite Hst'. simpl. eauto. }
  destruct Hej as [ej Hej]. rewrite Hej.
  rewrite (bind_run (lift (Ok ej)) _ h4 ej h4 eq_refl).
  by eexists _, _.
Qed.

Lemma Code_init_succeeds_witness :
  ∃ c h', Code_init if_else_code Heap_init = (Ok c, h')
          ∧ instr_seq c = if_else_instrs ∧ name c = co_name if_else_code.
Proof.
  apply (Code_init_succeeds if_else_code if_else_instrs Heap_init).
  - reflexivity.
  - intros i p op a Hi Hop. apply (bool_decide_pack _) in Hop.
    destruct i as [|[|i]].
    + injection Hi as <- <- <-. vm_compute in Hop. destruct Hop.
    + exists 16, 5%nat, (LOAD_NAME, Some 2). by injection Hi as <- <- <-.
    + do 9 (destruct i as [|i];
            [injection Hi as <- <- <-; vm_compute in Hop; destruct Hop|]).
      discriminate Hi.
  - intros i p a Hi.
    do 11 (destruct i as [|i]; [discriminate Hi|]). discriminate Hi.
Defined.

(** ** SuiteDecompiler.store and PyExpr.store: chained assignments *)

Lemma for_each_app {S A} (xs ys : list A) (body : A → M S unit) (s : S) :
  for_each (xs ++ ys) body s = (for_each xs body;; for_each ys body) s.
Proof.
  revert s. induction xs as [|x xs IH]; intros s; simpl.
  - reflexivity.
  - unfold mbind, M_bind. destruct (body x s) as [[[]|e] s1]; [|done].
    apply IH.
Qed.

Lemma occurrences_replicate (k : positive) (n : nat) (v : obj) :
  occurrences id k (replicate n v)
  = (if decide (id v = k) then n else O).
Proof.
  induction n as [|n IH]; simpl.
  - by destruct (decide _).
  - rewrite IH. by destruct (decide _).
Qed.

(** [dec.store(dest)] when the value on top of the stack is an
    expression: the destination joins the assignment chain, and the
    statement is made only when the value is not on the stack any more. *)
Lemma store_PyExpr (fuel : nat) (dest : obj) (st : State) l v :
  counts_ok id (stack (dec st)) →
  _stack (stack (dec st)) = l ++ [v] →
  is_PyExpr v = true →
  ∃ st', store (S fuel) dest st = (Ok tt, st')
         ∧ counts_ok id (stack (dec st'))
         ∧ _stack (stack (dec st')) = l
         ∧ heap st' = heap st
         ∧ popjump_stack (dec st') = popjump_stack (dec st)
         ∧ if bool_decide (occurrences id (id v) l ≠ O)
           then suite (dec st') = suite (dec st)
                ∧ assignment_chain (dec st')
                  = assignment_chain (dec st) ++ [dest]
           else suite (dec st')
                = add_statement (suite (dec st))
                    (AssignStatement (assignment_chain (dec st) ++ [dest; v]))
                ∧ assignment_chain (dec st') = [].
Proof.
  intros Hs Hl Hexpr.
  destruct (store_S fuel dest st l v Hs Hl) as (s1 & Hl1 & Hs1 & ->).
  rewrite (PyExpr_dispatch v _ _ Hexpr).
  unfold PyExpr_store. unfold get_dec at 1. unfold mbind at 1, M_bind at 1.
  cbn [heap dec stack set_stack set_assignment_chain assignment_chain suite].
  rewrite (contains_occurrences id s1 v Hs1), Hl1.
  destruct (bool_decide (occurrences id (id v) l ≠ O)).
  - eexists. split; [reflexivity|]. simpl. by repeat split.
  - eexists. split; [reflexivity|]. simpl. repeat split; try done.
    by rewrite <- app_assoc.
Qed.

Lemma stores_while_on_stack (fuel : nat) (ds : list obj) :
  ∀ (st : State) base k v,
    counts_ok id (stack (dec st)) →
    _stack (stack (dec st)) = base ++ replicate (length ds + S k) v →
    is_PyExpr v = true →
    ∃ st', for_each ds (store (S fuel)) st = (Ok tt, st')
           ∧ counts_ok id (stack (dec st'))
           ∧ _stack (stack (dec st')) = base ++ replicate (S k) v
           ∧ heap st' = heap st
           ∧ suite (dec st') = suite (dec st)
           ∧ assignment_chain (dec st') = assignment_chain (dec st) ++ ds.
Proof.
  induction ds as [|d ds IH]; intros st base k v Hs Hl Hexpr.
  - exists st. rewrite app_nil_r. by repeat split.
  - change (length (d :: ds) + S k)%nat with (S (length ds + S k)) in Hl.
    rewrite replicate_S_end, app_assoc in Hl.
    destruct (store_PyExpr fuel d st _ v Hs Hl Hexpr)
      as (st1 & H1 & Hs1 & Hl1 & Hh1 & _ & Hout).
    rewrite bool_decide_eq_true_2 in Hout.
    2:{ rewrite occurrences_app, occurrences_replicate.
        rewrite decide_True by done. lia. }
    destruct Hout as [Hsu1 Hch1].
    destruct (IH st1 base k v Hs1 Hl1 Hexpr)
      as (st2 & H2 & Hs2 & Hl2 & Hh2 & Hsu2 & Hch2).
    exists st2.
    change (for_each (d :: ds) (store (S fuel)))
      with (store (S fuel) d ≫= λ _, for_each ds (store (S fuel))).
    rewrite (bind_run _ _ _ _ _ H1). split; [exact H2|].
    repeat split; try done; try congruence.
    rewrite Hch2, Hch1, <- app_assoc. done.
Qed.

(** A chained assignment [d1 = d2 = ... = dn = v]: the value is on top
    of the stack [n] times (after [DUP_TOP]) and nowhere below. The
    first [n - 1] stores pop one copy each and only lengthen the
    assignment chain; the last one adds the single statement, whose
    targets are the destinations in the order of the stores. *)
Theorem chained_assignment_is_one_statement (fuel : nat) (st : State)
    (base : list obj) (v : obj) (ds : list obj) (d : obj) :
  counts_ok id (stack (dec st)) →
  _stack (stack (dec st)) = base ++ replicate (S (length ds)) v →
  is_PyExpr v = true →
  occurrences id (id v) base = O →
  (∃ st1, for_each ds (store (S fuel)) st = (Ok tt, st1)
          ∧ _stack (stack (dec st1)) = base ++ [v]
          ∧ suite (dec st1) = suite (dec st)
          ∧ assignment_chain (dec st1) = assignment_chain (dec st) ++ ds)
  ∧ ∃ st', for_each (ds ++ [d]) (store (S fuel)) st = (Ok tt, st')
           ∧ _stack (stack (dec st')) = base
           ∧ suite (dec st')
             = add_statement (suite (dec st))
                 (AssignStatement (assignment_chain (dec st) ++ ds ++ [d; v]))
           ∧ assignment_chain (dec st') = [].
Proof.
  intros Hs Hl Hexpr Hbase.
  destruct (stores_while_on_stack fuel ds st base O v Hs) as
    (st1 & H1 & Hs1 & Hl1 & Hh1 & Hsu1 & Hch1); [|done|].
  { by rewrite Nat.add_1_r. }
  split; [by exists st1|].
  destruct (store_PyExpr fuel d st1 base v Hs1 Hl1 Hexpr)
    as (st2 & H2 & Hs2 & Hl2 & Hh2 & _ & Hout).
  rewrite bool_decide_eq_false_2 in Hout by (rewrite Hbase; auto).
  destruct Hout as [Hsu2 Hch2].
  exists st2. rewrite for_each_app, (bind_run _ _ _ _ _ H1).
  change (for_each [d] (store (S fuel)))
    with (store (S fuel) d ≫= λ _, mret tt).
  rewrite (bind_run _ _ _ _ _ H2). split; [done|]. split; [done|].
  split; [|done]. rewrite Hsu2, Hsu1, Hch1, <- app_assoc. done.
Qed.

Lemma chained_assignment_is_one_statement_witness :
  let st := chained_state_at_UNPACK_SEQUENCE in
  let t := PyName 3 "t" in
  (∃ st1, for_each [PyName 4 "a"] (store 1) st = (Ok tt, st1)
          ∧ _stack (stack (dec st1)) = [] ++ [t]
          ∧ suite (dec st1) = suite (dec st)
          ∧ assignment_chain (dec st1)
            = assignment_chain (dec st) ++ [PyName 4 "a"])
  ∧ ∃ st', for_each ([PyName 4 "a"] ++ [PyName 5 "b"]) (store 1) st
           = (Ok tt, st')
           ∧ _stack (stack (dec st')) = []
           ∧ suite (dec st')
             = add_statement (suite (dec st))
                 (AssignStatement (assignment_chain (dec st)
                                   ++ [PyName 4 "a"] ++ [PyName 5 "b"; t]))
           ∧ assignment_chain (dec st') = [].
Proof.
  apply (chained_assignment_is_one_statement 0
           chained_state_at_UNPACK_SEQUENCE [] (PyName 3 "t")
           [PyName 4 "a"] (PyName 5 "b")).
  - apply exec_ops_ok.
  - vm_compute. reflexivity.
  - reflexivity.
  - reflexivity.
Defined.

(** ** Unpack.store: nested unpacking *)

(** When the value of an accumulator is itself an accumulator (a nested
    target list such as [(a, b), c = t] or [c, (a, b) = t], without
    starred names), the store that fills the inner one appends the tuple
    of its destinations to the outer accumulator. If that does not fill
    the outer one, no statement is made and the assignment chain is left
    alone; if it does, and the value of the outer one is an expression
    that is not elsewhere on the stack, exactly one assignment is made,
    whose target is the tuple of the outer destinations. *)
Theorem nested_unpack_feeds_the_outer (fuel : nat) (d : obj) (st : State)
    (base : list obj) (u u2 : positive) (U U2 : Unpack)
    (su : Suite) (ch : list obj) :
  unpacking st base 1 u U su ch →
  star_index U = None →
  Z.of_nat (S (length (dests U))) = length_ U →
  val U = UnpackRef u2 →
  u2 ≠ u →
  unpacks (heap st) !! u2 = Some U2 →
  star_index U2 = None →
  (Z.of_nat (S (length (dests U2))) = length_ U2 →
   is_PyExpr (val U2) = true ∧ occurrences id (id (val U2)) base = O) →
  let inner := PyTuple (next_id (heap st)) (dests U ++ [d]) in
  let outer := PyTuple (Pos.succ (next_id (heap st)))
                 (dests U2 ++ [inner]) in
  ∃ st', store (S (S (S fuel))) d st = (Ok tt, st')
         ∧ _stack (stack (dec st')) = base
         ∧ unpacks (heap st') !! u2 = Some (add_dest U2 inner)
         ∧ if decide (Z.of_nat (S (length (dests U2))) = length_ U2)
           then suite (dec st')
                = add_statement su (AssignStatement (ch ++ [outer; val U2]))
                ∧ assignment_chain (dec st') = []
           else suite (dec st') = su ∧ assignment_chain (dec st') = ch.
Proof.
  intros (Hs & Hl & Hu & Hsu & Hch) Hstar Hlen Hval Hne Hu2 Hstar2 Hfull
    inner outer.
  change (replicate 1 (UnpackRef u)) with [UnpackRef u] in Hl.
  destruct (store_S (S (S fuel)) d st _ _ Hs Hl) as (s1 & Hl1 & Hs1 & ->).
  erewrite (Unpack_store_run _ u d _ U); [| exact Hu | exact Hstar].
  cbv zeta. rewrite decide_True by done.
  cbn [heap dec].
  set (h1 := {| next_id := next_id (heap st); unpacks := _ |}).
  destruct (on_stack_push {| heap := h1; dec := set_stack s1 (dec st) |}
              [val U] Hs1) as (s2 & H2 & Hl2 & Hs2).
  rewrite (bind_run _ _ _ _ _ H2).
  rewrite (bind_run _ _ _ _ _ (new_run _ _)).
  cbn [heap dec next_id unpacks] in *.
  match goal with |- context [store (S (S fuel)) ?t ?x] =>
    set (st2 := x); change t with inner
  end.
  assert (Hun : unpacking st2 base 1 u2 U2 su ch).
  { subst st2. unfold unpacking. cbn [heap dec unpacks].
    cbn [set_stack stack suite assignment_chain] in *.
    split; [exact Hs2|]. split; [by rewrite Hl2, Hl1, Hval|].
    split; [subst h1; cbn [unpacks]; by rewrite lookup_insert_ne|].
    split; done. }
  destruct (decide (Z.of_nat (S (length (dests U2))) = length_ U2))
    as [Hf|Hf].
  - destruct (Hfull Hf) as [Hexpr Hocc].
    destruct (store_complete fuel inner st2 base u2 U2 su ch Hun Hstar2 Hf
                Hexpr) as (st' & Hrun & _ & Hb & Hu' & Hres).
    cbv zeta in Hres. rewrite bool_decide_eq_false_2 in Hres by (by rewrite Hocc; auto).
    exists st'. repeat split; try done; apply Hres.
  - destruct (store_partial (S fuel) inner st2 base 0 u2 U2 su ch Hun Hstar2
                Hf) as (st' & Hrun & (_ & Hb & Hu' & Hsu' & Hch') & _).
    exists st'. rewrite app_nil_r in Hb. by repeat split.
Qed.

Example nested_unpack_state_at_b_reached :
  Code_init nested_unpack_code Heap_init
  = (Ok nested_unpack_Code, {| next_id := 7; unpacks := ∅ |})
  ∧ (Handlers.LOAD_NAME (nested_unpack_Address 0 0 LOAD_NAME (Some 0)) 0;;
     Handlers.UNPACK_SEQUENCE
       (nested_unpack_Address 1 3 UNPACK_SEQUENCE (Some 2)) 2;;
     Handlers.UNPACK_SEQUENCE
       (nested_unpack_Address 2 6 UNPACK_SEQUENCE (Some 2)) 2;;
     Handlers.STORE_NAME 2 (nested_unpack_Address 3 9 STORE_NAME (Some 1)) 1)
      (nested_unpack_state {| next_id := 7; unpacks := ∅ |} Stack_init)
    = (Ok (Next None), nested_unpack_state_at_b).
Proof. split; vm_compute; reflexivity. Qed.

Example nested_last_unpack_state_at_b_reached :
  Code_init nested_last_unpack_code Heap_init
  = (Ok nested_last_unpack_Code, {| next_id := 7; unpacks := ∅ |})
  ∧ (Handlers.LOAD_NAME
       (nested_last_unpack_Address 0 0 LOAD_NAME (Some 0)) 0;;
     Handlers.UNPACK_SEQUENCE
       (nested_last_unpack_Address 1 3 UNPACK_SEQUENCE (Some 2)) 2;;
     Handlers.STORE_NAME 2
       (nested_last_unpack_Address 2 6 STORE_NAME (Some 1)) 1;;
     Handlers.UNPACK_SEQUENCE
       (nested_last_unpack_Address 3 9 UNPACK_SEQUENCE (Some 2)) 2;;
     Handlers.STORE_NAME 2
       (nested_last_unpack_Address 4 12 STORE_NAME (Some 2)) 2)
      (nested_last_unpack_state {| next_id := 7; unpacks := ∅ |} Stack_init)
    = (Ok (Next None), nested_last_unpack_state_at_b).
Proof. split; vm_compute; reflexivity. Qed.

(** The store of [b] in [(a, b), c = t], which leaves the outer
    accumulator waiting for [c], and in [c, (a, b) = t], which fills it
    and makes the statement. *)
Lemma nested_unpack_feeds_the_outer_witness :
  (∃ st', store 3 (PyName 5 "b") nested_unpack_state_at_b = (Ok tt, st')
          ∧ _stack (stack (dec st')) = [UnpackRef 7]
          ∧ unpacks (heap st') !! 7%positive
            = Some (add_dest {| val := PyName 3 "t"; length_ := 2;
                                star_index := None; dests := [] |}
                      (PyTuple 9 ([PyName 4 "a"] ++ [PyName 5 "b"])))
          ∧ suite (dec st') = Suite_init
          ∧ assignment_chain (dec st') = [])
  ∧ (∃ st', store 3 (PyName 6 "b") nested_last_unpack_state_at_b
            = (Ok tt, st')
            ∧ _stack (stack (dec st')) = []
            ∧ unpacks (heap st') !! 7%positive
              = Some (add_dest {| val := PyName 3 "t"; length_ := 2;
                                  star_index := None;
                                  dests := [PyName 4 "c"] |}
                        (PyTuple 9 ([PyName 5 "a"] ++ [PyName 6 "b"])))
            ∧ suite (dec st')
              = add_statement Suite_init
                  (AssignStatement
                     ([] ++ [PyTuple 10
                               ([PyName 4 "c"]
                                ++ [PyTuple 9 ([PyName 5 "a"]
                                               ++ [PyName 6 "b"])]);
                             PyName 3 "t"]))
            ∧ assignment_chain (dec st') = []).
Proof.
  split.
  - refine (nested_unpack_feeds_the_outer 0 (PyName 5 "b")
              nested_unpack_state_at_b [UnpackRef 7] 8 7
              {| val := UnpackRef 7; length_ := 2; star_index := None;
                 dests := [PyName 4 "a"] |}
              {| val := PyName 3 "t"; length_ := 2; star_index := None;
                 dests := [] |}
              Suite_init [] _ _ _ _ _ _ _ _).
    + split; [apply exec_ops_ok|]. repeat split; vm_compute; reflexivity.
    + reflexivity.
    + reflexivity.
    + reflexivity.
    + discriminate.
    + vm_compute. reflexivity.
    + reflexivity.
    + simpl. lia.
  - refine (nested_unpack_feeds_the_outer 0 (PyName 6 "b")
              nested_last_unpack_state_at_b [] 8 7
              {| val := UnpackRef 7; length_ := 2; star_index := None;
                 dests := [PyName 5 "a"] |}
              {| val := PyName 3 "t"; length_ := 2; star_index := None;
                 dests := [PyName 4 "c"] |}
              Suite_init [] _ _ _ _ _ _ _ _).
    + split; [apply exec_ops_ok|]. repeat split; vm_compute; reflexivity.
    + reflexivity.
    + reflexivity.
    + reflexivity.
    + discriminate.
    + vm_compute. reflexivity.
    + reflexivity.
    + intros _. split; reflexivity.
Defined.

Example decompile_nested_unpack :
  (let! s := decompile 20 nested_unpack_code in suite_lines s)
  = Ok ["(a, b), c = t"]
  ∧ (let! s := decompile 20 nested_last_unpack_code in suite_lines s)
    = Ok ["c, (a, b) = t"].
Proof. split; vm_compute; reflexivity. Qed.

(** ** UNPACK_EX and the starred destination *)

(** [UNPACK_EX] pops the value and pushes [count] times one new
    accumulator, whose star index is the low byte of the argument. *)
Lemma UNPACK_EX_spec (addr : Address) (counts : Z) (st : State) base v :
  counts_ok id (stack (dec st)) →
  _stack (stack (dec st)) = base ++ [v] →
  let lcount := Z.land counts 255 in
  let count := lcount + Z.shiftr counts 8 + 1 in
  ∃ st', Handlers.UNPACK_EX addr counts st = (Ok (Next None), st')
         ∧ unpacking st' base (Z.to_nat count) (next_id (heap st))
             {| val := v; length_ := count; star_index := Some lcount;
                dests := [] |}
             (suite (dec st)) (assignment_chain (dec st))
         ∧ next_id (heap st') = Pos.succ (next_id (heap st)).
Proof.
  intros Hs Hl lcount count. unfold Handlers.UNPACK_EX.
  fold lcount. fold count. cbv zeta.
  destruct (on_stack_pop st base v Hs Hl) as (s1 & H1 & Hl1 & Hs1).
  rewrite (bind_run _ _ _ _ _ H1).
  rewrite (bind_run _ _ _ _ _ (new_Unpack_run _ _ _ _)). simpl.
  set (u := next_id (heap st)).
  set (h1 := {| next_id := Pos.succ u; unpacks := _ |}).
  assert (Hloop : ∀ n (s : Stack obj),
    counts_ok id s →
    ∃ s', for_each (seq 0 n) (λ _ : nat, on_stack (push id [UnpackRef u]))
            {| heap := h1; dec := set_stack s (dec st) |}
          = (Ok tt, {| heap := h1; dec := set_stack s' (dec st) |})
          ∧ _stack s' = _stack s ++ replicate n (UnpackRef u)
          ∧ counts_ok id s').
  { intros n. generalize 0%nat. induction n as [|n IH]; intros i s Hcs.
    - exists s. simpl. by rewrite app_nil_r.
    - simpl.
      destruct (on_stack_push {| heap := h1; dec := set_stack s (dec st) |}
                  [UnpackRef u] Hcs) as (s2 & H2 & Hl2 & Hs2).
      rewrite (bind_run _ _ _ _ _ H2). simpl in *.
      destruct (IH (S i) s2 Hs2) as (s3 & H3 & Hl3 & Hs3).
      exists s3. split; [exact H3|]. split; [|done].
      by rewrite Hl3, Hl2, <- app_assoc. }
  destruct (Hloop (range_len count) s1 Hs1) as (s' & H' & Hl' & Hs').
  rewrite (bind_run _ _ _ _ _ H').
  eexists. split; [reflexivity|]. split; [|done].
  repeat split; simpl; try done.
  - by rewrite Hl', Hl1.
  - apply lookup_insert_eq.
Qed.

(** [Unpack.store] on an accumulator with a star index: the destination
    stored at that index is wrapped in a new [PyStarred]. *)
Lemma Unpack_store_run_star (dec_store : obj → M State unit) (u : positive)
    (dest : obj) (st : State) (U : Unpack) (si : Z) :
  unpacks (heap st) !! u = Some U →
  star_index U = Some si →
  Unpack_store dec_store u dest st
  = let star := bool_decide (Z.of_nat (length (dests U)) = si) in
    let dest' := if star then PyStarred (next_id (heap st)) dest else dest in
    let nid := if star then Pos.succ (next_id (heap st))
               else next_id (heap st) in
    let st1 := {| heap := {| next_id := nid;
                             unpacks := <[u := add_dest U dest']>
                                          (unpacks (heap st)) |};
                  dec := dec st |} in
    if decide (Z.of_nat (S (length (dests U))) = length_ U)
    then (on_stack (push id [val U]);;
          tup ← new (λ i, PyTuple i (dests U ++ [dest']));
          dec_store tup) st1
    else (Ok tt, st1).
Proof.
  intros Hu Hstar. unfold Unpack_store, add_dest.
  rewrite (bind_run get _ st st st eq_refl).
  rewrite Hu, Hstar. cbv zeta.
  destruct (decide (Z.of_nat (length (dests U)) = si)) as [Hsi|Hsi].
  - rewrite decide_True by congruence.
    rewrite bool_decide_eq_true_2 by done.
    rewrite (bind_run _ _ _ _ _ (new_run _ _)).
    assert (Hlen : ∀ x, length (dests U ++ [x]) = S (length (dests U)))
      by (intros x; rewrite length_app; simpl; apply Nat.add_1_r).
    cbn [dests val length_ star_index]. rewrite Hlen.
    erewrite bind_run by reflexivity.
    destruct (decide (Z.of_nat (S (length (dests U))) = length_ U));
      reflexivity.
  - rewrite decide_False by congruence.
    rewrite bool_decide_eq_false_2 by done.
    rewrite (bind_run (mret dest) _ st dest st eq_refl).
    assert (Hlen : ∀ x, length (dests U ++ [x]) = S (length (dests U)))
      by (intros x; rewrite length_app; simpl; apply Nat.add_1_r).
    cbn [dests val length_ star_index]. rewrite Hlen.
    erewrite bind_run by reflexivity.
    destruct (decide (Z.of_nat (S (length (dests U))) = length_ U));
      reflexivity.
Qed.

Lemma store_partial_star (fuel : nat) (dest : obj) (st : State)
    base k u U su ch si :
  unpacking st base (S k) u U su ch →
  star_index U = Some si →
  Z.of_nat (S (length (dests U))) ≠ length_ U →
  let star := bool_decide (Z.of_nat (length (dests U)) = si) in
  ∃ st', store (S fuel) dest st = (Ok tt, st')
         ∧ unpacking st' base k u
             (add_dest U (if star then PyStarred (next_id (heap st)) dest
                          else dest)) su ch
         ∧ next_id (heap st')
           = if star then Pos.succ (next_id (heap st)) else next_id (heap st).
Proof.
  intros (Hs & Hl & Hu & Hsu & Hch) Hstar Hlen star.
  rewrite replicate_S_end, app_assoc in Hl.
  destruct (store_S fuel dest st _ _ Hs Hl) as (s' & Hl' & Hs' & ->).
  erewrite (Unpack_store_run_star _ u dest _ U si); [| exact Hu | exact Hstar].
  cbv zeta. rewrite decide_False by done. fold star.
  eexists. split; [reflexivity|]. split; [|done].
  repeat split; simpl; try done. apply lookup_insert_eq.
Qed.

Lemma store_complete_star (fuel : nat) (dest : obj) (st : State)
    base u U su ch si :
  unpacking st base 1 u U su ch →
  star_index U = Some si →
  Z.of_nat (S (length (dests U))) = length_ U →
  is_PyExpr (val U) = true →
  occurrences id (id (val U)) base = O →
  let star := bool_decide (Z.of_nat (length (dests U)) = si) in
  let dest' := if star then PyStarred (next_id (heap st)) dest else dest in
  let nid := if star then Pos.succ (next_id (heap st))
             else next_id (heap st) in
  ∃ st', store (S (S fuel)) dest st = (Ok tt, st')
         ∧ _stack (stack (dec st')) = base
         ∧ suite (dec st')
           = add_statement su
               (AssignStatement
                  (ch ++ [PyTuple nid (dests U ++ [dest']); val U]))
         ∧ assignment_chain (dec st') = [].
Proof.
  intros (Hs & Hl & Hu & Hsu & Hch) Hstar Hlen Hexpr Hbase star dest' nid.
  change (replicate 1 (UnpackRef u)) with [UnpackRef u] in Hl.
  destruct (store_S (S fuel) dest st _ _ Hs Hl) as (s1 & Hl1 & Hs1 & ->).
  erewrite (Unpack_store_run_star _ u dest _ U si); [| exact Hu | exact Hstar].
  cbv zeta. rewrite decide_True by done. fold star. fold dest'. fold nid.
  cbn [heap dec].
  match goal with
  | |- context [{| heap := ?h; dec := set_stack s1 (dec st) |}] =>
      set (h1 := h)
  end.
  destruct (on_stack_push {| heap := h1; dec := set_stack s1 (dec st) |}
              [val U] Hs1) as (s2 & H2 & Hl2 & Hs2).
  rewrite (bind_run _ _ _ _ _ H2).
  rewrite (bind_run _ _ _ _ _ (new_run _ _)).
  match goal with |- context [store (S fuel) ?t ?x] =>
    destruct (store_PyExpr fuel t x (_stack s1) (val U))
      as (st' & H' & _ & Hl' & _ & _ & Hout);
      [exact Hs2 | exact Hl2 | exact Hexpr |]
  end.
  rewrite Hl1, bool_decide_eq_false_2 in Hout by (rewrite Hbase; auto).
  destruct Hout as [Hsu' Hch'].
  exists st'. split; [exact H'|]. split; [by rewrite Hl', Hl1|].
  simpl in Hsu', Hch'. rewrite Hsu', Hch'. subst su ch. done.
Qed.

(** Stores that do not reach the star index and do not fill the
    accumulator only append their destinations. *)
Lemma stores_partial_nostar (fuel : nat) (ds : list obj) :
  ∀ (st : State) base k u U su ch si,
    unpacking st base (length ds + k) u U su ch →
    star_index U = Some si →
    (si < Z.of_nat (length (dests U))
     ∨ Z.of_nat (length (dests U) + length ds) ≤ si) →
    Z.of_nat (length (dests U) + length ds) < length_ U →
    ∃ st', for_each ds (store (S fuel)) st = (Ok tt, st')
           ∧ unpacking st' base k u (foldl add_dest U ds) su ch
           ∧ next_id (heap st') = next_id (heap st).
Proof.
  induction ds as [|d ds IH]; intros st base k u U su ch si HU Hstar Hsi Hlen.
  - exists st. by split.
  - change (length (d :: ds) + k)%nat with (S (length ds + k)) in HU.
    destruct (store_partial_star fuel d st base _ u U su ch si HU Hstar)
      as (st1 & H1 & HU1 & Hn1).
    { simpl in Hlen. lia. }
    rewrite bool_decide_eq_false_2 in HU1, Hn1 by (simpl in Hsi; lia).
    destruct (IH st1 base k u (add_dest U d) su ch si HU1 Hstar) as
      (st2 & H2 & HU2 & Hn2).
    { simpl in *. rewrite length_app. simpl. lia. }
    { simpl in *. rewrite length_app. simpl. lia. }
    exists st2.
    change (for_each (d :: ds) (store (S fuel)))
      with (store (S fuel) d ≫= λ _, for_each ds (store (S fuel))).
    rewrite (bind_run _ _ _ _ _ H1). split; [exact H2|].
    split; [exact HU2 | congruence].
Qed.

(** [UNPACK_EX], as in [a, *s, b = v]: with [lcount] destinations before
    the starred one and [rcount] after it (the low byte of the argument
    and the rest), one accumulator is pushed [lcount + rcount + 1]
    times, and the stores of the destinations, in their order, end in
    one assignment statement whose target is the tuple of the
    destinations with the one at index [lcount] wrapped in [PyStarred]. *)
Theorem UNPACK_EX_stars_one_destination (addr : Address) (counts : Z)
    (st : State) (base : list obj) (v : obj)
    (before : list obj) (s : obj) (after : list obj) (fuel : nat) :
  counts_ok id (stack (dec st)) →
  _stack (stack (dec st)) = base ++ [v] →
  is_PyExpr v = true →
  occurrences id (id v) base = O →
  Z.land counts 255 = Z.of_nat (length before) →
  Z.shiftr counts 8 = Z.of_nat (length after) →
  let u := next_id (heap st) in
  ∃ st1 st2,
    Handlers.UNPACK_EX addr counts st = (Ok (Next None), st1)
    ∧ _stack (stack (dec st1))
      = base ++ replicate (length before + length after + 1) (UnpackRef u)
    ∧ for_each (before ++ s :: after) (store (S (S fuel))) st1 = (Ok tt, st2)
    ∧ _stack (stack (dec st2)) = base
    ∧ suite (dec st2)
      = add_statement (suite (dec st))
          (AssignStatement
             (assignment_chain (dec st)
              ++ [PyTuple (Pos.succ (Pos.succ u))
                    (before ++ PyStarred (Pos.succ u) s :: after); v]))
    ∧ assignment_chain (dec st2) = [].
Proof.
  intros Hs Hl Hexpr Hbase Hlc Hrc u.
  destruct (UNPACK_EX_spec addr counts st base v Hs Hl)
    as (st1 & H1 & HU1 & Hn1).
  rewrite Hlc, Hrc in HU1. fold u in HU1, Hn1.
  set (N := (length before + length after + 1)%nat).
  replace (Z.to_nat (Z.of_nat (length before) + Z.of_nat (length after) + 1))
    with N in HU1 by (unfold N; lia).
  replace (Z.of_nat (length before) + Z.of_nat (length after) + 1)
    with (Z.of_nat N) in HU1 by (unfold N; lia).
  set (U0 := {| val := v; length_ := Z.of_nat N;
                star_index := Some (Z.of_nat (length before));
                dests := [] |}) in HU1.
  exists st1.
  (* the destinations before the starred one *)
  destruct (stores_partial_nostar (S fuel) before st1 base
              (S (length after)) u U0
              (suite (dec st)) (assignment_chain (dec st))
              (Z.of_nat (length before))) as (st2 & H2 & HU2 & Hn2).
  { replace (length before + S (length after))%nat with N
      by (unfold N; lia). exact HU1. }
  { reflexivity. }
  { right. simpl. lia. }
  { simpl. unfold N. lia. }
  rewrite foldl_add_dest in HU2. simpl in HU2.
  set (U2 := {| val := v; length_ := Z.of_nat N;
                star_index := Some (Z.of_nat (length before));
                dests := before |}) in HU2.
  destruct after as [|z after _] using rev_ind.
  - (* the starred destination is the last one *)
    destruct (store_complete_star fuel s st2 base u U2
                (suite (dec st)) (assignment_chain (dec st))
                (Z.of_nat (length before)) HU2)
      as (st3 & H3 & Hl3 & Hsu3 & Hch3); try done.
    { simpl. unfold N. simpl. lia. }
    simpl in Hsu3. rewrite bool_decide_eq_true_2 in Hsu3 by done.
    exists st3. split; [exact H1|].
    split; [by destruct HU1 as (_ & ? & _)|].
    rewrite for_each_app, (bind_run _ _ _ _ _ H2).
    change (for_each [s] (store (S (S fuel))))
      with (store (S (S fuel)) s ≫= λ _, mret tt).
    rewrite (bind_run _ _ _ _ _ H3). split; [done|]. split; [done|].
    split; [|done]. rewrite Hsu3, Hn2, Hn1. done.
  - (* destinations follow the starred one *)
    assert (Hla : length (after ++ [z]) = S (length after))
      by (rewrite length_app; simpl; lia).
    rewrite Hla in HU2.
    destruct (store_partial_star (S fuel) s st2 base
                (S (length after)) u U2
                (suite (dec st)) (assignment_chain (dec st))
                (Z.of_nat (length before))) as (st3 & H3 & HU3 & Hn3).
    { exact HU2. }
    { reflexivity. }
    { simpl. unfold N. rewrite Hla. lia. }
    simpl in HU3, Hn3.
    rewrite bool_decide_eq_true_2 in HU3, Hn3 by done.
    rewrite Hn2, Hn1 in HU3, Hn3.
    set (U3 := add_dest U2 (PyStarred (Pos.succ u) s)) in HU3.
    destruct (stores_partial_nostar (S fuel) after st3 base 1 u U3
                (suite (dec st)) (assignment_chain (dec st))
                (Z.of_nat (length before))) as (st4 & H4 & HU4 & Hn4).
    { by rewrite Nat.add_1_r. }
    { reflexivity. }
    { left. simpl. rewrite length_app. simpl. lia. }
    { simpl. rewrite length_app. simpl. unfold N. rewrite Hla. lia. }
    rewrite foldl_add_dest in HU4. simpl in HU4.
    match type of HU4 with unpacking _ _ _ _ ?U _ _ =>
      destruct (store_complete_star fuel z st4 base u U
                  (suite (dec st)) (assignment_chain (dec st))
                  (Z.of_nat (length before)) HU4)
        as (st5 & H5 & Hl5 & Hsu5 & Hch5); try done
    end.
    { simpl. rewrite !length_app. simpl. unfold N. rewrite Hla. lia. }
    simpl in Hsu5.
    rewrite bool_decide_eq_false_2 in Hsu5
      by (rewrite !length_app; simpl; lia).
    exists st5. split; [exact H1|].
    split; [by destruct HU1 as (_ & ? & _)|].
    rewrite for_each_app, (bind_run _ _ _ _ _ H2).
    change (for_each (s :: after ++ [z]) (store (S (S fuel))))
      with (store (S (S fuel)) s
            ≫= λ _, for_each (after ++ [z]) (store (S (S fuel)))).
    rewrite (bind_run _ _ _ _ _ H3).
    rewrite for_each_app, (bind_run _ _ _ _ _ H4).
    change (for_each [z] (store (S (S fuel))))
      with (store (S (S fuel)) z ≫= λ _, mret tt).
    rewrite (bind_run _ _ _ _ _ H5). split; [done|]. split; [done|].
    split; [|done]. rewrite Hsu5, Hn4, Hn3.
    by rewrite <- !app_assoc.
Qed.

Example Code_init_star_unpack :
  Code_init star_unpack_code Heap_init
  = (Ok star_unpack_Code, {| next_id := 7; unpacks := ∅ |}).
Proof. vm_compute; reflexivity. Qed.

Lemma UNPACK_EX_stars_one_destination_witness :
  ∃ st1 st2,
    Handlers.UNPACK_EX (star_unpack_Address 1 3 UNPACK_EX (Some 257)) 257
      state_at_UNPACK_EX = (Ok (Next None), st1)
    ∧ _stack (stack (dec st1)) = [] ++ replicate 3 (UnpackRef 7)
    ∧ for_each ([PyName 4 "a"] ++ PyName 5 "b" :: [PyName 6 "c"]) (store 2) st1
      = (Ok tt, st2)
    ∧ _stack (stack (dec st2)) = []
    ∧ suite (dec st2)
      = add_statement Suite_init
          (AssignStatement
             ([] ++ [PyTuple 9 ([PyName 4 "a"]
                                ++ PyStarred 8 (PyName 5 "b")
                                   :: [PyName 6 "c"]);
                     PyName 3 "t"]))
    ∧ assignment_chain (dec st2) = [].
Proof.
  refine (UNPACK_EX_stars_one_destination
            (star_unpack_Address 1 3 UNPACK_EX (Some 257)) 257
            state_at_UNPACK_EX [] (PyName 3 "t")
            [PyName 4 "a"] (PyName 5 "b") [PyName 6 "c"] 0 _ _ _ _ _ _).
  - apply exec_ops_ok.
  - vm_compute. reflexivity.
  - reflexivity.
  - reflexivity.
  - reflexivity.
  - reflexivity.
Defined.

Example decompile_star_unpack :
  (let! s := decompile 20 star_unpack_code in suite_lines s)
  = Ok ["a, *b, c = t"].
Proof. vm_compute; reflexivity. Qed.

(** ** push_popjump and pop_popjump: the order of the pending jumps *)

(** What the loop of [push_popjump] returns: the entries it popped were
    combined into the condition, the entry it stopped at passes the
    test, and only the heap changed. *)
Lemma popjump_loop_inv jaddr (pending : list popjump) :
  ∀ jcond (st : State) kept jc st',
    popjump_loop jaddr pending jcond st = (Ok (kept, jc), st') →
    ∃ popped, pending = popped ++ kept
              ∧ combine_all popped jcond st = (Ok jc, st')
              ∧ dec st' = dec st
              ∧ match head kept with
                | Some p => popjump_stops jaddr (snd (fst p)) = Ok true
                | None => True
                end.
Proof.
  induction pending as [|[[t a] c] pending IH]; intros jcond st kept jc st' H.
  - injection H as <- <- <-. by exists [].
  - simpl in H. unfold lift in H. unfold mbind at 1, M_bind at 1 in H.
    destruct (popjump_stops jaddr a) as [[|]|e] eqn:Hstop; [| |done].
    + injection H as <- <- <-. exists []. by repeat split.
    + destruct (popjump_combine_total t c jcond st) as (jc1 & h1 & Hc).
      rewrite (bind_run _ _ _ _ _ Hc) in H.
      destruct (IH _ _ _ _ _ H) as (popped & -> & Hall & Hdec & Hhead).
      exists ((t, a, c) :: popped). split; [done|]. split; [|done].
      simpl. by rewrite (bind_run _ _ _ _ _ Hc).
Qed.

Lemma push_popjump_inv jt jaddr jcond (st st1 : State) :
  push_popjump jt jaddr jcond st = (Ok tt, st1) →
  ∃ jaddr' keep pops jc,
    popjump_target jaddr = Ok jaddr'
    ∧ popjump_stack (dec st) = keep ++ pops
    ∧ combine_all (reverse pops) jcond st = (Ok jc, {| heap := heap st1; dec := dec st |})
    ∧ dec st1 = set_popjump_stack (keep ++ [(jt, jaddr', jc)]) (dec st)
    ∧ match last keep with
      | Some p => popjump_stops jaddr' (snd (fst p)) = Ok true
      | None => True
      end.
Proof.
  unfold push_popjump. intros H.
  apply M_bind_Ok in H as (jaddr' & s0 & Ht & H).
  apply lift_Ok in Ht as [Ht ->].
  apply M_bind_Ok in H as (d & s1 & Hd & H). injection Hd as <- <-.
  apply M_bind_Ok in H as ([kept jc] & s2 & Hloop & H).
  injection H as <-.
  apply popjump_loop_inv in Hloop as (popped & Hrev & Hall & Hdec & Hhead).
  exists jaddr', (reverse kept), (reverse popped), jc.
  split; [done|]. split.
  { rewrite <- reverse_app, <- Hrev. by rewrite reverse_involutive. }
  split.
  { rewrite reverse_involutive, Hall. simpl. rewrite <- Hdec. by destruct s2. }
  split; [by rewrite Hdec|].
  by rewrite last_reverse.
Qed.

(** [push_popjump] keeps the pending jumps in order: if before the call
    the target of every entry was at or before the target of the entry
    beneath it, the same holds afterwards, the new entry included. *)
Theorem push_popjump_keeps_order jt jaddr jcond (st st1 : State) :
  popjumps_ordered (popjump_stack (dec st)) →
  push_popjump jt jaddr jcond st = (Ok tt, st1) →
  popjumps_ordered (popjump_stack (dec st1)).
Proof.
  intros Hord H.
  apply push_popjump_inv in H
    as (jaddr' & keep & pops & jc & _ & Hst & _ & -> & Hlast).
  simpl. rewrite Hst in Hord. intros i below above Hb Ha.
  destruct (decide (S i < length keep)%nat) as [Hlt|Hge].
  - rewrite lookup_app_l in Hb by lia. rewrite lookup_app_l in Ha by lia.
    apply (Hord i).
    + by apply lookup_app_l_Some.
    + by apply lookup_app_l_Some.
  - apply lookup_lt_Some in Ha as Hlen. rewrite length_app in Hlen.
    simpl in Hlen. assert (S i = length keep) as Hi by lia.
    rewrite Hi in Ha. rewrite lookup_app_r, Nat.sub_diag in Ha by lia.
    injection Ha as <-. simpl.
    rewrite lookup_app_l in Hb by lia.
    rewrite last_lookup in Hlast. rewrite <- Hi in Hlast. simpl in Hlast.
    by rewrite Hb in Hlast.
Qed.

Lemma push_popjump_keeps_order_witness :
  popjumps_ordered
    (popjump_stack
       (dec (snd (push_popjump true
                    (Some (if_else_Address 1 3 POP_JUMP_IF_FALSE (Some 16)))
                    (PyName 5 "g")
                    (state_with_pending
                       [(false, Some (if_else_Address 3 9 131 (Some 0)),
                         PyName 3 "x")]))))).
Proof.
  apply (push_popjump_keeps_order true
           (Some (if_else_Address 1 3 POP_JUMP_IF_FALSE (Some 16)))
           (PyName 5 "g")
           (state_with_pending
              [(false, Some (if_else_Address 3 9 131 (Some 0)),
                PyName 3 "x")])).
  - intros [|i] below above Hb Ha; [discriminate Ha|].
    destruct i; discriminate Ha.
  - vm_compute. reflexivity.
Defined.

(** [push_popjump] directly followed by [pop_popjump], as the handlers
    of [JUMP_IF_FALSE_OR_POP] and [JUMP_IF_TRUE_OR_POP] call them: the
    second call cannot raise; it gives the condition combined from the
    new one and the entries popped, the top first, and what is left of
    [popjump_stack] is the part of the old stack beneath them. *)
Theorem pop_after_push_popjump jt jaddr jcond (st st1 : State) :
  push_popjump jt jaddr jcond st = (Ok tt, st1) →
  ∃ keep pops jc,
    popjump_stack (dec st) = keep ++ pops
    ∧ fst (combine_all (reverse pops) jcond st) = Ok jc
    ∧ pop_popjump st1
      = (Ok jc, {| heap := heap st1;
                   dec := set_popjump_stack keep (dec st) |}).
Proof.
  intros H.
  apply push_popjump_inv in H
    as (jaddr' & keep & pops & jc & _ & Hst & Hall & Hdec & _).
  exists keep, pops, jc. split; [done|]. split; [by rewrite Hall|].
  unfold pop_popjump, get_dec. unfold mbind at 1, M_bind at 1.
  rewrite Hdec. simpl. rewrite unsnoc_snoc.
  unfold on_dec, mbind, M_bind, mret, M_ret. by rewrite Hdec.
Qed.

Lemma pop_after_push_popjump_witness :
  let st := state_with_pending
              [(false, Some (if_else_Address 3 9 131 (Some 0)),
                PyName 3 "x")] in
  let jaddr := Some (if_else_Address 1 3 POP_JUMP_IF_FALSE (Some 16)) in
  let st1 := snd (push_popjump true jaddr (PyName 5 "g") st) in
  ∃ keep pops jc,
    popjump_stack (dec st) = keep ++ pops
    ∧ fst (combine_all (reverse pops) (PyName 5 "g") st) = Ok jc
    ∧ pop_popjump st1
      = (Ok jc, {| heap := heap st1;
                   dec := set_popjump_stack keep (dec st) |}).
Proof.
  apply (pop_after_push_popjump true
           (Some (if_else_Address 1 3 POP_JUMP_IF_FALSE (Some 16)))
           (PyName 5 "g")
           (state_with_pending
              [(false, Some (if_else_Address 3 9 131 (Some 0)),
                PyName 3 "x")])).
  vm_compute. reflexivity.
Defined.

(** ** Handlers that build expressions *)

Lemma state_eta (st : State) (s : Stack obj) :
  s = stack (dec st) →
  {| heap := heap st; dec := set_stack s (dec st) |} = st.
Proof. intros ->. by destruct st as [h []]. Qed.

(** The handlers made from the table [binary_ops] pop the right operand,
    then the left one, and push one new node [left op right]; nothing
    else of the decompiler changes. *)
Theorem binary_instr_builds_left_op_right (cls : binary_cls) (addr : Address)
    (st : State) (base : list obj) (l r : obj) :
  counts_ok id (stack (dec st)) →
  _stack (stack (dec st)) = base ++ [l; r] →
  ∃ s', Handlers.binary_instr cls addr st
        = (Ok (Next None),
           {| heap := {| next_id := Pos.succ (next_id (heap st));
                         unpacks := unpacks (heap st) |};
              dec := set_stack s' (dec st) |})
        ∧ _stack s' = base ++ [PyBinaryOp (next_id (heap st)) cls l r]
        ∧ counts_ok id s'.
Proof.
  intros Hs Hl. unfold Handlers.binary_instr.
  change (base ++ [l; r]) with (base ++ [l] ++ [r]) in Hl.
  rewrite app_assoc in Hl.
  destruct (on_stack_pop st _ r Hs Hl) as (s1 & H1 & Hl1 & Hs1).
  rewrite (bind_run _ _ _ _ _ H1).
  destruct (on_stack_pop {| heap := heap st; dec := set_stack s1 (dec st) |}
              base l Hs1 Hl1) as (s2 & H2 & Hl2 & Hs2).
  rewrite (bind_run _ _ _ _ _ H2).
  rewrite (bind_run _ _ _ _ _ (new_run _ _)).
  match goal with |- context [on_stack (push id ?xs) ≫= _] =>
    match goal with |- context [_ ?x = _] =>
      destruct (on_stack_push x xs Hs2) as (s3 & H3 & Hl3 & Hs3)
    end
  end.
  rewrite (bind_run _ _ _ _ _ H3).
  exists s3. split; [reflexivity|]. simpl in Hl3. by rewrite Hl3, Hl2.
Qed.

Lemma binary_instr_builds_left_op_right_witness :
  ∃ s', Handlers.binary_instr PySubtract
          (swap_Address 2 6 24 None) state_at_ROT_TWO
        = (Ok (Next None),
           {| heap := {| next_id := Pos.succ (next_id (heap state_at_ROT_TWO));
                         unpacks := unpacks (heap state_at_ROT_TWO) |};
              dec := set_stack s' (dec state_at_ROT_TWO) |})
        ∧ _stack s' = [] ++ [PyBinaryOp (next_id (heap state_at_ROT_TWO))
                               PySubtract (PyName 3 "b") (PyName 4 "a")]
        ∧ counts_ok id s'.
Proof.
  apply (binary_instr_builds_left_op_right PySubtract
           (swap_Address 2 6 24 None) state_at_ROT_TWO []
           (PyName 3 "b") (PyName 4 "a")).
  - apply exec_ops_ok.
  - vm_compute. reflexivity.
Defined.

Lemma ROT_THREE_run (addr : Address) (st : State) base x y z :
  counts_ok id (stack (dec st)) →
  _stack (stack (dec st)) = base ++ [x; y; z] →
  ∃ s', Handlers.ROT_THREE addr st
        = (Ok (Next None), {| heap := heap st; dec := set_stack s' (dec st) |})
        ∧ _stack s' = base ++ [z; x; y] ∧ counts_ok id s'.
Proof.
  intros Hs Hl. unfold Handlers.ROT_THREE.
  destruct (on_stack_pop_n st base [x; y; z] Hs Hl) as (s1 & H1 & Hl1 & Hs1).
  change (Z.of_nat (length [x; y; z])) with 3 in H1.
  rewrite (bind_run _ _ _ _ _ H1).
  destruct (on_stack_push {| heap := heap st; dec := set_stack s1 (dec st) |}
              [z; x; y] Hs1) as (s2 & H2 & Hl2 & Hs2).
  rewrite (bind_run _ _ _ _ _ H2).
  exists s2. split; [reflexivity|]. simpl in Hl2. by rewrite Hl2, Hl1.
Qed.

(** [ROT_THREE] moves the top of the stack under the two values below
    it, so that three of them in a row leave the decompiler as it was:
    the stack list, the counts, and everything else. *)
Theorem ROT_THREE_thrice_is_identity (a1 a2 a3 : Address) (st : State)
    (base : list obj) (x y z : obj) :
  counts_ok id (stack (dec st)) →
  _stack (stack (dec st)) = base ++ [x; y; z] →
  (∃ st1, Handlers.ROT_THREE a1 st = (Ok (Next None), st1)
          ∧ _stack (stack (dec st1)) = base ++ [z; x; y])
  ∧ (Handlers.ROT_THREE a1;; Handlers.ROT_THREE a2;; Handlers.ROT_THREE a3) st
    = (Ok (Next None), st).
Proof.
  intros Hs Hl.
  destruct (ROT_THREE_run a1 st base x y z Hs Hl) as (s1 & H1 & Hl1 & Hs1).
  split; [by eexists|].
  rewrite (bind_run _ _ _ _ _ H1).
  destruct (ROT_THREE_run a2 {| heap := heap st; dec := set_stack s1 (dec st) |}
              base z x y Hs1 Hl1) as (s2 & H2 & Hl2 & Hs2).
  cbn [heap dec] in H2. rewrite (bind_run _ _ _ _ _ H2).
  destruct (ROT_THREE_run a3
              {| heap := heap st;
                 dec := set_stack s2 (set_stack s1 (dec st)) |}
              base y z x Hs2 Hl2) as (s3 & H3 & Hl3 & Hs3).
  cbn [heap dec] in H3. rewrite H3. f_equal.
  assert (s3 = stack (dec st)) as ->.
  { apply (counts_ok_ext id); [done | done | by rewrite Hl3, Hl]. }
  by destruct st as [h []].
Qed.

Lemma ROT_THREE_thrice_is_identity_witness :
  let a := swap_Address 2 6 ROT_THREE None in
  let st := {| heap := heap state_at_ROT_TWO;
               dec := set_stack
                        (exec_ops id [OpPush [PyName 3 "b"; PyName 4 "a";
                                              PyName 3 "b"]])
                        (dec state_at_ROT_TWO) |} in
  (∃ st1, Handlers.ROT_THREE a st = (Ok (Next None), st1)
          ∧ _stack (stack (dec st1))
            = [] ++ [PyName 3 "b"; PyName 3 "b"; PyName 4 "a"])
  ∧ (Handlers.ROT_THREE a;; Handlers.ROT_THREE a;; Handlers.ROT_THREE a) st
    = (Ok (Next None), st).
Proof.
  apply (ROT_THREE_thrice_is_identity
           (swap_Address 2 6 ROT_THREE None) (swap_Address 2 6 ROT_THREE None)
           (swap_Address 2 6 ROT_THREE None)
           {| heap := heap state_at_ROT_TWO;
              dec := set_stack
                       (exec_ops id [OpPush [PyName 3 "b"; PyName 4 "a";
                                             PyName 3 "b"]])
                       (dec state_at_ROT_TWO) |}
           [] (PyName 3 "b") (PyName 4 "a") (PyName 3 "b")).
  - apply exec_ops_ok.
  - vm_compute. reflexivity.
Defined.

Lemma list_comp_pop (vs : list obj) : ∀ (st : State) base,
  counts_ok id (stack (dec st)) →
  _stack (stack (dec st)) = base ++ vs →
  ∃ s', list_comp (length vs) (on_stack (pop id)) st
        = (Ok (reverse vs),
           {| heap := heap st; dec := set_stack s' (dec st) |})
        ∧ _stack s' = base ∧ counts_ok id s'.
Proof.
  induction vs as [|v vs IH] using rev_ind; intros st base Hs Hl.
  - exists (stack (dec st)). rewrite app_nil_r in Hl. simpl.
    unfold mret, M_ret. split; [|done]. f_equal. symmetry.
    by apply state_eta.
  - rewrite app_assoc in Hl. rewrite length_app, Nat.add_1_r.
    destruct (on_stack_pop st _ v Hs Hl) as (s1 & H1 & Hl1 & Hs1).
    destruct (IH {| heap := heap st; dec := set_stack s1 (dec st) |}
                base Hs1 Hl1) as (s2 & H2 & Hl2 & Hs2).
    exists s2. split; [|done].
    change (list_comp (S (length vs)) (on_stack (pop id)))
      with (on_stack (pop id) ≫= λ x,
            list_comp (length vs) (on_stack (pop id)) ≫= λ xs,
            mret (x :: xs)).
    rewrite (bind_run _ _ _ _ _ H1), (bind_run _ _ _ _ _ H2).
    by rewrite reverse_app.
Qed.

(** [BUILD_TUPLE count] pops the [count] topmost values and pushes one
    new [PyTuple] that holds them in the order they were pushed. *)
Theorem BUILD_TUPLE_keeps_stack_order (addr : Address) (st : State)
    (base vs : list obj) :
  counts_ok id (stack (dec st)) →
  _stack (stack (dec st)) = base ++ vs →
  ∃ s', Handlers.BUILD_TUPLE addr (Z.of_nat (length vs)) st
        = (Ok (Next None),
           {| heap := {| next_id := Pos.succ (next_id (heap st));
                         unpacks := unpacks (heap st) |};
              dec := set_stack s' (dec st) |})
        ∧ _stack s' = base ++ [PyTuple (next_id (heap st)) vs]
        ∧ counts_ok id s'.
Proof.
  intros Hs Hl. unfold Handlers.BUILD_TUPLE, range_len.
  rewrite Nat2Z.id.
  destruct (list_comp_pop vs st base Hs Hl) as (s1 & H1 & Hl1 & Hs1).
  rewrite (bind_run _ _ _ _ _ H1), reverse_involutive.
  rewrite (bind_run _ _ _ _ _ (new_run _ _)).
  match goal with |- context [on_stack (push id ?xs) ≫= _] =>
    match goal with |- context [_ ?x = _] =>
      destruct (on_stack_push x xs Hs1) as (s2 & H2 & Hl2 & Hs2)
    end
  end.
  rewrite (bind_run _ _ _ _ _ H2).
  exists s2. split; [reflexivity|]. simpl in Hl2. by rewrite Hl2, Hl1.
Qed.

Lemma BUILD_TUPLE_keeps_stack_order_witness :
  ∃ s', Handlers.BUILD_TUPLE (swap_Address 2 6 BUILD_TUPLE (Some 2))
          (Z.of_nat (length [PyName 3 "b"; PyName 4 "a"])) state_at_ROT_TWO
        = (Ok (Next None),
           {| heap := {| next_id := Pos.succ (next_id (heap state_at_ROT_TWO));
                         unpacks := unpacks (heap state_at_ROT_TWO) |};
              dec := set_stack s' (dec state_at_ROT_TWO) |})
        ∧ _stack s' = [] ++ [PyTuple (next_id (heap state_at_ROT_TWO))
                               [PyName 3 "b"; PyName 4 "a"]]
        ∧ counts_ok id s'.
Proof.
  apply (BUILD_TUPLE_keeps_stack_order
           (swap_Address 2 6 BUILD_TUPLE (Some 2)) state_at_ROT_TWO []
           [PyName 3 "b"; PyName 4 "a"]).
  - apply exec_ops_ok.
  - vm_compute. reflexivity.
Defined.

(** ** RETURN_VALUE *)

(** [RETURN_VALUE] pops the value and writes [return <value>], with two
    exceptions for the constant [None]: anywhere but at the end of the
    code it writes a bare [return], and at the very end of the code (the
    implicit return of every code object) it writes nothing. *)
Theorem RETURN_VALUE_writes (addr : Address) (st : State) (base : list obj)
    (v : obj) (sv : string) :
  counts_ok id (stack (dec st)) →
  _stack (stack (dec st)) = base ++ [v] →
  str v = Ok sv →
  ∃ st', Handlers.RETURN_VALUE addr st = (Ok (Next None), st')
         ∧ _stack (stack (dec st')) = base
         ∧ heap st' = heap st
         ∧ statements (suite (dec st'))
           = statements (suite (dec st))
             ++ match v with
                | PyConst _ VNone =>
                    if decide (0 ≤ index addr + 1
                               < Z.of_nat (length (instr_seq (code addr))))
                    then [SimpleStatement "return"] else []
                | _ => [SimpleStatement ("return " +:+ sv)]
                end.
Proof.
  intros Hs Hl Hv. unfold Handlers.RETURN_VALUE.
  destruct (on_stack_pop st base v Hs Hl) as (s1 & H1 & Hl1 & Hs1).
  rewrite (bind_run _ _ _ _ _ H1).
  assert (Hother :
    ∃ st', (write "return {}" [v];; Handlers.pass)
             {| heap := heap st; dec := set_stack s1 (dec st) |}
           = (Ok (Next None), st')
           ∧ _stack (stack (dec st')) = base
           ∧ heap st' = heap st
           ∧ statements (suite (dec st'))
             = statements (suite (dec st))
               ++ [SimpleStatement ("return " +:+ sv)]).
  { unfold write, lift, on_dec, Handlers.pass, mbind, M_bind, mret, M_ret.
    simpl. rewrite Hv. simpl. rewrite string_app_nil_r.
    eexists. split; [reflexivity|]. by simpl. }
  destruct v as [i [| | |]| | | | | | | |]; try exact Hother.
  clear Hother. unfold Address_getitem, Code_getitem.
  destruct (decide (0 ≤ index addr + 1
                    < Z.of_nat (length (instr_seq (code addr))))) as [Hi|Hi].
  - pose proof (Code_getitem_spec (code addr) (index addr + 1)) as Hc.
    unfold Code_getitem in Hc. rewrite decide_True in Hc by done.
    destruct (Address_init (code addr) (index addr + 1)) as [a|e];
      [|done].
    simpl. unfold lift at 1. unfold mbind at 1, M_bind at 1.
    unfold write, lift, on_dec, Handlers.pass, mbind, M_bind, mret, M_ret.
    simpl. eexists. split; [reflexivity|]. by simpl.
  - unfold lift at 1. unfold mbind at 1, M_bind at 1.
    unfold Handlers.pass, mret, M_ret.
    eexists. split; [reflexivity|]. simpl. by rewrite app_nil_r.
Qed.

Lemma RETURN_VALUE_writes_witness :
  let addr := swap_Address 6 16 RETURN_VALUE None in
  let st := {| heap := heap state_at_ROT_TWO;
               dec := set_stack (exec_ops id [OpPush [PyConst 2 VNone]])
                        (dec state_at_ROT_TWO) |} in
  ∃ st', Handlers.RETURN_VALUE addr st = (Ok (Next None), st')
         ∧ _stack (stack (dec st')) = []
         ∧ heap st' = heap st
         ∧ statements (suite (dec st'))
           = statements (suite (dec st))
             ++ (if decide (0 ≤ index addr + 1
                            < Z.of_nat (length (instr_seq (code addr))))
                 then [SimpleStatement "return"] else []).
Proof.
  apply (RETURN_VALUE_writes (swap_Address 6 16 RETURN_VALUE None)
           {| heap := heap state_at_ROT_TWO;
              dec := set_stack (exec_ops id [OpPush [PyConst 2 VNone]])
                       (dec state_at_ROT_TWO) |}
           [] (PyConst 2 VNone) "None").
  - apply exec_ops_ok.
  - vm_compute. reflexivity.
  - reflexivity.
Defined.

(** ** Comparison chains stay well formed *)

Lemma is_complist_head (l : list (obj + string)) :
  is_complist l = true → ∃ x l', l = inl x :: l'.
Proof. destruct l as [|[x|s] l']; [done| |done]. eauto. Qed.

Lemma is_complist_app_tail n : ∀ (lc rc : list (obj + string)),
  (length lc ≤ n)%nat →
  is_complist lc = true → is_complist rc = true →
  is_complist (lc ++ drop 1 rc) = true
  ∧ (∃ x, last lc = Some (inl x)).
Proof.
  induction n as [|n IH]; intros lc rc Hlen Hl Hr.
  { destruct lc; [done | simpl in Hlen; lia]. }
  destruct lc as [|[x|s] [|[y|o] lc']]; try done.
  - split; [|by exists x].
    destruct rc as [|[y|s] [|[z|o] rc']]; try done.
  - simpl in Hlen. simpl in Hl.
    destruct (IH lc' rc ltac:(lia) Hl Hr) as [Happ [z Hz]].
    split; [exact Happ|]. exists z.
    destruct lc' as [|w lc']; [done|]. exact Hz.
Qed.

Lemma py_index_last {A} (l : list A) (x : A) :
  last l = Some x → py_index l (-1) = Some x.
Proof.
  intros H. rewrite last_lookup in H. unfold py_index.
  assert (length l ≠ O) by (destruct l; [done | simpl; lia]).
  rewrite decide_False by lia. rewrite decide_True by lia.
  rewrite <- H. f_equal. lia.
Qed.

(** The end of [JUMP_IF_FALSE_OR_POP] on two comparisons whose lists
    alternate operands and operators: it never raises, and gives either
    the node [left and right] or one comparison whose list alternates
    again and has one item less than the two together. *)
Theorem and_combine_keeps_complist (st : State) (i j : positive)
    (lc rc : list (obj + string)) :
  is_complist lc = true →
  is_complist rc = true →
  ∃ node h,
    Handlers.and_combine (PyCompare i lc) (PyCompare j rc) st
    = (Ok node, {| heap := h; dec := dec st |})
    ∧ (node = PyBinaryOp (next_id (heap st)) PyBooleanAnd
                (PyCompare i lc) (PyCompare j rc)
       ∨ ∃ c, node = PyCompare (next_id (heap st)) c
              ∧ c = lc ++ drop 1 rc
              ∧ is_complist c = true
              ∧ S (length c) = (length lc + length rc)%nat).
Proof.
  intros Hl Hr.
  destruct (is_complist_app_tail (length lc) lc rc (le_n _) Hl Hr)
    as [Happ [x Hx]].
  destruct (is_complist_head rc Hr) as (y & rc' & ->).
  apply py_index_last in Hx.
  destruct (py_eq y x) eqn:Heq.
  - rewrite (and_combine_chain st i j lc (inl y :: rc') x y); try done.
    eexists _, _. split; [reflexivity|]. right.
    eexists. split; [reflexivity|]. split; [done|]. split; [done|].
    rewrite length_app. simpl. rewrite drop_0. lia.
  - unfold Handlers.and_combine. simpl.
    unfold extends. rewrite Hx. simpl. rewrite Heq.
    unfold lift at 1. unfold mbind at 1, M_bind at 1.
    eexists _, _. split; [reflexivity|]. by left.
Qed.

Lemma and_combine_keeps_complist_witness :
  let lc := [inl (PyName 3 "a"); inr "<"%string; inl (PyName 4 "b")] in
  let rc := [inl (PyName 4 "b"); inr "<"%string; inl (PyName 5 "c")] in
  ∃ node h,
    Handlers.and_combine (PyCompare 7 lc) (PyCompare 8 rc) state_at_ROT_TWO
    = (Ok node, {| heap := h; dec := dec state_at_ROT_TWO |})
    ∧ (node = PyBinaryOp (next_id (heap state_at_ROT_TWO)) PyBooleanAnd
                (PyCompare 7 lc) (PyCompare 8 rc)
       ∨ ∃ c, node = PyCompare (next_id (heap state_at_ROT_TWO)) c
              ∧ c = lc ++ drop 1 rc
              ∧ is_complist c = true
              ∧ S (length c) = (length lc + length rc)%nat).
Proof.
  apply (and_combine_keeps_complist state_at_ROT_TWO 7 8
           [inl (PyName 3 "a"); inr "<"%string; inl (PyName 4 "b")]
           [inl (PyName 4 "b"); inr "<"%string; inl (PyName 5 "c")]);
    reflexivity.
Defined.

(** ** Opcodes without a handler *)

Lemma class_namespace_missing (fuel : nat) (run : run_t) :
  Forall (λ p : string * Z,
            class_namespace fuel run !! p.1 = None
            ↔ p.1 ∈ ["STOP_CODE"; "PRINT_EXPR"; "WITH_CLEANUP";
                     "EXTENDED_ARG"]%string)
    opcode_table.
Proof. apply (bool_decide_unpack _). vm_compute. exact I. Qed.

(** Of the opcodes of CPython 3.2, exactly four have no method in
    [SuiteDecompiler]: for [STOP_CODE], [PRINT_EXPR], [WITH_CLEANUP] and
    [EXTENDED_ARG], [getattr(self, opname[opcode])] raises
    [AttributeError]; for every other opcode it gives a method. *)
Theorem opcodes_without_handler (fuel : nat) (run : run_t)
    (name : string) (op : Z) :
  (name, op) ∈ opcode_table →
  getattr fuel run name = Raise AttributeError
  ↔ name ∈ ["STOP_CODE"; "PRINT_EXPR"; "WITH_CLEANUP"; "EXTENDED_ARG"]%string.
Proof.
  intros Hin.
  pose proof (class_namespace_missing fuel run) as Hall.
  rewrite Forall_forall in Hall. specialize (Hall _ Hin). simpl in Hall.
  rewrite <- Hall. unfold getattr.
  by destruct (class_namespace fuel run !! name).
Qed.

Lemma opcodes_without_handler_witness :
  getattr 0 (λ d, raise OutOfFuel) "EXTENDED_ARG" = Raise AttributeError
  ↔ "EXTENDED_ARG"%string
    ∈ ["STOP_CODE"; "PRINT_EXPR"; "WITH_CLEANUP"; "EXTENDED_ARG"]%string.
Proof.
  apply (opcodes_without_handler 0 (λ d, raise OutOfFuel) "EXTENDED_ARG" 144).
  apply (bool_decide_unpack _). vm_compute. exact I.
Defined.

(** When [run] reaches an instruction whose opcode has no method, it
    raises [AttributeError] and leaves the decompiler as it was. *)
Theorem run_raises_on_opcode_without_handler (fuel : nat) (a : Address)
    (st : State) :
  Address_lt a (end_addr (dec st)) = true →
  opname (opcode a)
  ∈ ["STOP_CODE"; "PRINT_EXPR"; "WITH_CLEANUP"; "EXTENDED_ARG"]%string →
  run_from (S fuel) (Some a) st = (Raise AttributeError, st).
Proof.
  intros Hlt Hop. cbn [run_from].
  rewrite (bind_run get_dec _ st (dec st) st eq_refl). rewrite Hlt.
  match goal with |- context [getattr fuel ?r _] => set (run' := r) end.
  assert (Hg : getattr fuel run' (opname (opcode a)) = Raise AttributeError).
  { rewrite !elem_of_cons, elem_of_nil in Hop.
    destruct Hop as [-> | [-> | [-> | [-> | []]]]]; vm_compute; reflexivity. }
  rewrite Hg. reflexivity.
Qed.

Lemma run_raises_on_opcode_without_handler_witness :
  run_from 1 (Some (swap_Address 2 6 144 (Some 0))) state_at_ROT_TWO
  = (Raise AttributeError, state_at_ROT_TWO).
Proof.
  apply (run_raises_on_opcode_without_handler 0
           (swap_Address 2 6 144 (Some 0)) state_at_ROT_TWO).
  - reflexivity.
  - apply (bool_decide_unpack _). vm_compute. exact I.
Defined.

(** ** The display of statements: indentation *)

Lemma str_app_assoc (a b c : string) :
  ((a +:+ b) +:+ c = a +:+ (b +:+ c))%string.
Proof.
  induction a as [|ch a IH]; [done|].
  change (String ch ((a +:+ b) +:+ c) = String ch (a +:+ (b +:+ c))).
  by rewrite IH.
Qed.

Lemma concat_empty_cons (x : string) (l : list string) :
  String.concat "" (x :: l) = (x +:+ String.concat "" l)%string.
Proof.
  destruct l as [|y l].
  - simpl. by rewrite string_app_nil_r.
  - reflexivity.
Qed.

Lemma concat_empty_snoc (l : list string) (x : string) :
  String.concat "" (l ++ [x]) = (String.concat "" l +:+ x)%string.
Proof.
  induction l as [|y l IH].
  - reflexivity.
  - change ((y :: l) ++ [x]) with (y :: (l ++ [x])).
    by rewrite !concat_empty_cons, IH, str_app_assoc.
Qed.

Lemma str_mul_succ (u : string) (n : Z) :
  0 ≤ n → str_mul u (n + 1) = (str_mul u n +:+ u)%string.
Proof.
  intros Hn. unfold str_mul.
  replace (Z.to_nat (n + 1)) with (S (Z.to_nat n)) by lia.
  by rewrite replicate_S_end, concat_empty_snoc.
Qed.

Lemma str_mul_neg (u : string) (n : Z) : n ≤ 0 → str_mul u n = ""%string.
Proof.
  intros Hn. unfold str_mul. by replace (Z.to_nat n) with O by lia.
Qed.

(** What is indented one level deeper is indented. *)
Lemma indented_add (ind : Display.IndentString) (line : string) :
  indented (Display.add ind 1) line → indented ind line.
Proof.
  intros [rest ->]. unfold indented. simpl.
  destruct (decide (0 ≤ Display.level ind)) as [Hl|Hl].
  - rewrite str_mul_succ by done. rewrite str_app_assoc. eauto.
  - rewrite (str_mul_neg _ (Display.level ind)) by lia. eauto.
Qed.

Lemma write_lines (ind : Display.IndentString) pattern args lines lines' :
  Display.write ind pattern args lines = (Ok tt, lines') →
  ∃ line, lines' = lines ++ [line] ∧ indented ind line.
Proof.
  unfold Display.write. intros H.
  apply M_bind_Ok in H as (p & s & Hp & H). apply lift_Ok in Hp as [_ ->].
  injection H as <-. eexists. split; [done|]. by eexists.
Qed.

Lemma display_go_for_each (ind : Display.IndentString)
    (ss : list Display.statement) :
  (fix go (ss : list Display.statement) : M (list string) unit :=
     match ss with
     | [] => mret tt
     | s :: ss' => Display.display s ind false;; go ss'
     end) ss
  = for_each ss (λ s, Display.display s ind false).
Proof. induction ss as [|s ss IH]; [done|]. simpl. by rewrite IH. Qed.

Lemma statement_nested_ind (P : Display.statement → Prop) :
  (∀ v, P (Display.SimpleStatement v)) →
  (∀ ch, P (Display.AssignStatement ch)) →
  (∀ c t f, Forall P t → Forall P f → P (Display.IfStatement c t f)) →
  (∀ c b, Forall P b → P (Display.WhileStatement c b)) →
  ∀ s, P s.
Proof.
  intros H1 H2 H3 H4. fix IH 1. intros [v|ch|c t f|c b].
  - apply H1.
  - apply H2.
  - apply H3.
    + induction t as [|s t IHt]; constructor; [apply IH | exact IHt].
    + induction f as [|s f IHf]; constructor; [apply IH | exact IHf].
  - apply H4. induction b as [|s b IHb]; constructor; [apply IH | exact IHb].
Qed.

Lemma for_each_display_ok (ss : list Display.statement) :
  Forall display_ok ss →
  ∀ ind lines lines',
    for_each ss (λ s, Display.display s ind false) lines = (Ok tt, lines') →
    ∃ new, lines' = lines ++ new ∧ (ss ≠ [] → new ≠ [])
           ∧ Forall (indented ind) new.
Proof.
  induction 1 as [|s ss Hs Hss IH]; intros ind lines lines' H.
  - injection H as <-. exists []. by rewrite app_nil_r.
  - simpl in H. apply M_bind_Ok in H as ([] & l1 & H1 & H).
    destruct (Hs _ _ _ _ H1) as (new1 & -> & Hne & Hall1).
    destruct (IH _ _ _ H) as (new2 & -> & _ & Hall2).
    exists (new1 ++ new2). rewrite app_assoc. split; [done|]. split.
    + intros _ Happ. apply app_eq_nil in Happ as [? _]. done.
    + by apply Forall_app.
Qed.

Lemma Suite_display_body_ok (ss : list Display.statement) ind lines lines' :
  Forall display_ok ss →
  match ss with
  | [] => Display.write ind "pass" []
  | _ => for_each ss (λ s, Display.display s ind false)
  end lines = (Ok tt, lines') →
  ∃ new, lines' = lines ++ new ∧ new ≠ [] ∧ Forall (indented ind) new.
Proof.
  intros Hall H. destruct ss as [|s ss].
  - apply write_lines in H as (line & -> & Hl).
    exists [line]. split; [done|]. split; [done|]. by constructor.
  - destruct (for_each_display_ok _ Hall _ _ _ H) as (new & -> & Hne & Hi).
    exists new. split; [done|]. split; [by apply Hne | done].
Qed.

Lemma Forall_indented_add ind (new : list string) :
  Forall (indented (Display.add ind 1)) new → Forall (indented ind) new.
Proof.
  intros H. eapply Forall_impl; [exact H|]. intros l. apply indented_add.
Qed.

Lemma display_statement_ok (s : Display.statement) : display_ok s.
Proof.
  induction s as [v|ch|c t f Ht Hf|c b Hb] using statement_nested_ind;
    intros ind e lines lines' H.
  - simpl in H. apply write_lines in H as (line & -> & Hl).
    exists [line]. split; [done|]. split; [done|]. by constructor.
  - simpl in H. apply M_bind_Ok in H as (l0 & s0 & Hl0 & H).
    apply lift_Ok in Hl0 as [_ ->].
    apply write_lines in H as (line & -> & Hl).
    exists [line]. split; [done|]. split; [done|]. by constructor.
  - cbn [Display.display] in H. rewrite !display_go_for_each in H.
    apply M_bind_Ok in H as ([] & l1 & H1 & H).
    apply write_lines in H1 as (line & -> & Hl).
    apply M_bind_Ok in H as ([] & l2 & H2 & H).
    destruct (Suite_display_body_ok t _ _ _ Ht H2) as (new2 & -> & _ & Hi2).
    apply Forall_indented_add in Hi2.
    assert (Helse :
      (Display.write ind "else:" [];;
       for_each f (λ s, Display.display s (Display.add ind 1) false))
        ((lines ++ [line]) ++ new2) = (Ok tt, lines') →
      ∃ new, lines' = lines ++ new ∧ new ≠ [] ∧ Forall (indented ind) new).
    { intros He. apply M_bind_Ok in He as ([] & l3 & H3 & He).
      apply write_lines in H3 as (line3 & -> & Hl3).
      destruct (for_each_display_ok _ Hf _ _ _ He) as (new4 & -> & _ & Hi4).
      apply Forall_indented_add in Hi4.
      exists ([line] ++ new2 ++ [line3] ++ new4).
      split; [by rewrite <- !app_assoc|]. split; [done|].
      repeat (apply Forall_app; split); try done; by constructor. }
    destruct f as [|s0 f].
    + injection H as <-. exists ([line] ++ new2).
      split; [by rewrite <- app_assoc|]. split; [done|].
      apply Forall_app. split; [by constructor | done].
    + destruct s0 as [v|ch|c0 t0 f0|c0 b0]; try (by apply Helse).
      destruct f as [|s1 f]; [|by apply Helse].
      apply Forall_cons in Hf as [Hs0 _].
      destruct (Hs0 _ _ _ _ H) as (new3 & -> & _ & Hi3).
      exists ([line] ++ new2 ++ new3).
      split; [by rewrite <- !app_assoc|]. split; [done|].
      repeat (apply Forall_app; split); try done; by constructor.
  - cbn [Display.display] in H. rewrite !display_go_for_each in H.
    apply M_bind_Ok in H as ([] & l1 & H1 & H).
    apply write_lines in H1 as (line & -> & Hl).
    destruct (Suite_display_body_ok b _ _ _ Hb H) as (new2 & -> & _ & Hi2).
    apply Forall_indented_add in Hi2.
    exists ([line] ++ new2).
    split; [by rewrite <- app_assoc|]. split; [done|].
    apply Forall_app. split; [by constructor | done].
Qed.

(** [Suite.display] keeps the lines already written and adds at least
    one line (an empty suite is displayed as [pass]); every line it adds,
    at whatever depth of nested [if], [elif], [else] and [while], starts
    with the indentation of the suite, [" " * step * level]. *)
Theorem Suite_display_indents (statements : list Display.statement)
    (ind : Display.IndentString) (lines lines' : list string) :
  Display.Suite_display statements ind lines = (Ok tt, lines') →
  ∃ new, lines' = lines ++ new ∧ new ≠ [] ∧ Forall (indented ind) new.
Proof.
  intros H. apply (Suite_display_body_ok statements ind lines lines');
    [|exact H].
  apply Forall_forall. intros s _. apply display_statement_ok.
Qed.

Lemma Suite_display_indents_witness :
  let ss := [Display.IfStatement (PyName 1 "a")
               [Display.SimpleStatement "f()"]
               [Display.IfStatement (PyName 2 "b") []
                  [Display.WhileStatement (PyName 3 "c")
                     [Display.AssignStatement [PyName 4 "x"; PyName 5 "y"]]]]] in
  let ind := {| Display.level := 1; Display.step := 4 |} in
  ∃ new, ["def f():"%string; "    if a:"; "        f()"; "    elif b:";
          "        pass"; "    else:"; "        while c:";
          "            x = y"]
         = ["def f():"%string] ++ new
         ∧ new ≠ [] ∧ Forall (indented ind) new.
Proof.
  apply (Suite_display_indents
           [Display.IfStatement (PyName 1 "a")
              [Display.SimpleStatement "f()"]
              [Display.IfStatement (PyName 2 "b") []
                 [Display.WhileStatement (PyName 3 "c")
                    [Display.AssignStatement [PyName 4 "x"; PyName 5 "y"]]]]]
           {| Display.level := 1; Display.step := 4 |}
           ["def f():"%string]).
  vm_compute. reflexivity.
Defined.

(** ** IndentString.sep *)

(** [sep] never leaves the list of lines without a blank last line, and
    never adds a second one: it appends one blank line unless the last
    line is blank already, so that calling it twice is calling it once. *)
Theorem sep_is_idempotent (lines : list string) :
  ∃ lines', Display.sep lines = (Ok tt, lines')
            ∧ last lines' = Some ""%string
            ∧ (lines' = lines ∨ (lines' = lines ++ [""%string]
                                 ∧ last lines ≠ Some ""%string))
            ∧ (Display.sep;; Display.sep) lines = (Ok tt, lines').
Proof.
  assert (Hsep : ∀ l, Display.sep l
                      = (Ok tt, match last l with
                                | Some EmptyString => l
                                | _ => l ++ [""%string]
                                end)).
  { intros l. unfold Display.sep. rewrite (bind_run get _ l l l eq_refl).
    by destruct (last l) as [[|??]|]. }
  eexists. split; [apply Hsep|].
  rewrite (bind_run _ _ _ _ _ (Hsep lines)), Hsep.
  destruct (last lines) as [[|c s]|] eqn:E.
  - rewrite E. split; [done|]. split; [by left | done].
  - rewrite last_snoc. split; [done|]. split; [by right | done].
  - rewrite last_snoc. split; [done|]. split; [by right | done].
Qed.

(** ** FunctionDefinition.getparams *)

Lemma py_slice_to_app {A} (l more : list A) :
  py_slice_to (l ++ more) (Z.of_nat (length l)) = l.
Proof.
  unfold py_slice_to. rewrite decide_False by lia. rewrite length_app.
  replace (Z.to_nat (Z.of_nat (length l)
                     `min` Z.of_nat (length l + length more)))
    with (length l) by lia.
  by rewrite take_app_length.
Qed.

Lemma py_index_app_r {A} (l more : list A) (k : nat) :
  py_index (l ++ more) (Z.of_nat (length l) + Z.of_nat k) = more !! k.
Proof.
  unfold py_index. rewrite length_app.
  destruct (more !! k) as [x|] eqn:E.
  - apply lookup_lt_Some in E as Hlt. rewrite decide_True by lia.
    replace (Z.to_nat (Z.of_nat (length l) + Z.of_nat k))
      with (length l + k)%nat by lia.
    by rewrite lookup_app_r, Nat.add_comm, Nat.add_sub by lia.
  - apply lookup_ge_None in E. rewrite decide_False by lia.
    by rewrite decide_False by lia.
Qed.

Lemma format_eq (p a : string) :
  format "{}={}" [p; a] = Ok (p +:+ "=" +:+ a)%string.
Proof.
  change (format "{}={}" [p; a]) with (Ok (p +:+ String "=" (a +:+ ""))).
  by rewrite string_app_nil_r.
Qed.

(** The loop over the reversed defaults works its way back from the last
    parameter. *)
Lemma getparams_defaults_spec (rds : list obj) :
  ∀ (rstrs front done_ : list string),
    Forall2 (λ d s, str d = Ok s) rds rstrs →
    (length rds ≤ length front)%nat →
    getparams_defaults (Z.of_nat (length done_)) rds (front ++ done_)
    = Ok (take (length front - length rds) front
          ++ zip_with (λ n s, n +:+ "=" +:+ s)%string
               (drop (length front - length rds) front) (reverse rstrs)
          ++ done_).
Proof.
  induction rds as [|d rds IH]; intros rstrs front done_ Hstr Hlen.
  - apply Forall2_nil_inv_l in Hstr as ->. simpl.
    rewrite Nat.sub_0_r, firstn_all, drop_all. simpl. done.
  - apply Forall2_cons_inv_l in Hstr as (s & rstrs' & Hs & Hstr & ->).
    simpl in Hlen.
    destruct front as [|p front _] using rev_ind; [simpl in Hlen; lia|].
    rewrite length_app in Hlen. simpl in Hlen.
    cbn [getparams_defaults].
    assert (Hix : py_index ((front ++ [p]) ++ done_)
                    (- Z.of_nat (length done_) - 1) = Some p).
    { unfold py_index. rewrite !length_app. simpl.
      rewrite decide_False by lia. rewrite decide_True by lia.
      replace (Z.to_nat _) with (length front + 0)%nat by lia.
      rewrite <- app_assoc. by rewrite lookup_app_r, Nat.add_comm,
        Nat.add_sub by lia. }
    rewrite Hix. cbn [need rbind]. rewrite Hs. cbn [rbind].
    rewrite format_eq. cbn [rbind].
    assert (Hset : py_setitem ((front ++ [p]) ++ done_)
                     (- Z.of_nat (length done_) - 1) (p +:+ "=" +:+ s)%string
                   = Some (front ++ (p +:+ "=" +:+ s)%string :: done_)).
    { unfold py_setitem. rewrite !length_app. simpl.
      rewrite decide_False by lia. rewrite decide_True by lia.
      replace (Z.to_nat _) with (length front + 0)%nat by lia.
      rewrite <- app_assoc. by rewrite insert_app_r. }
    rewrite Hset. cbn [need rbind].
    replace (Z.of_nat (length done_) + 1)
      with (Z.of_nat (length ((p +:+ "=" +:+ s)%string :: done_)))
      by (simpl; lia).
    rewrite (IH rstrs' front _ Hstr) by lia.
    f_equal. rewrite length_app. simpl.
    replace (length front + 1 - S (length rds))%nat
      with (length front - length rds)%nat by lia.
    rewrite take_app_le by lia. rewrite drop_app_le by lia.
    rewrite reverse_cons.
    rewrite zip_with_app.
    2:{ rewrite length_drop, length_reverse.
        apply Forall2_length in Hstr. lia. }
    simpl. by rewrite <- !app_assoc.
Qed.

Lemma getparams_kwonly_spec (pos rest : list string) (kd : gmap string obj)
    (kw2 : list string) :
  ∀ kw1 : list string,
    (∀ n d, n ∈ kw2 → kd !! n = Some d → ∃ a, str d = Ok a) →
    getparams_kwonly (pos ++ (kw1 ++ kw2) ++ rest) (Some kd)
      (Z.of_nat (length pos)) (seq (length kw1) (length kw2))
    = Ok (map (kwparam kd) kw2).
Proof.
  induction kw2 as [|n kw2 IH]; intros kw1 Hstr; [done|].
  cbn [getparams_kwonly seq length].
  rewrite py_index_app_r. rewrite <- app_assoc.
  rewrite lookup_app_r, Nat.sub_diag by lia.
  change (((n :: kw2) ++ rest) !! 0%nat) with (Some n).
  cbn [need rbind].
  assert (Hp : match kd !! n with
               | Some d => let! a := str d in format "{}={}" [n; a]
               | None => Ok n
               end = Ok (kwparam kd n)).
  { unfold kwparam. destruct (kd !! n) as [d|] eqn:E; [|done].
    destruct (Hstr n d) as [a Ha]; [apply list_elem_of_here | done |].
    rewrite Ha. cbn [rbind]. apply format_eq. }
  rewrite Hp. cbn [rbind].
  replace (pos ++ kw1 ++ (n :: kw2) ++ rest)
    with (pos ++ ((kw1 ++ [n]) ++ kw2) ++ rest)
    by (by rewrite <- !app_assoc).
  replace (S (length kw1)) with (length (kw1 ++ [n]))
    by (rewrite length_app; simpl; lia).
  rewrite IH; [done|].
  intros m d Hm. apply Hstr. by apply list_elem_of_further.
Qed.

(** The parameter list of a function, in closed form. With the names of
    [co_varnames] laid out as CPython has them (the [co_argcount]
    positional ones, the keyword-only ones, then the names of [*args]
    and [**kwargs] when the flags say so): the defaults go to the LAST
    positional parameters, in their order; then comes [*name], or a bare
    [*] when there are keyword-only parameters and no [*args]; then the
    keyword-only parameters, each with its default if it has one; then
    [**name]. *)
Theorem getparams_closed_form (pos kw rest : list string) (flags : Z)
    (ds : list obj) (dstrs : list string) (kd : gmap string obj)
    (va vk : string) :
  (length ds ≤ length pos)%nat →
  Forall2 (λ d s, str d = Ok s) ds dstrs →
  (∀ n d, n ∈ kw → kd !! n = Some d → ∃ a, str d = Ok a) →
  (Z.land flags VARARGS ≠ 0 → rest !! O = Some va) →
  (Z.land flags VARKEYWORDS ≠ 0 →
   rest !! (if decide (Z.land flags VARARGS ≠ 0) then 1%nat else O)
   = Some vk) →
  getparams (Z.of_nat (length pos)) (Z.of_nat (length kw)) flags
    (pos ++ kw ++ rest) (Some ds) (Some kd)
  = Ok (take (length pos - length ds) pos
        ++ zip_with (λ n s, n +:+ "=" +:+ s)%string
             (drop (length pos - length ds) pos) dstrs
        ++ (if decide (Z.land flags VARARGS ≠ 0) then ["*" +:+ va]%string
            else match kw with [] => [] | _ => ["*"%string] end)
        ++ map (kwparam kd) kw
        ++ (if decide (Z.land flags VARKEYWORDS ≠ 0)
            then ["**" +:+ vk]%string else [])).
Proof.
  intros Hlen Hstr Hkd Hva Hvk. unfold getparams.
  rewrite py_slice_to_app.
  set (params := take (length pos - length ds) pos
                 ++ zip_with (λ n s, n +:+ "=" +:+ s)%string
                      (drop (length pos - length ds) pos) dstrs).
  assert (Hd : match ds with
               | [] => Ok pos
               | _ :: _ => getparams_defaults 0 (reverse ds) pos
               end = Ok params).
  { pose proof (getparams_defaults_spec (reverse ds) (reverse dstrs) pos []
                  ltac:(by apply Forall2_reverse)) as Hs.
    rewrite length_reverse, reverse_involutive, !app_nil_r in Hs.
    specialize (Hs Hlen). destruct ds; exact Hs. }
  rewrite Hd. cbn [rbind]. clear Hd.
  assert (Hk : (if decide (Z.of_nat (length kw) ≠ 0)
                then getparams_kwonly (pos ++ kw ++ rest) (Some kd)
                       (Z.of_nat (length pos))
                       (seq 0 (range_len (Z.of_nat (length kw))))
                else Ok []) = Ok (map (kwparam kd) kw)).
  { destruct (decide (Z.of_nat (length kw) ≠ 0)) as [Hne|Heq].
    - unfold range_len. rewrite Nat2Z.id.
      apply (getparams_kwonly_spec pos rest kd kw [] Hkd).
    - destruct kw; [done | simpl in Heq; lia]. }
  rewrite Hk. cbn [rbind]. clear Hk.
  assert (Hl : (if decide (Z.of_nat (length kw) ≠ 0)
                then Z.of_nat (length pos) + Z.of_nat (length kw)
                else Z.of_nat (length pos))
               = Z.of_nat (length (pos ++ kw)) + Z.of_nat 0).
  { rewrite length_app. destruct (decide (Z.of_nat (length kw) ≠ 0)); lia. }
  rewrite Hl. clear Hl.
  assert (Hix : ∀ k : nat,
    py_index (pos ++ kw ++ rest) (Z.of_nat (length (pos ++ kw)) + Z.of_nat k)
    = rest !! k).
  { intros k. rewrite app_assoc. apply py_index_app_r. }
  destruct (decide (Z.land flags VARARGS ≠ 0)) as [Hv|Hv].
  - rewrite Hix, (Hva Hv). cbn [need rbind fst snd].
    replace (Z.of_nat (length (pos ++ kw)) + Z.of_nat 0 + 1)
      with (Z.of_nat (length (pos ++ kw)) + Z.of_nat 1) by lia.
    destruct (decide (Z.land flags VARKEYWORDS ≠ 0)) as [Hw|Hw].
    + rewrite Hix, (Hvk Hw). cbn [need rbind].
      unfold params. by rewrite <- !app_assoc.
    + unfold params. by rewrite <- !app_assoc, app_nil_r.
  - assert (Hstar :
      match map (kwparam kd) kw with
      | [] => Ok (params, Z.of_nat (length (pos ++ kw)) + Z.of_nat 0)
      | _ :: _ => Ok (params ++ ["*"%string],
                      Z.of_nat (length (pos ++ kw)) + Z.of_nat 0)
      end = Ok (params ++ match kw with [] => [] | _ => ["*"%string] end,
                Z.of_nat (length (pos ++ kw)) + Z.of_nat 0)).
    { destruct kw; simpl; [by rewrite (app_nil_r params) | done]. }
    rewrite Hstar. cbn [rbind fst snd]. clear Hstar.
    destruct (decide (Z.land flags VARKEYWORDS ≠ 0)) as [Hw|Hw].
    + rewrite Hix, (Hvk Hw). cbn [need rbind].
      unfold params. by rewrite <- !app_assoc.
    + unfold params. by rewrite <- !app_assoc, app_nil_r.
Qed.

Lemma getparams_closed_form_witness :
  getparams 3 2 12 ["a"; "b"; "c"; "k1"; "k2"; "args"; "kw"]%string
    (Some [PyConst 1 (VInt 1); PyName 2 "x"])
    (Some {[ "k2"%string := PyConst 3 VNone ]})
  = Ok ["a"; "b=1"; "c=x"; "*args"; "k1"; "k2=None"; "**kw"]%string.
Proof.
  refine (getparams_closed_form ["a"; "b"; "c"]%string ["k1"; "k2"]%string
            ["args"; "kw"]%string 12 [PyConst 1 (VInt 1); PyName 2 "x"]
            ["1"; "x"]%string {[ "k2"%string := PyConst 3 VNone ]}
            "args" "kw" _ _ _ _ _).
  - simpl. lia.
  - repeat constructor.
  - intros n d _ Hd.
    destruct (decide (n = "k2"%string)) as [->|Hne].
    + rewrite lookup_singleton_eq in Hd. injection Hd as <-. by eexists.
    + by rewrite lookup_singleton_ne in Hd.
  - reflexivity.
  - reflexivity.
Defined.

(** A function with keyword-only parameters whose [kwdefaults] is [None]
    (the [__kwdefaults__] of a function without keyword defaults):
    [getparams] raises [TypeError] at [name in self.kwdefaults], whatever
    the positional defaults are, as long as there are no more of them
    than positional parameters (the loop over them would raise first). *)
Theorem getparams_kwonly_without_kwdefaults (argcount kwcount flags : Z)
    (varnames : list string) (defaults : option (list obj))
    (dstrs : list string) (name : string) :
  0 < kwcount →
  0 ≤ argcount →
  py_index varnames argcount = Some name →
  Z.of_nat (length (default [] defaults)) ≤ argcount →
  Forall2 (λ d s, str d = Ok s) (default [] defaults) dstrs →
  getparams argcount kwcount flags varnames defaults None = Raise TypeError.
Proof.
  intros Hk Ha Hn Hlen Hstr. unfold getparams.
  assert (Hidx : (Z.to_nat argcount < length varnames)%nat).
  { unfold py_index in Hn.
    destruct (decide (0 ≤ argcount < Z.of_nat (length varnames))); [lia|].
    destruct (decide _); [lia | done]. }
  assert (Hd : ∃ params,
             match defaults with
             | Some ((_ :: _) as ds) =>
                 getparams_defaults 0 (reverse ds)
                   (py_slice_to varnames argcount)
             | _ => Ok (py_slice_to varnames argcount)
             end = Ok params).
  { destruct defaults as [[|d ds]|]; [by eexists | | by eexists].
    change (default [] (Some (d :: ds))) with (d :: ds) in Hlen, Hstr.
    pose proof (getparams_defaults_spec (reverse (d :: ds)) (reverse dstrs)
                  (py_slice_to varnames argcount) []) as Hs.
    rewrite app_nil_r in Hs. change (Z.of_nat (length [])) with 0 in Hs.
    rewrite Hs; [by eexists | by apply Forall2_reverse |].
    rewrite length_reverse. unfold py_slice_to.
    rewrite decide_False by lia. rewrite length_take. lia. }
  destruct Hd as [params ->]. cbn [rbind].
  rewrite decide_True by lia. unfold range_len.
  replace (Z.to_nat kwcount) with (S (Z.to_nat (kwcount - 1))) by lia.
  cbn [seq getparams_kwonly].
  replace (argcount + Z.of_nat 0) with argcount by lia.
  by rewrite Hn.
Qed.

Lemma getparams_kwonly_without_kwdefaults_witness :
  getparams 1 1 0 ["a"; "k"]%string (Some [PyConst 1 (VInt 1)]) None
  = Raise TypeError.
Proof.
  apply (getparams_kwonly_without_kwdefaults 1 1 0 ["a"; "k"]%string
           (Some [PyConst 1 (VInt 1)]) ["1"%string] "k").
  - lia.
  - lia.
  - reflexivity.
  - simpl. lia.
  - repeat constructor.
Defined.

(** ** Code.__init__: a conditional jump to the first instruction *)

Lemma find_else_step_no_jump (self : Code) st (a : Address) :
  opcode a ∉ pop_jump_if_opcodes →
  opcode a ≠ JUMP_ABSOLUTE →
  ∃ st', find_else_step self st a = Ok st'.
Proof.
  intros H1 H2. destruct st as [jumps last_jump]. unfold find_else_step.
  unfold op_in at 1. rewrite bool_decide_eq_false_2 by done.
  rewrite bool_decide_eq_false_2 by done.
  destruct (op_in (opcode a) stmt_opcodes); [|eauto].
  destruct last_jump; eauto.
Qed.

Lemma find_else_step_to_first (self : Code) st (a : Address) t oa :
  Code_wf self →
  opcode a ∈ pop_jump_if_opcodes →
  arg a = Some t →
  instr_seq self !! O = Some (t, oa) →
  find_else_step self st a = Raise AttributeError.
Proof.
  intros Hwf Hop Harg H0. destruct st as [jumps last_jump].
  destruct oa as [op0 a0].
  unfold find_else_step. unfold op_in at 1.
  rewrite bool_decide_eq_true_2 by done. rewrite Harg. cbn [need rbind].
  rewrite (address_Some self _ _ _ _ Hwf H0). cbn [need rbind].
  unfold Address_getitem, Code_getitem. simpl. reflexivity.
Qed.

Lemma find_else_loop_to_first (self : Code) (i : nat) (a_i : Address) t oa :
  Code_wf self →
  Code_getitem self (Z.of_nat i) = Ok (Some a_i) →
  opcode a_i ∈ pop_jump_if_opcodes →
  arg a_i = Some t →
  instr_seq self !! O = Some (t, oa) →
  (∀ (k : nat) a, (k < i)%nat →
     Code_getitem self (Z.of_nat k) = Ok (Some a) →
     (opcode a ∉ pop_jump_if_opcodes) ∧ (opcode a ≠ JUMP_ABSOLUTE)) →
  ∀ (m j : nat) addrs st,
    (j ≤ i < j + m)%nat →
    Forall2 (λ k a, Code_getitem self (Z.of_nat k) = Ok (Some a))
      (seq j m) addrs →
    find_else_loop self st addrs = Raise AttributeError.
Proof.
  intros Hwf Hi Hop Harg H0 Hpre.
  induction m as [|m IH]; intros j addrs st Hj Hf; [lia|].
  cbn [seq] in Hf.
  apply Forall2_cons_inv_l in Hf as (a & addrs' & Ha & Hf & ->).
  cbn [find_else_loop].
  destruct (decide (j = i)) as [->|Hne].
  - rewrite Hi in Ha. injection Ha as <-.
    by rewrite (find_else_step_to_first self st a_i t oa).
  - destruct (Hpre j a ltac:(lia) Ha) as [Hn1 Hn2].
    destruct (find_else_step_no_jump self st a Hn1 Hn2) as [st1 ->].
    cbn [rbind]. apply (IH (S j)); [lia | done].
Qed.

(** [Code(code_obj)] raises [AttributeError] when the first conditional
    jump of the code ([POP_JUMP_IF_TRUE] or [POP_JUMP_IF_FALSE], with no
    [JUMP_ABSOLUTE] before it) is a jump to the first instruction:
    [find_else] asks for the opcode of the instruction before the
    target, and there is none. *)
Theorem Code_init_raises_on_jump_to_first (co : code_obj)
    (instrs : list instr) (h : Heap) (i : nat) (p op t : Z)
    (oa : Z * option Z) :
  code_walker (co_code co) = Ok instrs →
  instrs !! i = Some (p, (op, Some t)) →
  op ∈ pop_jump_if_opcodes →
  instrs !! O = Some (t, oa) →
  (∀ (k : nat) q opk ak, (k < i)%nat →
     instrs !! k = Some (q, (opk, ak)) →
     (opk ∉ pop_jump_if_opcodes) ∧ (opk ≠ JUMP_ABSOLUTE)) →
  ∃ h', Code_init co h = (Raise AttributeError, h').
Proof.
  intros Hw Hi Hop H0 Hpre. unfold Code_init.
  rewrite (bind_run alloc _ h _ _ eq_refl).
  set (h1 := {| next_id := Pos.succ (next_id h); unpacks := unpacks h |}).
  destruct (map_M_alloc_Ok PyConst (co_consts co) h1) as (cs & h2 & Hcs).
  rewrite (bind_run _ _ _ _ _ Hcs).
  destruct (map_M_alloc_Ok PyName (co_names co) h2) as (ns & h3 & Hns).
  rewrite (bind_run _ _ _ _ _ Hns).
  destruct (map_M_alloc_Ok PyName (co_varnames co) h3) as (vs & h4 & Hvs).
  rewrite (bind_run _ _ _ _ _ Hvs).
  rewrite Hw. rewrite (bind_run (lift (Ok instrs)) _ h4 instrs h4 eq_refl).
  cbv zeta.
  set (self := {| code_id := next_id h; consts := cs; names := ns;
                  varnames := vs; instr_seq := instrs;
                  instr_map := build_instr_map instrs;
                  name := co_name co; else_jumps := ∅ |}).
  assert (Hwf : Code_wf self).
  { split; [|done]. simpl. by apply code_walker_NoDup in Hw. }
  assert (Hej : find_else self = Raise AttributeError).
  { unfold find_else.
    destruct (Code_iter_over_Ok self (seq 0 (length (instr_seq self))))
      as (addrs & Hit & Hf).
    { apply Forall_forall. intros k Hk. apply elem_of_seq in Hk. lia. }
    unfold Code_iter. rewrite Hit. cbn [rbind].
    rewrite (find_else_loop_to_first self i
               {| code := self; index := Z.of_nat i; addr := p;
                  opcode := op; arg := Some t |} t oa Hwf
               (Code_getitem_Some self i p op (Some t) Hi) Hop eq_refl H0)
      with (m := length (instr_seq self)) (j := O) (addrs := addrs);
      [done | | | done].
    - intros k a Hk Ha.
      pose proof (Code_getitem_spec self (Z.of_nat k)) as Hs.
      rewrite Ha in Hs. destruct Hs as (_ & _ & _ & Hl).
      rewrite Nat2Z.id in Hl. exact (Hpre k _ _ _ Hk Hl).
    - apply lookup_lt_Some in Hi. simpl. lia. }
  rewrite Hej. eexists. reflexivity.
Qed.

Lemma Code_init_raises_on_jump_to_first_witness :
  ∃ h', Code_init {| co_code := [101; 0; 0;  115; 0; 0;  100; 0; 0;  83];
                     co_consts := [VNone];
                     co_names := ["x"%string];
                     co_varnames := [];
                     co_name := "<module>" |} Heap_init
        = (Raise AttributeError, h').
Proof.
  apply (Code_init_raises_on_jump_to_first
           {| co_code := [101; 0; 0;  115; 0; 0;  100; 0; 0;  83];
              co_consts := [VNone];
              co_names := ["x"%string];
              co_varnames := [];
              co_name := "<module>" |}
           [(0, (LOAD_NAME, Some 0)); (3, (POP_JUMP_IF_TRUE, Some 0));
            (6, (LOAD_CONST, Some 0)); (9, (RETURN_VALUE, None))]
           Heap_init 1 3 POP_JUMP_IF_TRUE 0 (LOAD_NAME, Some 0)).
  - reflexivity.
  - reflexivity.
  - apply (bool_decide_unpack _). vm_compute. exact I.
  - reflexivity.
  - intros k q opk ak Hk Hl.
    destruct k as [|k]; [|lia]. injection Hl as <- <- <-.
    split; [|discriminate].
    intros Hin. apply (bool_decide_pack _) in Hin. vm_compute in Hin.
    destruct Hin.
Defined.
